(** * Port scanner of the sysadmin toolkit: a shallow embedding

    This development embeds [port_scanner.py] (the TCP connect scanner:
    [scan_port], [scan_ports], [quick_scan]) and checks the statements of
    the scanner specification against it.

    Conventions of the embedding.
    - Python integers are [Z]; float timeouts are rationals ([Q]); strings
      are [string]; [None] is [None].
    - The operating system (name resolution, sockets, the services table)
      is an oracle record [Env].  A call either returns or raises.
    - Code runs in the monad [M]: it accumulates the observable events of
      the main thread (library calls, submissions to the executor, results
      taken from futures, printed lines) and ends in a returned value or in
      a raised exception.
    - [ThreadPoolExecutor] is a small state machine ([PoolModel]) driven by
      a choice sequence; [as_completed] yields the futures that machine
      finished, each once, in an order that depends on the schedule.
    - Python integers are unbounded, but [len] is not: the length of a
      range that does not fit a C [ssize_t] raises [OverflowError].
    - Exceptions that any statement can raise for lack of resources
      ([MemoryError], a thread that cannot be started) are left out. *)

From Stdlib Require Import String ZArith QArith Bool List Lia Permutation Sorted.
Import ListNotations.

Local Open Scope string_scope.
Local Open Scope list_scope.
Local Open Scope Z_scope.

(** ** Exceptions and outcomes *)

(** The exception classes the scanner can meet.  [socket.error] is an alias
    of [OSError]; [socket.gaierror] is a subclass of it; [OverflowError] is
    an [ArithmeticError], neither a socket error nor a [ValueError]. *)
Inductive exn : Type :=
| gaierror (msg : string)
| OSError (msg : string)
| ValueError (msg : string)
| OverflowError (msg : string)
| KeyboardInterrupt
| OtherException (msg : string).

(** [isinstance(e, socket.gaierror)] *)
Definition is_gaierror (e : exn) : bool :=
  match e with gaierror _ => true | _ => false end.

(** [isinstance(e, OSError)], which is also [isinstance(e, socket.error)] *)
Definition is_OSError (e : exn) : bool :=
  match e with gaierror _ | OSError _ => true | _ => false end.

(** [str(e)] *)
Definition str (e : exn) : string :=
  match e with
  | gaierror m | OSError m | ValueError m | OverflowError m | OtherException m => m
  | KeyboardInterrupt => ""
  end.

Inductive outcome (A : Type) : Type :=
| Return (a : A)
| Raise (e : exn).
Arguments Return {A} a.
Arguments Raise {A} e.

(** ** Data model *)

(** The dictionary built by [scan_port]: keys ["port"], ["status"],
    ["service"] and, only on the error path, ["error"] ([None] stands for
    the missing key).  [service = None] is Python's [None]. *)
Record PortResult : Type := mkPortResult {
  port : Z;
  status : string;
  service : option string;
  error : option string
}.

(** The operating system as seen by the scanner. *)
Record Env : Type := mkEnv {
  (** [socket.gethostbyname(host)] *)
  gethostbyname : string -> outcome string;
  (** creating the socket, [settimeout(timeout)], [connect_ex((host, port))]
      and [close()], as one call: the integer [connect_ex] returned, or the
      exception one of the four raised *)
  connect_ex : string -> Z -> Q -> outcome Z;
  (** [socket.getservbyport(port)] *)
  getservbyport : Z -> outcome string
}.

(** Lines written to standard output (time stamps and rulers left out). *)
Inductive line : Type :=
| ScanHeader (host : string) (start_port end_port : Z)
| ResolvedIP (target_ip : string)
| ResolveFailed (host : string)
| OpenPort (p : Z) (service : option string)
| Progress (scanned total_ports : Z)
| ScanFooter (n_open : nat)
| QuickHeader (host : string) (n_ports : nat)
| QuickTotal (n_open : nat).

(** What the main thread does that can be observed. *)
Inductive event : Type :=
| Stdout (l : line)
| CallGethostbyname (host : string)
| CallConnectEx (host : string) (p : Z) (timeout : Q)
| CallGetservbyport (p : Z)
| CallThreadPoolExecutor (max_workers : Z)
| Submit (host : string) (p : Z) (timeout : Q)
| Collect (r : PortResult).

(** ** The monad of the embedding *)

Definition M (A : Type) : Type := (list event * outcome A)%type.

Definition ret {A} (a : A) : M A := ([], Return a).

Definition raise {A} (e : exn) : M A := ([], Raise e).

Definition emit (ev : event) : M unit := ([ev], Return tt).

Definition bind {A B} (m : M A) (k : A -> M B) : M B :=
  match m with
  | (t, Return a) => let (t', r) := k a in (t ++ t', r)
  | (t, Raise e) => (t, Raise e)
  end.

(** [try: m  except <catches> as e: handler e] *)
Definition try_except {A} (m : M A) (catches : exn -> bool) (handler : exn -> M A) : M A :=
  match m with
  | (t, Raise e) =>
      if catches e then let (t', r) := handler e in (t ++ t', r) else (t, Raise e)
  | _ => m
  end.

Declare Scope py_scope.
Delimit Scope py_scope with py.
Notation "x <- m ;; k" := (bind m (fun x => k))
  (at level 61, m at next level, right associativity) : py_scope.
Notation "m ;; k" := (bind m (fun _ => k))
  (at level 61, right associativity) : py_scope.
Local Open Scope py_scope.

(** The events of a run and the way it ends. *)
Definition events {A} (m : M A) : list event := fst m.
Definition final {A} (m : M A) : outcome A := snd m.

Definition print (l : line) : M unit := emit (Stdout l).

(** ** Python built-ins used by the scanner *)

(** [range(start, stop)] *)
Definition range (start stop : Z) : list Z :=
  map (fun i => start + Z.of_nat i) (seq 0 (Z.to_nat (stop - start))).

(** [sys.maxsize], the largest value of a C [ssize_t] (a 64-bit CPython). *)
Definition sys_maxsize : Z := 2 ^ 63 - 1.

(** [len(r)] for a range [r]: the number of its elements, if that number
    fits a C [ssize_t]; [OverflowError] otherwise. *)
Definition len (r : list Z) : M Z :=
  let n := Z.of_nat (length r) in
  if sys_maxsize <? n
  then raise (OverflowError "Python int too large to convert to C ssize_t")
  else ret n.

(** [sorted(l, key=lambda x: x["port"])]: a stable sort on the port. *)
Fixpoint insert_by_port (r : PortResult) (l : list PortResult) : list PortResult :=
  match l with
  | [] => [r]
  | x :: xs => if port r <=? port x then r :: l else x :: insert_by_port r xs
  end.

Definition sorted (l : list PortResult) : list PortResult :=
  fold_right insert_by_port [] l.

Definition is_open (r : PortResult) : bool := String.eqb (status r) "abierto".

(** ** The thread pool *)

(** [ThreadPoolExecutor] with [as_completed]: submitted jobs wait in a FIFO
    queue; a job leaves the queue when fewer than [max_workers] jobs are
    running; any running job may be the next to finish.  Which of these
    happens next is not decided by the program: it is read from a choice
    sequence, so that every choice sequence is one interleaving. *)
Module PoolModel.

Record pool : Type := mkPool {
  queue : list Z;
  running : list Z;
  finished : list Z
}.

Definition submitted (jobs : list Z) : pool := mkPool jobs [] [].

Definition can_start (max_workers : Z) (st : pool) : bool :=
  match queue st with
  | [] => false
  | _ :: _ => Z.of_nat (length (running st)) <? max_workers
  end.

Definition remove_nth {A} (i : nat) (l : list A) : list A :=
  firstn i l ++ skipn (S i) l.

(** The [i]-th running job finishes. *)
Definition finish (i : nat) (st : pool) : pool :=
  match nth_error (running st) i with
  | Some p => mkPool (queue st) (remove_nth i (running st)) (finished st ++ [p])
  | None => st
  end.

(** The head of the queue is taken by a worker. *)
Definition start (st : pool) : pool :=
  match queue st with
  | p :: q => mkPool q (running st ++ [p]) (finished st)
  | [] => st
  end.

Definition step (max_workers : Z) (choice : nat) (st : pool) : pool :=
  if can_start max_workers st then
    match (choice mod S (length (running st)))%nat with
    | O => start st
    | S i => finish i st
    end
  else
    match running st with
    | [] => st
    | _ :: _ => finish (choice mod length (running st))%nat st
    end.

(** [n] steps; a choice sequence that runs out continues with [0]. *)
Fixpoint run (max_workers : Z) (choices : list nat) (n : nat) (st : pool) : pool :=
  match n with
  | O => st
  | S n' => run max_workers (tl choices) n' (step max_workers (hd O choices) st)
  end.

(** Every job starts once and finishes once: [2 * length jobs] steps. *)
Definition execute (max_workers : Z) (choices : list nat) (jobs : list Z) : pool :=
  run max_workers choices (2 * length jobs) (submitted jobs).

(** Iterating over a set: the order is not the program's to choose either. *)
Fixpoint shuffle_n (n : nat) (choices : list nat) (l : list Z) : list Z :=
  match n with
  | O => []
  | S n' =>
      let i := (hd O choices mod length l)%nat in
      match nth_error l i with
      | Some x => x :: shuffle_n n' (tl choices) (remove_nth i l)
      | None => []
      end
  end.

Definition shuffle (choices : list nat) (l : list Z) : list Z :=
  shuffle_n (length l) choices l.

(** What a run of the program leaves to the scheduler: the moves of the
    pool, how many futures have finished by the time [as_completed] is
    called, and the iteration order of the set of those futures. *)
Record schedule : Type := mkSchedule {
  pool_choices : list nat;
  finished_early : nat;
  set_order : list nat
}.

(** [as_completed(futures)]: the futures that had finished before the call
    come first, in set order; the others follow as they finish. *)
Definition as_completed (max_workers : Z) (sched : schedule) (jobs : list Z) : list Z :=
  let all := finished (execute max_workers (pool_choices sched) jobs) in
  shuffle (set_order sched) (firstn (finished_early sched) all)
  ++ skipn (finished_early sched) all.

(** The scheduler that always takes the first move on offer. *)
Definition first_come : schedule := mkSchedule [] 0 [].

End PoolModel.

(** ** The operator's interrupt *)

(** [scan_ports] has no cancellation argument.  What an operator can do is
    interrupt the process: CPython then raises [KeyboardInterrupt] in the
    main thread, here either after [k] submissions or after [k] iterations
    of the collection loop. *)
Inductive sigint : Type :=
| NoSigint
| SigintDispatch (k : nat)
| SigintCollect (k : nat).

Definition during_dispatch (sig : sigint) : option nat :=
  match sig with SigintDispatch k => Some k | _ => None end.

Definition during_collect (sig : sigint) : option nat :=
  match sig with SigintCollect k => Some k | _ => None end.

(** ** [scan_port] *)

Section Scanner.

Variable env : Env.

Definition call_gethostbyname (host : string) : M string :=
  (CallGethostbyname host :: nil, gethostbyname env host).

Definition call_connect_ex (host : string) (p : Z) (timeout : Q) : M Z :=
  (CallConnectEx host p timeout :: nil, connect_ex env host p timeout).

Definition call_getservbyport (p : Z) : M string :=
  (CallGetservbyport p :: nil, getservbyport env p).

Definition scan_port (host : string) (p : Z) (timeout : Q) : M PortResult :=
  try_except
    (result <- call_connect_ex host p timeout ;;
     if result =? 0 then
       service <- try_except (call_getservbyport p) is_OSError
                    (fun _ => ret "desconocido") ;;
       ret (mkPortResult p "abierto" (Some service) None)
     else
       ret (mkPortResult p "cerrado" None None))
    is_OSError
    (fun e => ret (mkPortResult p "error" None (Some (str e)))).

(** ** [scan_ports] *)

(** [ThreadPoolExecutor(max_workers=max_workers)]: the constructor rejects a
    bound that is not positive; the executor it returns keeps the bound it
    was given. *)
Definition ThreadPoolExecutor (max_workers : Z) : M Z :=
  (CallThreadPoolExecutor max_workers :: nil,
   if max_workers <=? 0 then Raise (ValueError "max_workers must be greater than 0")
   else Return max_workers).

(** The dictionary comprehension of lines 65-66: one [executor.submit] per
    port, in range order; the dictionary built maps each future to its
    port, and is kept here as the list of those ports.  [intr = Some k]
    delivers the operator's interrupt after [k] submissions. *)
Fixpoint dispatch (host : string) (timeout : Q) (intr : option nat) (ports : list Z)
  : M (list Z) :=
  match ports with
  | [] => ret []
  | p :: rest =>
      match intr with
      | Some O => raise KeyboardInterrupt
      | _ =>
          emit (Submit host p timeout) ;;
          futures <- dispatch host timeout (option_map Nat.pred intr) rest ;;
          ret (p :: futures)
      end
  end.

(** [future.result()]: the value the worker's [scan_port] returned, or the
    exception it raised, raised again in the main thread.  The worker's own
    library calls belong to the worker thread, not to this trace. *)
Definition future_result (job : M PortResult) : M PortResult :=
  match final job with
  | Return r => emit (Collect r) ;; ret r
  | Raise e => raise e
  end.

(** The [for future in as_completed(futures)] loop of lines 68-78;
    [completed] lists the ports of the futures in the order in which
    [as_completed] yields them.  [intr = Some k] delivers the operator's
    interrupt after [k] iterations. *)
Fixpoint collect (host : string) (timeout : Q) (total_ports : Z) (intr : option nat)
    (completed : list Z) (scanned : Z) (open_ports : list PortResult)
  : M (list PortResult) :=
  match completed with
  | [] => ret open_ports
  | p :: rest =>
      match intr with
      | Some O => raise KeyboardInterrupt
      | _ =>
          let scanned := scanned + 1 in
          result <- future_result (scan_port host p timeout) ;;
          open_ports <-
            (if String.eqb (status result) "abierto" then
               print (OpenPort (port result) (service result)) ;;
               ret (open_ports ++ [result])
             else ret open_ports) ;;
          (if scanned mod 100 =? 0 then print (Progress scanned total_ports)
           else ret tt) ;;
          collect host timeout total_ports (option_map Nat.pred intr) rest
            scanned open_ports
      end
  end.

Definition scan_ports (sig : sigint) (sched : PoolModel.schedule)
    (host : string) (start_port end_port : Z) (timeout : Q) (max_workers : Z)
  : M (list PortResult) :=
  print (ScanHeader host start_port end_port) ;;
  resolved <-
    try_except
      (target_ip <- call_gethostbyname host ;;
       print (ResolvedIP target_ip) ;;
       ret (Some target_ip))
      is_gaierror
      (fun _ => print (ResolveFailed host) ;; ret None) ;;
  match resolved with
  | None => ret []
  | Some target_ip =>
      let ports_to_scan := range start_port (end_port + 1) in
      total_ports <- len ports_to_scan ;;
      executor <- ThreadPoolExecutor max_workers ;;
      futures <- dispatch host timeout (during_dispatch sig) ports_to_scan ;;
      open_ports <-
        collect host timeout total_ports (during_collect sig)
          (PoolModel.as_completed executor sched futures) 0 [] ;;
      print (ScanFooter (length open_ports)) ;;
      ret (sorted open_ports)
  end.

(** ** [quick_scan] *)

Definition common_ports : list Z :=
  [21; 22; 23; 25; 53; 80; 110; 135; 139; 143; 443; 445;
   993; 995; 1433; 1521; 3306; 3389; 5432; 5900; 8080; 8443].

(** The [for port in common_ports] loop of lines 104-108. *)
Fixpoint quick_loop (host : string) (ports : list Z) (open_ports : list PortResult)
  : M (list PortResult) :=
  match ports with
  | [] => ret open_ports
  | p :: rest =>
      result <- scan_port host p (1 # 2) ;;
      open_ports <-
        (if String.eqb (status result) "abierto" then
           print (OpenPort (port result) (service result)) ;;
           ret (open_ports ++ [result])
         else ret open_ports) ;;
      quick_loop host rest open_ports
  end.

Definition quick_scan (host : string) : M (list PortResult) :=
  print (QuickHeader host (length common_ports)) ;;
  open_ports <- quick_loop host common_ports [] ;;
  print (QuickTotal (length open_ports)) ;;
  ret open_ports.

End Scanner.

(** Default arguments of [scan_port] and [scan_ports]. *)
Definition default_start_port : Z := 1.
Definition default_end_port : Z := 1024.
Definition default_timeout : Q := 1.
Definition default_max_workers : Z := 100.

(** [scan_ports(host)]: the call that leaves every optional argument out. *)
Definition scan_ports_defaults (env : Env) (sig : sigint) (sched : PoolModel.schedule)
    (host : string) : M (list PortResult) :=
  scan_ports env sig sched host default_start_port default_end_port default_timeout
    default_max_workers.

(** ** Reading a trace *)

(** The results taken from futures, in the order of the loop. *)
Definition collected (t : list event) : list PortResult :=
  flat_map (fun ev => match ev with Collect r => [r] | _ => [] end) t.

(** The arguments of the submitted [scan_port] calls, in submission order. *)
Definition submissions (t : list event) : list (string * Z * Q) :=
  flat_map (fun ev => match ev with Submit h p tm => [(h, p, tm)] | _ => [] end) t.

(** The arguments of the [connect_ex] calls made by the thread itself. *)
Definition connections (t : list event) : list (string * Z * Q) :=
  flat_map (fun ev => match ev with CallConnectEx h p tm => [(h, p, tm)] | _ => [] end) t.

(** The hosts looked up by the thread itself. *)
Definition lookups (t : list event) : list string :=
  flat_map (fun ev => match ev with CallGethostbyname h => [h] | _ => [] end) t.

(** The bounds of the executors the thread built. *)
Definition executors (t : list event) : list Z :=
  flat_map (fun ev => match ev with CallThreadPoolExecutor n => [n] | _ => [] end) t.

(** The lines printed. *)
Definition printed (t : list event) : list line :=
  flat_map (fun ev => match ev with Stdout l => [l] | _ => [] end) t.

(** A scan has completed when it has printed its closing lines (the
    "Escaneo completado" block of lines 80-84). *)
Definition scan_completed {A} (m : M A) : Prop :=
  exists n, In (Stdout (ScanFooter n)) (events m).

Definition port_lt (a b : PortResult) : Prop := port a < port b.

Definition port_le (a b : PortResult) : Prop := port a <= port b.

(** The printed line [l] reports on the port of the result [r]: only the
    "ABIERTO" lines of the two loops name a port. *)
Definition reports_on (l : line) (r : PortResult) : Prop :=
  match l with
  | OpenPort p _ => p = port r
  | _ => False
  end.

(** The closing lines of a scan, read off a trace. *)
Definition footers (t : list event) : list nat :=
  flat_map (fun ev => match ev with Stdout (ScanFooter n) => [n] | _ => [] end) t.

(** ** The moves of the thread pool *)

Import PoolModel.

(** The moves of the pool, as a relation. *)
Inductive pool_step (max_workers : Z) : pool -> pool -> Prop :=
| step_start p q r f :
    Z.of_nat (length r) < max_workers ->
    pool_step max_workers (mkPool (p :: q) r f) (mkPool q (r ++ [p]) f)
| step_finish q r1 p r2 f :
    pool_step max_workers (mkPool q (r1 ++ p :: r2) f) (mkPool q (r1 ++ r2) (f ++ [p])).

(** Nothing queued can start and nothing runs. *)
Definition idle (max_workers : Z) (st : pool) : Prop :=
  running st = [] /\ can_start max_workers st = false.

(** What every reachable state of the pool satisfies. *)
Definition pool_inv (max_workers : Z) (jobs : list Z) (st : pool) : Prop :=
  Permutation (queue st ++ running st ++ finished st) jobs
  /\ Z.of_nat (length (running st)) <= max_workers.

(** Work left: a queued job has two moves ahead of it, a running one has one. *)
Definition work_left (st : pool) : nat :=
  (2 * length (queue st) + length (running st))%nat.

(** ** The shapes of runs *)

(** The interrupt, due after [k] rounds, does not arrive within [n] rounds. *)
Definition quiet (intr : option nat) (n : nat) : Prop :=
  match intr with None => True | Some k => (n <= k)%nat end.

Section ProbeShapes.

Variable env : Env.
Variables (host : string) (timeout : Q).

(** The probe of port [p] returns [r]. *)
Definition probed (p : Z) (r : PortResult) : Prop :=
  final (scan_port env host p timeout) = Return r.

(** The six ways in which a probe can go. *)
Inductive scan_port_case (p : Z) : Prop :=
| case_open s (Hc : connect_ex env host p timeout = Return 0)
    (Hs : getservbyport env p = Return s)
| case_open_unknown e (Hc : connect_ex env host p timeout = Return 0)
    (Hs : getservbyport env p = Raise e) (He : is_OSError e = true)
| case_lookup_escapes e (Hc : connect_ex env host p timeout = Return 0)
    (Hs : getservbyport env p = Raise e) (He : is_OSError e = false)
| case_closed code (Hc : connect_ex env host p timeout = Return code) (Hne : code <> 0)
| case_error e (Hc : connect_ex env host p timeout = Raise e) (He : is_OSError e = true)
| case_escapes e (Hc : connect_ex env host p timeout = Raise e) (He : is_OSError e = false).

Variable total_ports : Z.

(** What one round of the collection loop adds to the trace, given the
    result taken. *)
Definition round_events (scanned : Z) (r : PortResult) : list event :=
  Collect r
  :: (if is_open r then [Stdout (OpenPort (port r) (service r))] else [])
  ++ (if (scanned + 1) mod 100 =? 0 then [Stdout (Progress (scanned + 1) total_ports)]
      else []).

Fixpoint loop_events (scanned : Z) (rs : list PortResult) : list event :=
  match rs with
  | [] => []
  | r :: rest => round_events scanned r ++ loop_events (scanned + 1) rest
  end.

End ProbeShapes.

Section ScanShapes.

Variable env : Env.
Variables (sig : sigint) (sched : schedule).
Variables (host : string) (start_port end_port : Z) (timeout : Q) (max_workers : Z).

Let ports_to_scan := range start_port (end_port + 1).
Let total_ports := Z.of_nat (length ports_to_scan).
Let completed := as_completed max_workers sched ports_to_scan.
Let run := scan_ports env sig sched host start_port end_port timeout max_workers.
Let submits (ports : list Z) := map (fun p => Submit host p timeout) ports.

(** Lines 64-86: what [scan_ports] does once the host has resolved and the
    range has been measured. *)
Definition scan_body : M (list PortResult) :=
  executor <- ThreadPoolExecutor max_workers ;;
  futures <- dispatch host timeout (during_dispatch sig) ports_to_scan ;;
  open_ports <-
    collect env host timeout total_ports (during_collect sig)
      (as_completed executor sched futures) 0 [] ;;
  print (ScanFooter (length open_ports)) ;;
  ret (sorted open_ports).

(** Lines 68-86: the collection loop and what follows it. *)
Definition scan_collect : M (list PortResult) :=
  open_ports <-
    collect env host timeout total_ports (during_collect sig) completed 0 [] ;;
  print (ScanFooter (length open_ports)) ;;
  ret (sorted open_ports).

(** The trace up to the end of the resolution; [third] is the line printed
    for its outcome. *)
Definition scan_prologue (third : line) : list event :=
  [Stdout (ScanHeader host start_port end_port); CallGethostbyname host; Stdout third].

(** The trace up to the construction of the executor. *)
Definition scan_opening (target_ip : string) : list event :=
  [Stdout (ScanHeader host start_port end_port); CallGethostbyname host;
   Stdout (ResolvedIP target_ip); CallThreadPoolExecutor max_workers].

(** The seven ways in which a call of [scan_ports] can go. *)
Inductive scan_path : Prop :=
| path_unresolved e
    (Hg : gethostbyname env host = Raise e) (He : is_gaierror e = true)
    (Hrun : run = (scan_prologue (ResolveFailed host), Return []))
| path_resolution_escapes e
    (Hg : gethostbyname env host = Raise e) (He : is_gaierror e = false)
    (Hrun : run = ([Stdout (ScanHeader host start_port end_port); CallGethostbyname host],
                   Raise e))
| path_bad_pool target_ip
    (Hg : gethostbyname env host = Return target_ip)
    (Hmw : max_workers <= 0)
    (Hrun : run = (scan_opening target_ip,
                   Raise (ValueError "max_workers must be greater than 0")))
    (Hsize : total_ports <= sys_maxsize)
| path_dispatch_interrupted target_ip k
    (Hg : gethostbyname env host = Return target_ip)
    (Hmw : 0 < max_workers)
    (Hsig : sig = SigintDispatch k) (Hk : (k < length ports_to_scan)%nat)
    (Hrun : run = (scan_opening target_ip ++ submits (firstn k ports_to_scan),
                   Raise KeyboardInterrupt))
    (Hsize : total_ports <= sys_maxsize)
| path_collect_raised target_ip rs e
    (Hg : gethostbyname env host = Return target_ip)
    (Hmw : 0 < max_workers)
    (Hlen : (length rs < length completed)%nat)
    (Hrs : Forall2 (probed env host timeout) (firstn (length rs) completed) rs)
    (He : is_OSError e = false)
    (Hrun : run = (scan_opening target_ip
                     ++ submits ports_to_scan
                     ++ loop_events total_ports 0 rs,
                   Raise e))
    (Hsize : total_ports <= sys_maxsize)
| path_completed target_ip rs
    (Hg : gethostbyname env host = Return target_ip)
    (Hmw : 0 < max_workers)
    (Hd : quiet (during_dispatch sig) (length ports_to_scan))
    (Hc : quiet (during_collect sig) (length ports_to_scan))
    (Hrs : Forall2 (probed env host timeout) completed rs)
    (Hrun : run = (scan_opening target_ip
                     ++ submits ports_to_scan
                     ++ loop_events total_ports 0 rs
                     ++ [Stdout (ScanFooter (length (filter is_open rs)))],
                   Return (sorted (filter is_open rs))))
    (Hsize : total_ports <= sys_maxsize)
| path_too_long target_ip
    (Hg : gethostbyname env host = Return target_ip)
    (Hsize : sys_maxsize < total_ports)
    (Hrun : run = (scan_prologue (ResolvedIP target_ip),
                   Raise (OverflowError "Python int too large to convert to C ssize_t"))).

End ScanShapes.

(** ** A host to try the statements on *)

(** Error indicators of [connect_ex] on Linux for a refused connection and
    for a connection attempt that ran into the socket's timeout. *)
Definition ECONNREFUSED : Z := 111.
Definition EWOULDBLOCK : Z := 11.

(** A schedule in which probes overtake one another, and an environment:
    ["localhost"] is the only name that resolves; ports 22 and 8080 accept
    connections, port 3 cannot be probed for lack of descriptors, port 81
    drops the packets, every other port refuses; only port 22 has an entry
    in the services table.  As in CPython, a negative timeout is rejected by
    [settimeout] with a [ValueError], and a port outside 0..65535 by
    [connect_ex] and by [getservbyport] with an [OverflowError]. *)
Definition busy : schedule := mkSchedule [3; 1; 4; 1; 5]%nat 2 [1]%nat.

Definition valid_port (p : Z) : bool := (0 <=? p) && (p <=? 65535).

Definition example_env : Env := mkEnv
  (fun h => if String.eqb h "localhost" then Return "127.0.0.1"
            else Raise (gaierror "[Errno -2] Name or service not known"))
  (fun _ p timeout =>
     if negb (Qle_bool 0 timeout) then Raise (ValueError "Timeout value out of range")
     else if negb (valid_port p)
     then Raise (OverflowError "connect_ex(): port must be 0-65535.")
     else if (p =? 22) || (p =? 8080) then Return 0
     else if p =? 3 then Raise (OSError "[Errno 24] Too many open files")
     else if p =? 81 then Return EWOULDBLOCK
     else Return ECONNREFUSED)
  (fun p =>
     if negb (valid_port p)
     then Raise (OverflowError "getservbyport: port must be 0-65535.")
     else if p =? 22 then Return "ssh"
     else Raise (OSError "port/proto not found")).


(** ** [NetworkUtils.port_check] of [network_utils.py] *)

(** The dictionary [port_check] returns: keys ["host"], ["port"] and
    ["is_open"], then ["service"] on the normal path (a missing key is the
    outer [None], Python's [None] the inner one) or ["error"] on the error
    path. *)
Record PortCheck : Type := mkPortCheck {
  pc_host : string;
  pc_port : Z;
  pc_is_open : bool;
  pc_service : option (option string);
  pc_error : option string
}.

(** Default [timeout] of [port_check]. *)
Definition port_check_default_timeout : Q := 2.

Definition port_check (env : Env) (host : string) (p : Z) (timeout : Q) : M PortCheck :=
  try_except
    (result <- call_connect_ex env host p timeout ;;
     let is_open := result =? 0 in
     service <- try_except (call_getservbyport env p) is_OSError
                  (fun _ => ret "desconocido") ;;
     ret (mkPortCheck host p is_open
            (Some (if is_open then Some service else None)) None))
    is_OSError
    (fun e => ret (mkPortCheck host p false None (Some (str e)))).

(** ** The menus that call the scanner *)

(** [isinstance(e, ValueError)] *)
Definition is_ValueError (e : exn) : bool :=
  match e with ValueError _ => true | _ => false end.

(** The questions the two menus put to the operator. *)
Inductive prompt : Type :=
| AskTarget
| AskOption
| AskStartPort
| AskEndPort.

(** What the menus print themselves. *)
Inductive console_line : Type :=
| ToolBanner
| ToolOptions
| ScriptOptions
| InvalidNumbers
| InvalidOption
| SummaryHeader
| SummaryPort (p : Z) (service : option string).

(** What a menu does that can be observed: its own lines, its questions,
    and the events of the scan it starts. *)
Inductive console_event : Type :=
| Say (l : console_line)
| Ask (q : prompt)
| Scanner (ev : event).

Definition Menu (A : Type) : Type := (list console_event * outcome A)%type.

Definition menu_ret {A} (a : A) : Menu A := ([], Return a).

Definition menu_bind {A B} (m : Menu A) (k : A -> Menu B) : Menu B :=
  match m with
  | (t, Return a) => let (t', r) := k a in (t ++ t', r)
  | (t, Raise e) => (t, Raise e)
  end.

(** [try: m  except <catches>: handler] in a menu *)
Definition menu_try {A} (m : Menu A) (catches : exn -> bool) (handler : exn -> Menu A)
  : Menu A :=
  match m with
  | (t, Raise e) =>
      if catches e then let (t', r) := handler e in (t ++ t', r) else (t, Raise e)
  | _ => m
  end.

Definition say (l : console_line) : Menu unit := ([Say l], Return tt).

(** A call into [port_scanner.py]. *)
Definition call_scanner {A} (m : M A) : Menu A := (map Scanner (events m), final m).

(** [input(prompt)]: the next line of standard input, [EOFError] at its end. *)
Definition input (q : prompt) (stdin : list string) : Menu (string * list string) :=
  match stdin with
  | [] => ([Ask q], Raise (OtherException "EOF when reading a line"))
  | l :: rest => ([Ask q], Return (l, rest))
  end.

(** The built-ins [str.strip] and [int], as the interpreter provides them. *)
Record Builtins : Type := mkBuiltins {
  strip : string -> string;
  int : string -> outcome Z
}.

Definition call_int (b : Builtins) (s : string) : Menu Z := ([], int b s).

Declare Scope menu_scope.
Delimit Scope menu_scope with menu.
Notation "x <- m ;; k" := (menu_bind m (fun x => k))
  (at level 61, m at next level, right associativity) : menu_scope.
Notation "m ;; k" := (menu_bind m (fun _ => k))
  (at level 61, right associativity) : menu_scope.

Section Menus.

Variable b : Builtins.
Variable env : Env.
Variables (sig : sigint) (sched : schedule).

Local Open Scope menu_scope.

(** [run_port_scanner] of [main.py], lines 66-97. *)
Definition run_port_scanner (stdin : list string) : Menu unit :=
  say ToolBanner ;;
  answer <- input AskTarget stdin ;;
  let target := strip b (fst answer) in
  let target := if String.eqb target "" then "localhost" else target in
  say ToolOptions ;;
  answer <- input AskOption (snd answer) ;;
  let opcion := strip b (fst answer) in
  let stdin := snd answer in
  if String.eqb opcion "1" then
    call_scanner (quick_scan env target) ;; menu_ret tt
  else if String.eqb opcion "2" then
    call_scanner (scan_ports env sig sched target 1 1024 default_timeout
                    default_max_workers) ;;
    menu_ret tt
  else if String.eqb opcion "3" then
    menu_try
      (answer <- input AskStartPort stdin ;;
       start <- call_int b (fst answer) ;;
       answer <- input AskEndPort (snd answer) ;;
       end_ <- call_int b (fst answer) ;;
       call_scanner (scan_ports env sig sched target start end_ default_timeout
                       default_max_workers) ;;
       menu_ret tt)
      is_ValueError
      (fun _ => say InvalidNumbers)
  else
    say InvalidOption.

(** The [for port_info in results] loop of lines 139-140 of
    [port_scanner.py]. *)
Fixpoint print_summary (results : list PortResult) : Menu unit :=
  match results with
  | [] => menu_ret tt
  | port_info :: rest =>
      say (SummaryPort (port port_info) (service port_info)) ;;
      print_summary rest
  end.

(** The script part of [port_scanner.py], lines 114-140. *)
Definition port_scanner_main (stdin : list string) : Menu unit :=
  answer <- input AskTarget stdin ;;
  let target := strip b (fst answer) in
  say ScriptOptions ;;
  answer <- input AskOption (snd answer) ;;
  let opcion := strip b (fst answer) in
  let stdin := snd answer in
  results <-
    (if String.eqb opcion "1" then
       call_scanner (quick_scan env target)
     else if String.eqb opcion "2" then
       call_scanner (scan_ports env sig sched target 1 1024 default_timeout
                       default_max_workers)
     else if String.eqb opcion "3" then
       answer <- input AskStartPort stdin ;;
       start <- call_int b (fst answer) ;;
       answer <- input AskEndPort (snd answer) ;;
       end_ <- call_int b (fst answer) ;;
       call_scanner (scan_ports env sig sched target start end_ default_timeout
                       default_max_workers)
     else
       say InvalidOption ;; menu_ret []) ;;
  match results with
  | [] => menu_ret tt
  | _ :: _ => say SummaryHeader ;; print_summary results
  end.

End Menus.

(** The events of a menu and the way it ends. *)
Definition menu_events {A} (m : Menu A) : list console_event := fst m.
Definition menu_final {A} (m : Menu A) : outcome A := snd m.

(** ** The parts of the menus *)

Section MenuParts.

Variable b : Builtins.
Variable env : Env.
Variables (sig : sigint) (sched : schedule).

Local Open Scope menu_scope.

(** The host [run_port_scanner] scans for the answer [line]. *)
Definition tool_target (line : string) : string :=
  if String.eqb (strip b line) "" then "localhost" else strip b line.

(** Lines 130-132 of [port_scanner.py]: the two numbers are read and the
    range is scanned. *)
Definition custom_scan (target : string) (stdin : list string) : Menu (list PortResult) :=
  answer <- input AskStartPort stdin ;;
  start <- call_int b (fst answer) ;;
  answer <- input AskEndPort (snd answer) ;;
  end_ <- call_int b (fst answer) ;;
  call_scanner (scan_ports env sig sched target start end_ default_timeout
                  default_max_workers).

(** Lines 85-97 of [main.py]: what [run_port_scanner] does with the option
    chosen. *)
Definition tool_choice (target opcion : string) (stdin : list string) : Menu unit :=
  if String.eqb opcion "1" then
    call_scanner (quick_scan env target) ;; menu_ret tt
  else if String.eqb opcion "2" then
    call_scanner (scan_ports env sig sched target 1 1024 default_timeout
                    default_max_workers) ;;
    menu_ret tt
  else if String.eqb opcion "3" then
    menu_try
      (answer <- input AskStartPort stdin ;;
       start <- call_int b (fst answer) ;;
       answer <- input AskEndPort (snd answer) ;;
       end_ <- call_int b (fst answer) ;;
       call_scanner (scan_ports env sig sched target start end_ default_timeout
                       default_max_workers) ;;
       menu_ret tt)
      is_ValueError
      (fun _ => say InvalidNumbers)
  else
    say InvalidOption.

(** Lines 125-135 of [port_scanner.py]: the results the script gets for the
    option chosen. *)
Definition script_choice (target opcion : string) (stdin : list string)
  : Menu (list PortResult) :=
  if String.eqb opcion "1" then
    call_scanner (quick_scan env target)
  else if String.eqb opcion "2" then
    call_scanner (scan_ports env sig sched target 1 1024 default_timeout
                    default_max_workers)
  else if String.eqb opcion "3" then
    custom_scan target stdin
  else
    say InvalidOption ;; menu_ret [].

(** Lines 137-140 of [port_scanner.py]. *)
Definition script_summary (results : list PortResult) : Menu unit :=
  match results with
  | [] => menu_ret tt
  | _ :: _ => say SummaryHeader ;; print_summary results
  end.

End MenuParts.

(** ** Reading a menu's trace *)

(** The events of the scans a menu started. *)
Definition scanner_events (t : list console_event) : list event :=
  flat_map (fun ev => match ev with Scanner e => [e] | _ => [] end) t.

(** The questions a menu asked, in order. *)
Definition asked (t : list console_event) : list prompt :=
  flat_map (fun ev => match ev with Ask q => [q] | _ => [] end) t.

(** The lines a menu printed itself, in order. *)
Definition said (t : list console_event) : list console_line :=
  flat_map (fun ev => match ev with Say l => [l] | _ => [] end) t.

(** The ports and services of the summary lines among [ls]. *)
Definition summary_of (ls : list console_line) : list (Z * option string) :=
  flat_map (fun l => match l with SummaryPort p s => [(p, s)] | _ => [] end) ls.

(** The progress lines among the printed lines [ls]. *)
Definition progress_of (ls : list line) : list (Z * Z) :=
  flat_map (fun l => match l with Progress n t => [(n, t)] | _ => [] end) ls.

(** The ports and services announced as open among the printed lines [ls]. *)
Definition announced (ls : list line) : list (Z * option string) :=
  flat_map (fun l => match l with OpenPort p s => [(p, s)] | _ => [] end) ls.

(** When [host] is probed on one of the ports [ports] with the timeout
    [timeout], the socket library raises nothing but socket errors. *)
Definition only_socket_errors (env : Env) (host : string) (timeout : Q) (ports : list Z)
  : Prop :=
  forall p, In p ports ->
    (forall e, connect_ex env host p timeout = Raise e -> is_OSError e = true)
    /\ (forall e, getservbyport env p = Raise e -> is_OSError e = true).

(** Built-ins to try the menus on: [strip] drops blanks at both ends, [int]
    reads the few numerals used below. *)
Definition blank : Ascii.ascii := Ascii.ascii_of_nat 32.

Fixpoint lstrip (s : string) : string :=
  match s with
  | EmptyString => EmptyString
  | String c rest => if Ascii.eqb c blank then lstrip rest else s
  end.

Fixpoint rstrip (s : string) : string :=
  match s with
  | EmptyString => EmptyString
  | String c rest =>
      match rstrip rest with
      | EmptyString => if Ascii.eqb c blank then EmptyString else String c EmptyString
      | rest' => String c rest'
      end
  end.

Definition example_builtins : Builtins := mkBuiltins
  (fun s => rstrip (lstrip s))
  (fun s =>
     if String.eqb s "20" then Return 20
     else if String.eqb s "24" then Return 24
     else Raise (ValueError
                   (String.append "invalid literal for int() with base 10: '"
                      (String.append s "'")))).

(** [port r in common_ports] *)
Definition is_common (r : PortResult) : bool :=
  existsb (Z.eqb (port r)) common_ports.

(** On the ports [ports], a connection attempt to [host] has the same
    outcome with the timeout [t1] as with the timeout [t2]. *)
Definition timeout_free (env : Env) (host : string) (t1 t2 : Q) (ports : list Z) : Prop :=
  forall p, In p ports -> connect_ex env host p t1 = connect_ex env host p t2.

(** A resolver that rejects the host string itself, as CPython does for a
    name with an empty label such as ["a..b"]: the IDNA encoding of the name
    fails with a [UnicodeError], which is a [ValueError]. *)
Definition idna_env : Env := mkEnv
  (fun _ => Raise (ValueError "encoding with 'idna' codec failed (UnicodeError: label empty or too long)"))
  (fun _ _ _ => Return 0)
  (fun _ => Return "ssh").

(** The ports [a], [a + 1], ... ([n] of them), and the open results of
    probing a list of ports one after the other: a linear way to compute
    what a scan of a long range returns. *)
Fixpoint count_up (n : nat) (a : Z) : list Z :=
  match n with
  | O => []
  | S n' => a :: count_up n' (a + 1)
  end.

Fixpoint open_results (env : Env) (host : string) (timeout : Q) (ports : list Z)
  : option (list PortResult) :=
  match ports with
  | [] => Some []
  | p :: rest =>
      match final (scan_port env host p timeout), open_results env host timeout rest with
      | Return r, Some l => Some (if is_open r then r :: l else l)
      | _, _ => None
      end
  end.

(** The pool size the specification asks for:
    [min(concurrency_limit, total_ports)]. *)
Definition spec_pool_size (concurrency_limit total_ports : Z) : Z :=
  Z.min concurrency_limit total_ports.

(** The operator interrupts the program while a closed port's service name
    is looked up. *)
Definition interrupted_lookup_env : Env := mkEnv
  (fun _ => Return "127.0.0.1")
  (fun _ _ _ => Return ECONNREFUSED)
  (fun _ => Raise KeyboardInterrupt).

(** * Properties *)

(** ** The monad *)

Lemma bind_Return {A B} (m : M A) (k : A -> M B) a :
  final m = Return a ->
  bind m k = (events m ++ events (k a), final (k a)).
Proof.
  destruct m as [t o]; simpl; intros ->.
  unfold bind. destruct (k a); reflexivity.
Qed.

Lemma bind_Raise {A B} (m : M A) (k : A -> M B) e :
  final m = Raise e ->
  bind m k = (events m, Raise e).
Proof.
  destruct m as [t o]; simpl; intros ->. reflexivity.
Qed.

Lemma bind_Return_inv {A B} (m : M A) (k : A -> M B) b :
  final (bind m k) = Return b ->
  exists a, final m = Return a /\ final (k a) = Return b /\
            events (bind m k) = events m ++ events (k a).
Proof.
  destruct m as [t [a | e]]; simpl; [| discriminate].
  intros H. exists a. unfold bind in *. destruct (k a); simpl in *. auto.
Qed.

Lemma bind_ret {A B} (a : A) (k : A -> M B) : bind (ret a) k = k a.
Proof. unfold bind, ret. destruct (k a). reflexivity. Qed.

Lemma len_fits r :
  Z.of_nat (length r) <= sys_maxsize -> len r = ret (Z.of_nat (length r)).
Proof.
  intros H. unfold len. destruct (Z.ltb_spec sys_maxsize (Z.of_nat (length r))); [lia |].
  reflexivity.
Qed.

Lemma len_too_long r :
  sys_maxsize < Z.of_nat (length r) ->
  len r = raise (OverflowError "Python int too large to convert to C ssize_t").
Proof.
  intros H. unfold len. destruct (Z.ltb_spec sys_maxsize (Z.of_nat (length r))); [| lia].
  reflexivity.
Qed.

(** ** [scan_port], case by case *)

Section ScanPortCases.

Variable env : Env.
Variables (host : string) (p : Z) (timeout : Q).

Lemma scan_port_open s :
  connect_ex env host p timeout = Return 0 ->
  getservbyport env p = Return s ->
  scan_port env host p timeout =
    ([CallConnectEx host p timeout; CallGetservbyport p],
     Return (mkPortResult p "abierto" (Some s) None)).
Proof.
  intros Hc Hs. unfold scan_port, call_connect_ex, call_getservbyport.
  cbn. rewrite Hc. cbn. rewrite Hs. reflexivity.
Qed.

Lemma scan_port_open_unknown e :
  connect_ex env host p timeout = Return 0 ->
  getservbyport env p = Raise e ->
  is_OSError e = true ->
  scan_port env host p timeout =
    ([CallConnectEx host p timeout; CallGetservbyport p],
     Return (mkPortResult p "abierto" (Some "desconocido") None)).
Proof.
  intros Hc Hs He. unfold scan_port, call_connect_ex, call_getservbyport.
  cbn. rewrite Hc. cbn. rewrite Hs. cbn. rewrite He. reflexivity.
Qed.

Lemma scan_port_lookup_escapes e :
  connect_ex env host p timeout = Return 0 ->
  getservbyport env p = Raise e ->
  is_OSError e = false ->
  scan_port env host p timeout =
    ([CallConnectEx host p timeout; CallGetservbyport p], Raise e).
Proof.
  intros Hc Hs He. unfold scan_port, call_connect_ex, call_getservbyport.
  cbn. rewrite Hc. cbn. rewrite Hs. cbn. rewrite He. cbn. rewrite He. reflexivity.
Qed.

Lemma scan_port_closed code :
  connect_ex env host p timeout = Return code ->
  code <> 0 ->
  scan_port env host p timeout =
    ([CallConnectEx host p timeout], Return (mkPortResult p "cerrado" None None)).
Proof.
  intros Hc Hne. unfold scan_port, call_connect_ex.
  cbn. rewrite Hc. cbn.
  destruct (Z.eqb_spec code 0) as [-> | _]; [contradiction | reflexivity].
Qed.

Lemma scan_port_error e :
  connect_ex env host p timeout = Raise e ->
  is_OSError e = true ->
  scan_port env host p timeout =
    ([CallConnectEx host p timeout],
     Return (mkPortResult p "error" None (Some (str e)))).
Proof.
  intros Hc He. unfold scan_port, call_connect_ex.
  cbn. rewrite Hc. cbn. rewrite He. reflexivity.
Qed.

Lemma scan_port_escapes e :
  connect_ex env host p timeout = Raise e ->
  is_OSError e = false ->
  scan_port env host p timeout = ([CallConnectEx host p timeout], Raise e).
Proof.
  intros Hc He. unfold scan_port, call_connect_ex.
  cbn. rewrite Hc. cbn. rewrite He. reflexivity.
Qed.

(** The six cases above are all there are. *)
Lemma scan_port_cases : scan_port_case env host timeout p.
Proof.
  destruct (connect_ex env host p timeout) as [code | e] eqn:Hc.
  - destruct (Z.eq_dec code 0) as [-> | Hne].
    + destruct (getservbyport env p) as [s | e] eqn:Hs.
      * eapply case_open; eauto.
      * destruct (is_OSError e) eqn:He.
        -- eapply case_open_unknown; eauto.
        -- eapply case_lookup_escapes; eauto.
    + eapply case_closed; eauto.
  - destruct (is_OSError e) eqn:He.
    + eapply case_error; eauto.
    + eapply case_escapes; eauto.
Qed.

Lemma scan_port_port r :
  final (scan_port env host p timeout) = Return r -> port r = p.
Proof.
  destruct scan_port_cases as [s Hc Hs | e Hc Hs He | e Hc Hs He | code Hc Hne | e Hc He | e Hc He].
  - rewrite (scan_port_open s Hc Hs). cbn. intros [= <-]. reflexivity.
  - rewrite (scan_port_open_unknown e Hc Hs He). cbn. intros [= <-]. reflexivity.
  - rewrite (scan_port_lookup_escapes e Hc Hs He). discriminate.
  - rewrite (scan_port_closed code Hc Hne). cbn. intros [= <-]. reflexivity.
  - rewrite (scan_port_error e Hc He). cbn. intros [= <-]. reflexivity.
  - rewrite (scan_port_escapes e Hc He). discriminate.
Qed.

(** An exception that leaves [scan_port] is not a socket error. *)
Lemma scan_port_raises e :
  final (scan_port env host p timeout) = Raise e -> is_OSError e = false.
Proof.
  destruct scan_port_cases as [s Hc Hs | e' Hc Hs He | e' Hc Hs He | code Hc Hne | e' Hc He | e' Hc He].
  - rewrite (scan_port_open s Hc Hs). discriminate.
  - rewrite (scan_port_open_unknown e' Hc Hs He). discriminate.
  - rewrite (scan_port_lookup_escapes e' Hc Hs He). cbn. intros [= <-]. exact He.
  - rewrite (scan_port_closed code Hc Hne). discriminate.
  - rewrite (scan_port_error e' Hc He). discriminate.
  - rewrite (scan_port_escapes e' Hc He). cbn. intros [= <-]. exact He.
Qed.

End ScanPortCases.

(** ** [range] *)

Lemma range_In a b p : In p (range a b) <-> a <= p < b.
Proof.
  unfold range. rewrite in_map_iff. split.
  - intros [i [<- Hi]]. apply in_seq in Hi. lia.
  - intros H. exists (Z.to_nat (p - a)). split; [lia |].
    apply in_seq. lia.
Qed.

Lemma range_empty a b : b <= a -> range a b = [].
Proof.
  intros H. unfold range. replace (Z.to_nat (b - a)) with O by lia. reflexivity.
Qed.

Lemma range_length a b : Z.of_nat (length (range a b)) = Z.max 0 (b - a).
Proof. unfold range. rewrite length_map, length_seq. lia. Qed.

Lemma sys_maxsize_pos : 0 < sys_maxsize.
Proof. reflexivity. Qed.

(** A range of at most [sys.maxsize] ports can be measured. *)
Lemma range_fits start_port end_port :
  end_port - start_port < sys_maxsize <->
  Z.of_nat (length (range start_port (end_port + 1))) <= sys_maxsize.
Proof. rewrite range_length. pose proof sys_maxsize_pos. lia. Qed.

Lemma seq_increasing n k :
  StronglySorted (fun i j : nat => (i < j)%nat) (seq k n).
Proof.
  revert k. induction n as [| n IH]; intros k; simpl; constructor.
  - apply IH.
  - apply Forall_forall. intros j Hj. apply in_seq in Hj. lia.
Qed.

Lemma StronglySorted_map {A B} (f : A -> B) (R : A -> A -> Prop) (S : B -> B -> Prop) l :
  (forall x y, R x y -> S (f x) (f y)) ->
  StronglySorted R l -> StronglySorted S (map f l).
Proof.
  intros HRS. induction 1 as [| x l Hl IH Hx]; simpl; constructor.
  - exact IH.
  - apply Forall_map. eapply Forall_impl; [| exact Hx]. intros y. apply HRS.
Qed.

Lemma range_increasing a b : StronglySorted Z.lt (range a b).
Proof.
  unfold range.
  apply StronglySorted_map with (R := fun i j : nat => (i < j)%nat).
  - intros; lia.
  - apply seq_increasing.
Qed.

Lemma increasing_NoDup l : StronglySorted Z.lt l -> NoDup l.
Proof.
  induction 1 as [| x l Hl IH Hx]; constructor; [| exact IH].
  intros Hin. rewrite Forall_forall in Hx. specialize (Hx _ Hin). lia.
Qed.

Lemma range_NoDup a b : NoDup (range a b).
Proof. apply increasing_NoDup, range_increasing. Qed.

(** ** [sorted] *)

Lemma insert_by_port_perm r l : Permutation (insert_by_port r l) (r :: l).
Proof.
  induction l as [| x xs IH]; simpl; [reflexivity |].
  destruct (port r <=? port x); [reflexivity |].
  rewrite IH. apply perm_swap.
Qed.

Lemma sorted_perm l : Permutation (sorted l) l.
Proof.
  induction l as [| x xs IH]; simpl; [reflexivity |].
  rewrite insert_by_port_perm. apply perm_skip, IH.
Qed.

Lemma insert_by_port_sorted r l :
  StronglySorted port_le l -> StronglySorted port_le (insert_by_port r l).
Proof.
  induction 1 as [| x xs Hxs IH Hx]; simpl.
  - repeat constructor.
  - destruct (Z.leb_spec (port r) (port x)) as [Hle | Hgt].
    + constructor; [constructor; assumption |].
      constructor; [exact Hle |].
      eapply Forall_impl; [| exact Hx]. unfold port_le. intros; lia.
    + constructor; [exact IH |].
      eapply Permutation_Forall; [symmetry; apply insert_by_port_perm |].
      constructor; [unfold port_le; lia | exact Hx].
Qed.

Lemma sorted_ascending l : StronglySorted port_le (sorted l).
Proof.
  induction l as [| x xs IH]; simpl; [constructor |].
  apply insert_by_port_sorted, IH.
Qed.

(** With pairwise distinct ports, ascending is strictly ascending. *)
Lemma ascending_strict l :
  NoDup (map port l) -> StronglySorted port_le l -> StronglySorted port_lt l.
Proof.
  intros Hnd Hs. induction Hs as [| x xs Hxs IH Hx]; [constructor |].
  simpl in Hnd. apply NoDup_cons_iff in Hnd as [Hnin Hnd].
  constructor; [apply IH, Hnd |].
  rewrite Forall_forall in *. intros y Hy.
  specialize (Hx y Hy). unfold port_le, port_lt in *.
  assert (port x <> port y).
  { intros Heq. apply Hnin. rewrite Heq. apply in_map, Hy. }
  lia.
Qed.

(** A strictly ascending list is determined by its elements. *)
Lemma strictly_ascending_unique l1 l2 :
  StronglySorted port_lt l1 -> StronglySorted port_lt l2 ->
  Permutation l1 l2 -> l1 = l2.
Proof.
  intros H1. revert l2.
  induction H1 as [| x xs Hxs IH Hx]; intros l2 H2 HP.
  - apply Permutation_nil in HP. congruence.
  - destruct H2 as [| y ys Hys Hy].
    + symmetry in HP. apply Permutation_nil in HP. discriminate.
    + assert (x = y) as <-.
      { assert (Hxin : In x (y :: ys))
          by (eapply Permutation_in; [exact HP | left; reflexivity]).
        assert (Hyin : In y (x :: xs))
          by (eapply Permutation_in; [symmetry; exact HP | left; reflexivity]).
        rewrite Forall_forall in Hx, Hy.
        destruct Hxin as [-> | Hxin]; [reflexivity |].
        destruct Hyin as [-> | Hyin]; [reflexivity |].
        specialize (Hx _ Hyin). specialize (Hy _ Hxin).
        unfold port_lt in *. lia. }
      f_equal. apply IH; [exact Hys |].
      eapply Permutation_cons_inv; exact HP.
Qed.

(** ** The thread pool *)

Lemma remove_nth_middle {A} (r1 : list A) p r2 :
  remove_nth (length r1) (r1 ++ p :: r2) = r1 ++ r2.
Proof.
  unfold remove_nth. induction r1 as [| x r1 IH]; simpl; [reflexivity |].
  f_equal. exact IH.
Qed.

Lemma finish_nth i st p :
  nth_error (running st) i = Some p ->
  exists r1 r2, running st = r1 ++ p :: r2 /\
    finish i st = mkPool (queue st) (r1 ++ r2) (finished st ++ [p]).
Proof.
  intros Hn. unfold finish. rewrite Hn.
  destruct (nth_error_split _ _ Hn) as [r1 [r2 [Hr Hlen]]].
  exists r1, r2. split; [exact Hr |].
  f_equal. rewrite Hr, <- Hlen. apply remove_nth_middle.
Qed.

Lemma finish_step max_workers i st :
  (i < length (running st))%nat -> pool_step max_workers st (finish i st).
Proof.
  intros Hi.
  destruct (nth_error (running st) i) as [p |] eqn:Hn.
  - destruct (finish_nth i st p Hn) as [r1 [r2 [Hr ->]]].
    destruct st as [q r f]; simpl in *; subst r. constructor.
  - apply nth_error_None in Hn. lia.
Qed.

Lemma step_sound max_workers choice st :
  (step max_workers choice st = st /\ idle max_workers st)
  \/ pool_step max_workers st (step max_workers choice st).
Proof.
  unfold step. destruct (can_start max_workers st) eqn:Hcs.
  - right.
    destruct (choice mod S (length (running st)))%nat as [| i] eqn:Hm.
    + unfold can_start in Hcs. unfold start.
      destruct st as [[| p q] r f]; simpl in *; [discriminate |].
      constructor. lia.
    + apply finish_step.
      pose proof (Nat.mod_upper_bound choice (S (length (running st)))). lia.
  - destruct (running st) as [| x r] eqn:Hr.
    + left. unfold idle. auto.
    + right. apply finish_step. rewrite Hr.
      apply Nat.mod_upper_bound. simpl. lia.
Qed.

Lemma pool_step_inv max_workers jobs st st' :
  pool_step max_workers st st' ->
  pool_inv max_workers jobs st -> pool_inv max_workers jobs st'.
Proof.
  intros Hstep [HP Hb]. destruct Hstep as [p q r f Hlt | q r1 p r2 f]; simpl in *.
  - split; simpl.
    + rewrite <- HP. rewrite <- (app_assoc r [p] f). simpl.
      rewrite (app_assoc q r (p :: f)), (app_assoc q r f).
      symmetry. apply Permutation_middle.
    + rewrite length_app. simpl. lia.
  - split; simpl.
    + rewrite <- HP. apply Permutation_app_head.
      rewrite <- !app_assoc. apply Permutation_app_head. simpl.
      rewrite (app_assoc r2 f [p]).
      rewrite <- (Permutation_middle (r2 ++ f) [] p), app_nil_r.
      symmetry. apply Permutation_middle with (l1 := []).
    + rewrite length_app in *. simpl in *. lia.
Qed.

Lemma run_inv max_workers jobs n : forall choices st,
  pool_inv max_workers jobs st ->
  pool_inv max_workers jobs (run max_workers choices n st).
Proof.
  induction n as [| n IH]; intros choices st Hinv; simpl; [exact Hinv |].
  apply IH.
  destruct (step_sound max_workers (hd O choices) st) as [[-> _] | Hstep];
    [exact Hinv | eapply pool_step_inv; eassumption].
Qed.

Lemma submitted_inv max_workers jobs :
  0 <= max_workers -> pool_inv max_workers jobs (submitted jobs).
Proof.
  intros H. split; simpl; [rewrite app_nil_r; reflexivity | exact H].
Qed.

Lemma pool_step_work max_workers st st' :
  pool_step max_workers st st' -> work_left st = S (work_left st').
Proof.
  intros [p q r f Hlt | q r1 p r2 f]; unfold work_left; simpl;
    rewrite !length_app; simpl; lia.
Qed.

Lemma idle_work max_workers st :
  0 < max_workers -> idle max_workers st -> work_left st = O.
Proof.
  intros Hmw [Hr Hcs]. unfold work_left, can_start in *. rewrite Hr in *.
  destruct (queue st); simpl in *; [reflexivity |].
  apply Z.ltb_ge in Hcs. lia.
Qed.

Lemma run_work max_workers n : forall choices st,
  0 < max_workers ->
  work_left (run max_workers choices n st) = (work_left st - n)%nat.
Proof.
  induction n as [| n IH]; intros choices st Hmw; simpl; [lia |].
  rewrite IH by exact Hmw.
  destruct (step_sound max_workers (hd O choices) st) as [[-> Hidle] | Hstep].
  - rewrite (idle_work _ _ Hmw Hidle). reflexivity.
  - rewrite (pool_step_work _ _ _ Hstep). lia.
Qed.

(** With a positive bound every submitted job is finished at the end:
    [as_completed] yields each future exactly once. *)
Lemma execute_perm max_workers choices jobs :
  0 < max_workers ->
  Permutation (finished (execute max_workers choices jobs)) jobs.
Proof.
  intros Hmw. unfold execute.
  pose proof (run_work max_workers (2 * length jobs) choices (submitted jobs) Hmw) as Hw.
  pose proof (run_inv max_workers jobs (2 * length jobs) choices (submitted jobs)
                (submitted_inv max_workers jobs ltac:(lia))) as [HP _].
  set (st := run max_workers choices (2 * length jobs) (submitted jobs)) in *.
  unfold work_left in Hw. simpl in Hw.
  assert (Hq : queue st = []) by (destruct (queue st); simpl in *; [reflexivity | lia]).
  assert (Hr : running st = []) by (destruct (running st); simpl in *; [reflexivity | lia]).
  rewrite Hq, Hr in HP. exact HP.
Qed.

Lemma shuffle_n_perm n : forall choices l,
  length l = n -> Permutation (shuffle_n n choices l) l.
Proof.
  induction n as [| n IH]; intros choices l Hlen.
  - destruct l; [reflexivity | discriminate].
  - simpl.
    assert (Hi : (hd O choices mod length l < length l)%nat)
      by (apply Nat.mod_upper_bound; lia).
    destruct (nth_error l (hd O choices mod length l)) as [x |] eqn:Hn.
    + destruct (nth_error_split _ _ Hn) as [l1 [l2 [Hl Hl1]]].
      assert (Hrem : remove_nth (hd O choices mod length l) l = l1 ++ l2)
        by (rewrite <- Hl1, Hl; apply remove_nth_middle).
      rewrite Hrem, Hl.
      rewrite <- Permutation_middle. apply perm_skip, IH.
      rewrite Hl, length_app in Hlen. simpl in Hlen. rewrite length_app. lia.
    + apply nth_error_None in Hn. lia.
Qed.

Lemma shuffle_perm choices l : Permutation (shuffle choices l) l.
Proof. apply shuffle_n_perm. reflexivity. Qed.

(** With a positive bound every submitted job is finished at the end:
    [as_completed] yields each future exactly once. *)
Lemma as_completed_perm max_workers sched jobs :
  0 < max_workers ->
  Permutation (as_completed max_workers sched jobs) jobs.
Proof.
  intros Hmw. unfold as_completed.
  rewrite shuffle_perm, firstn_skipn. apply execute_perm, Hmw.
Qed.

Lemma as_completed_nil max_workers sched :
  as_completed max_workers sched [] = [].
Proof.
  unfold as_completed. simpl. rewrite firstn_nil, skipn_nil. reflexivity.
Qed.

(** ** The two loops of [scan_ports] *)

Lemma option_eq_dec_O (intr : option nat) : {intr = Some O} + {intr <> Some O}.
Proof. destruct intr as [[| k] |]; [left; reflexivity | right; discriminate | right; discriminate]. Qed.

Lemma quiet_pred intr n : quiet intr (S n) -> quiet (option_map Nat.pred intr) n.
Proof. destruct intr as [[| k] |]; simpl; lia. Qed.

Lemma quiet_not_now intr n : quiet intr (S n) -> intr <> Some O.
Proof. destruct intr as [[| k] |]; simpl; intros; [lia | discriminate | discriminate]. Qed.

Lemma dispatch_quiet host timeout ports : forall intr,
  quiet intr (length ports) ->
  dispatch host timeout intr ports =
    (map (fun p => Submit host p timeout) ports, Return ports).
Proof.
  induction ports as [| p rest IH]; intros intr Hq; [reflexivity |].
  simpl in Hq. pose proof (quiet_pred _ _ Hq) as Hq'.
  pose proof (quiet_not_now _ _ Hq) as Hnow.
  specialize (IH _ Hq').
  destruct intr as [[| k] |]; [congruence | |]; cbn in *; rewrite IH; cbn;
    rewrite app_nil_r; reflexivity.
Qed.

Lemma dispatch_interrupted host timeout ports : forall k,
  (k < length ports)%nat ->
  dispatch host timeout (Some k) ports =
    (map (fun p => Submit host p timeout) (firstn k ports), Raise KeyboardInterrupt).
Proof.
  induction ports as [| p rest IH]; intros k Hk; simpl in Hk; [lia |].
  destruct k as [| k]; [reflexivity |].
  cbn. rewrite IH by lia. reflexivity.
Qed.

Section CollectLoop.

Variable env : Env.
Variables (host : string) (timeout : Q) (total_ports : Z).

Lemma collect_round intr p rest scanned acc r :
  probed env host timeout p r -> intr <> Some O ->
  collect env host timeout total_ports intr (p :: rest) scanned acc =
    (round_events total_ports scanned r
       ++ events (collect env host timeout total_ports (option_map Nat.pred intr) rest
                    (scanned + 1) (if is_open r then acc ++ [r] else acc)),
     final (collect env host timeout total_ports (option_map Nat.pred intr) rest
              (scanned + 1) (if is_open r then acc ++ [r] else acc))).
Proof.
  intros Hp Hnow. unfold probed in Hp.
  assert (Hbody :
    (let scanned' := scanned + 1 in
     result <- future_result (scan_port env host p timeout) ;;
     open_ports <-
       (if String.eqb (status result) "abierto" then
          print (OpenPort (port result) (service result)) ;;
          ret (acc ++ [result])
        else ret acc) ;;
     (if scanned' mod 100 =? 0 then print (Progress scanned' total_ports)
      else ret tt) ;;
     collect env host timeout total_ports (option_map Nat.pred intr) rest
       scanned' open_ports) =
    (round_events total_ports scanned r
       ++ events (collect env host timeout total_ports (option_map Nat.pred intr) rest
                    (scanned + 1) (if is_open r then acc ++ [r] else acc)),
     final (collect env host timeout total_ports (option_map Nat.pred intr) rest
              (scanned + 1) (if is_open r then acc ++ [r] else acc)))).
  { unfold future_result, round_events, is_open. rewrite Hp.
    cbn -[Z.add Z.modulo Z.eqb String.eqb].
    destruct (String.eqb (status r) "abierto");
      cbn -[Z.add Z.modulo Z.eqb String.eqb];
      destruct ((scanned + 1) mod 100 =? 0);
      cbn -[Z.add Z.modulo Z.eqb String.eqb];
      destruct (collect env host timeout total_ports (option_map Nat.pred intr) rest
                  (scanned + 1) _) as [t o];
      reflexivity. }
  destruct intr as [[| k] |]; [congruence | exact Hbody | exact Hbody].
Qed.

Lemma collect_probe_raises intr p rest scanned acc e :
  final (scan_port env host p timeout) = Raise e -> intr <> Some O ->
  collect env host timeout total_ports intr (p :: rest) scanned acc = ([], Raise e).
Proof.
  intros Hp Hnow.
  destruct intr as [[| k] |]; [congruence | |];
    simpl; unfold future_result; rewrite Hp; reflexivity.
Qed.

Lemma collect_sigint p rest scanned acc :
  collect env host timeout total_ports (Some O) (p :: rest) scanned acc =
    ([], Raise KeyboardInterrupt).
Proof. reflexivity. Qed.

(** If every probe returns and no interrupt arrives, the loop returns the
    open results in completion order. *)
Lemma collect_run completed rs :
  Forall2 (probed env host timeout) completed rs ->
  forall intr scanned acc,
  quiet intr (length completed) ->
  collect env host timeout total_ports intr completed scanned acc =
    (loop_events total_ports scanned rs, Return (acc ++ filter is_open rs)).
Proof.
  induction 1 as [| p r completed rs Hp Hrest IH]; intros intr scanned acc Hq.
  - simpl. rewrite app_nil_r. reflexivity.
  - simpl in Hq.
    rewrite (collect_round intr p completed scanned acc r Hp (quiet_not_now _ _ Hq)).
    rewrite IH by (apply quiet_pred, Hq). simpl.
    destruct (is_open r); [rewrite <- (app_assoc acc [r]) |]; reflexivity.
Qed.

(** Conversely, a loop that returns has taken a result from every future. *)
Lemma collect_returned completed :
  forall intr scanned acc l,
  final (collect env host timeout total_ports intr completed scanned acc) = Return l ->
  exists rs, Forall2 (probed env host timeout) completed rs /\ quiet intr (length completed).
Proof.
  induction completed as [| p rest IH]; intros intr scanned acc l Hret.
  - exists []. split; [constructor |]. destruct intr; simpl; [lia | exact I].
  - destruct intr as [[| k] |] eqn:Hintr.
    + rewrite collect_sigint in Hret. discriminate.
    + destruct (final (scan_port env host p timeout)) as [r | e] eqn:Hp.
      * rewrite (collect_round (Some (S k)) p rest scanned acc r Hp) in Hret by discriminate.
        simpl in Hret. apply IH in Hret as [rs [Hrs Hq]].
        exists (r :: rs). split; [constructor; assumption |]. simpl in *. lia.
      * rewrite (collect_probe_raises (Some (S k)) p rest scanned acc e Hp) in Hret
          by discriminate.
        discriminate.
    + destruct (final (scan_port env host p timeout)) as [r | e] eqn:Hp.
      * rewrite (collect_round None p rest scanned acc r Hp) in Hret by discriminate.
        simpl in Hret. apply IH in Hret as [rs [Hrs Hq]].
        exists (r :: rs). split; [constructor; assumption | exact I].
      * rewrite (collect_probe_raises None p rest scanned acc e Hp) in Hret
          by discriminate.
        discriminate.
Qed.

(** A loop interrupted before its last round ends in an exception. *)
Lemma collect_interrupted completed :
  forall k scanned acc,
  (k < length completed)%nat ->
  exists e, final (collect env host timeout total_ports (Some k) completed scanned acc)
            = Raise e.
Proof.
  intros k scanned acc Hk.
  destruct (final (collect env host timeout total_ports (Some k) completed scanned acc))
    as [l | e] eqn:Hret; [| eauto].
  apply collect_returned in Hret as [rs [_ Hq]]. simpl in Hq. lia.
Qed.

Lemma collected_loop_events scanned rs :
  collected (loop_events total_ports scanned rs) = rs.
Proof.
  revert scanned. induction rs as [| r rest IH]; intros scanned; [reflexivity |].
  simpl. unfold collected in *. rewrite flat_map_app, IH.
  destruct (is_open r); destruct ((scanned + 1) mod 100 =? 0); reflexivity.
Qed.

Lemma submissions_loop_events scanned rs :
  submissions (loop_events total_ports scanned rs) = [].
Proof.
  revert scanned. induction rs as [| r rest IH]; intros scanned; [reflexivity |].
  simpl. unfold submissions in *. rewrite flat_map_app, IH.
  destruct (is_open r); destruct ((scanned + 1) mod 100 =? 0); reflexivity.
Qed.

Lemma probed_port p r : probed env host timeout p r -> port r = p.
Proof. apply scan_port_port. Qed.

Lemma probed_ports ps rs : Forall2 (probed env host timeout) ps rs -> map port rs = ps.
Proof.
  induction 1 as [| p r ps rs Hp _ IH]; simpl; [reflexivity |].
  rewrite IH, (probed_port _ _ Hp). reflexivity.
Qed.

(** Results for a rearrangement of the ports are the same results, rearranged. *)
Lemma probed_perm ps ps' rs :
  Permutation ps ps' -> Forall2 (probed env host timeout) ps rs ->
  exists rs', Forall2 (probed env host timeout) ps' rs' /\ Permutation rs rs'.
Proof.
  intros HP. revert rs.
  induction HP as [| x l l' HP IH | x y l | l l' l'' HP1 IH1 HP2 IH2]; intros rs H.
  - inversion H. exists []. split; constructor.
  - inversion H as [| ? r ? rs0 Hx Hrest]; subst.
    destruct (IH _ Hrest) as [rs' [H' Hperm]].
    exists (r :: rs'). split; [constructor; assumption | apply perm_skip, Hperm].
  - inversion H as [| ? r1 ? rs0 Hy Hrest]; subst.
    inversion Hrest as [| ? r2 ? rs1 Hx Hrest']; subst.
    exists (r2 :: r1 :: rs1). split; [repeat constructor; assumption | apply perm_swap].
  - destruct (IH1 _ H) as [rs1 [H1 P1]].
    destruct (IH2 _ H1) as [rs2 [H2 P2]].
    exists rs2. split; [exact H2 | etransitivity; eassumption].
Qed.

End CollectLoop.

(** ** [scan_ports], path by path *)

Section ScanPortsPaths.

Variable env : Env.
Variables (sig : sigint) (sched : schedule).
Variables (host : string) (start_port end_port : Z) (timeout : Q) (max_workers : Z).

Let ports_to_scan := range start_port (end_port + 1).
Let total_ports := Z.of_nat (length ports_to_scan).
Let completed := as_completed max_workers sched ports_to_scan.

(** The two parts of a scan whose host has resolved. *)
Let body := scan_body env sig sched host start_port end_port timeout max_workers.
Let collecting := scan_collect env sig sched host start_port end_port timeout max_workers.

Lemma scan_ports_unresolved e :
  gethostbyname env host = Raise e -> is_gaierror e = true ->
  scan_ports env sig sched host start_port end_port timeout max_workers =
    (scan_prologue host start_port end_port (ResolveFailed host), Return []).
Proof.
  intros Hg He. unfold scan_ports, call_gethostbyname.
  cbn. rewrite Hg. cbn. rewrite He. reflexivity.
Qed.

Lemma scan_ports_resolution_escapes e :
  gethostbyname env host = Raise e -> is_gaierror e = false ->
  scan_ports env sig sched host start_port end_port timeout max_workers =
    ([Stdout (ScanHeader host start_port end_port); CallGethostbyname host], Raise e).
Proof.
  intros Hg He. unfold scan_ports, call_gethostbyname.
  cbn. rewrite Hg. cbn. rewrite He. reflexivity.
Qed.

Lemma resolved_then target_ip (k : M (list PortResult)) :
  gethostbyname env host = Return target_ip ->
  (print (ScanHeader host start_port end_port) ;;
   resolved <-
     try_except
       (target_ip <- call_gethostbyname env host ;;
        print (ResolvedIP target_ip) ;;
        ret (Some target_ip))
       is_gaierror
       (fun _ => print (ResolveFailed host) ;; ret None) ;;
   match resolved with
   | None => ret []
   | Some _ => k
   end) = (scan_prologue host start_port end_port (ResolvedIP target_ip) ++ events k, final k).
Proof.
  intros Hg. unfold call_gethostbyname. cbn. rewrite Hg. cbn.
  destruct k as [t o]. reflexivity.
Qed.

(** The range is measured before the executor is built. *)
Lemma scan_ports_measured target_ip :
  gethostbyname env host = Return target_ip ->
  scan_ports env sig sched host start_port end_port timeout max_workers =
    (scan_prologue host start_port end_port (ResolvedIP target_ip)
       ++ events (_ <- len ports_to_scan ;; body),
     final (_ <- len ports_to_scan ;; body)).
Proof.
  intros Hg.
  assert (Hlen : forall k : Z -> M (list PortResult),
             (forall n, n = total_ports -> k n = body) ->
             (n <- len ports_to_scan ;; k n) = (_ <- len ports_to_scan ;; body)).
  { intros k Hk. unfold len. fold total_ports.
    destruct (sys_maxsize <? total_ports); [reflexivity |].
    rewrite !bind_ret. apply Hk. reflexivity. }
  rewrite <- (Hlen (fun n =>
    executor <- ThreadPoolExecutor max_workers ;;
    futures <- dispatch host timeout (during_dispatch sig) ports_to_scan ;;
    open_ports <-
      collect env host timeout n (during_collect sig)
        (as_completed executor sched futures) 0 [] ;;
    print (ScanFooter (length open_ports)) ;;
    ret (sorted open_ports))) by (intros n ->; reflexivity).
  exact (resolved_then target_ip _ Hg).
Qed.

Lemma scan_ports_too_long target_ip :
  gethostbyname env host = Return target_ip ->
  sys_maxsize < total_ports ->
  scan_ports env sig sched host start_port end_port timeout max_workers =
    (scan_prologue host start_port end_port (ResolvedIP target_ip),
     Raise (OverflowError "Python int too large to convert to C ssize_t")).
Proof.
  intros Hg Hsize. rewrite (scan_ports_measured target_ip Hg).
  rewrite (len_too_long ports_to_scan Hsize). reflexivity.
Qed.

Lemma scan_ports_resolved target_ip :
  gethostbyname env host = Return target_ip ->
  total_ports <= sys_maxsize ->
  scan_ports env sig sched host start_port end_port timeout max_workers =
    (scan_prologue host start_port end_port (ResolvedIP target_ip) ++ events body, final body).
Proof.
  intros Hg Hsize. rewrite (scan_ports_measured target_ip Hg).
  rewrite (len_fits ports_to_scan Hsize), bind_ret. reflexivity.
Qed.

Lemma scan_body_bad_pool :
  max_workers <= 0 ->
  body = ([CallThreadPoolExecutor max_workers],
          Raise (ValueError "max_workers must be greater than 0")).
Proof.
  intros H. unfold body, scan_body, ThreadPoolExecutor.
  fold ports_to_scan; fold total_ports.
  destruct (Z.leb_spec max_workers 0); [reflexivity | lia].
Qed.

(** With a positive bound the executor is built, and what follows it is
    the dispatch. *)
Lemma scan_body_pool :
  0 < max_workers ->
  body =
    (CallThreadPoolExecutor max_workers
       :: events (futures <- dispatch host timeout (during_dispatch sig) ports_to_scan ;;
                  open_ports <-
                    collect env host timeout total_ports (during_collect sig)
                      (as_completed max_workers sched futures) 0 [] ;;
                  print (ScanFooter (length open_ports)) ;;
                  ret (sorted open_ports)),
     final (futures <- dispatch host timeout (during_dispatch sig) ports_to_scan ;;
            open_ports <-
              collect env host timeout total_ports (during_collect sig)
                (as_completed max_workers sched futures) 0 [] ;;
            print (ScanFooter (length open_ports)) ;;
            ret (sorted open_ports))).
Proof.
  intros Hmw. unfold body, scan_body, ThreadPoolExecutor.
  fold ports_to_scan; fold total_ports.
  destruct (Z.leb_spec max_workers 0); [lia |].
  match goal with |- bind _ ?k = _ => destruct (k max_workers) as [t o] eqn:Hk end.
  unfold bind at 1. rewrite Hk. reflexivity.
Qed.

Lemma scan_body_dispatch_interrupted k :
  0 < max_workers ->
  sig = SigintDispatch k -> (k < length ports_to_scan)%nat ->
  body =
    (CallThreadPoolExecutor max_workers
       :: map (fun p => Submit host p timeout) (firstn k ports_to_scan),
     Raise KeyboardInterrupt).
Proof.
  intros Hmw Hsig Hk. rewrite (scan_body_pool Hmw).
  rewrite Hsig. simpl during_dispatch.
  rewrite (dispatch_interrupted host timeout _ k Hk).
  reflexivity.
Qed.

(** After a dispatch that was not interrupted. *)
Lemma scan_body_dispatched :
  0 < max_workers ->
  quiet (during_dispatch sig) (length ports_to_scan) ->
  body =
    (CallThreadPoolExecutor max_workers
       :: map (fun p => Submit host p timeout) ports_to_scan ++ events collecting,
     final collecting).
Proof.
  intros Hmw Hq. rewrite (scan_body_pool Hmw).
  rewrite (dispatch_quiet host timeout _ _ Hq).
  change (dispatch_result <- (map (fun p => Submit host p timeout) ports_to_scan,
                              Return ports_to_scan) ;;
          open_ports <-
            collect env host timeout total_ports (during_collect sig)
              (as_completed max_workers sched dispatch_result) 0 [] ;;
          print (ScanFooter (length open_ports)) ;;
          ret (sorted open_ports))
    with (bind (map (fun p => Submit host p timeout) ports_to_scan, Return ports_to_scan)
               (fun _ : list Z => collecting)).
  destruct collecting as [t o]. reflexivity.
Qed.

Lemma scan_collect_run rs :
  0 < max_workers ->
  quiet (during_collect sig) (length ports_to_scan) ->
  Forall2 (probed env host timeout) completed rs ->
  collecting =
    (loop_events total_ports 0 rs ++ [Stdout (ScanFooter (length (filter is_open rs)))],
     Return (sorted (filter is_open rs))).
Proof.
  intros Hmw Hc Hrs.
  assert (Hlen : length completed = length ports_to_scan)
    by (apply Permutation_length, as_completed_perm, Hmw).
  unfold collecting, scan_collect. fold ports_to_scan; fold total_ports; fold completed.
  rewrite (collect_run env host timeout total_ports completed rs Hrs)
    by (rewrite Hlen; exact Hc).
  reflexivity.
Qed.

Lemma scan_body_run rs :
  0 < max_workers ->
  quiet (during_dispatch sig) (length ports_to_scan) ->
  quiet (during_collect sig) (length ports_to_scan) ->
  Forall2 (probed env host timeout) completed rs ->
  body =
    (CallThreadPoolExecutor max_workers
       :: map (fun p => Submit host p timeout) ports_to_scan
       ++ loop_events total_ports 0 rs
       ++ [Stdout (ScanFooter (length (filter is_open rs)))],
     Return (sorted (filter is_open rs))).
Proof.
  intros Hmw Hd Hc Hrs.
  rewrite (scan_body_dispatched Hmw Hd), (scan_collect_run rs Hmw Hc Hrs).
  reflexivity.
Qed.

(** An interrupt during collection: the scan ends in an exception. *)
Lemma scan_body_collect_interrupted k :
  0 < max_workers ->
  sig = SigintCollect k -> (k < length ports_to_scan)%nat ->
  exists t e,
    body = (CallThreadPoolExecutor max_workers
              :: map (fun p => Submit host p timeout) ports_to_scan ++ t, Raise e).
Proof.
  intros Hmw Hsig Hk.
  assert (Hlen : length completed = length ports_to_scan)
    by (apply Permutation_length, as_completed_perm, Hmw).
  rewrite scan_body_dispatched by (rewrite ?Hsig; simpl; auto).
  unfold collecting, scan_collect. fold ports_to_scan; fold total_ports; fold completed.
  rewrite Hsig. simpl during_collect.
  destruct (collect_interrupted env host timeout total_ports completed k 0 [])
    as [e He]; [lia |].
  rewrite (bind_Raise _ _ e He). simpl. eauto.
Qed.

End ScanPortsPaths.

(** ** Every run of [scan_ports] *)

Section ScanPortsRuns.

Variable env : Env.
Variables (host : string) (timeout : Q).

(** A loop that does not return has taken the results of some first futures
    and then met an exception. *)
Lemma collect_shape total_ports completed :
  forall intr scanned acc,
  (exists rs, Forall2 (probed env host timeout) completed rs
              /\ quiet intr (length completed))
  \/ (exists rs e,
        (length rs < length completed)%nat
        /\ Forall2 (probed env host timeout) (firstn (length rs) completed) rs
        /\ is_OSError e = false
        /\ collect env host timeout total_ports intr completed scanned acc
           = (loop_events total_ports scanned rs, Raise e)).
Proof.
  induction completed as [| p rest IH]; intros intr scanned acc.
  - left. exists []. split; [constructor |]. destruct intr; simpl; [lia | exact I].
  - destruct (option_eq_dec_O intr) as [-> | Hnow].
    { right. exists [], KeyboardInterrupt.
      split; [simpl; lia |]. split; [constructor |]. split; reflexivity. }
    destruct (final (scan_port env host p timeout)) as [r | e] eqn:Hp.
    + destruct (IH (option_map Nat.pred intr) (scanned + 1)
                  (if is_open r then acc ++ [r] else acc))
        as [[rs [Hrs Hq]] | [rs [e [Hlen [Hrs [He Hrun]]]]]].
      * left. exists (r :: rs). split; [constructor; assumption |].
        destruct intr as [[| k] |]; simpl in *; [congruence | lia | exact I].
      * right. exists (r :: rs), e. split; [simpl; lia |]. split; [| split].
        -- simpl. constructor; assumption.
        -- exact He.
        -- rewrite (collect_round env host timeout total_ports intr p rest scanned acc r Hp Hnow).
           rewrite Hrun. reflexivity.
    + right. exists [], e. split; [simpl; lia |]. split; [constructor |].
      split; [eapply scan_port_raises; exact Hp |].
      apply collect_probe_raises; assumption.
Qed.

Variables (sig : sigint) (sched : schedule).
Variables (start_port end_port : Z) (max_workers : Z).

Let ports_to_scan := range start_port (end_port + 1).
Let total_ports := Z.of_nat (length ports_to_scan).
Let completed := as_completed max_workers sched ports_to_scan.

Lemma scan_ports_paths :
  scan_path env sig sched host start_port end_port timeout max_workers.
Proof.
  destruct (gethostbyname env host) as [target_ip | e] eqn:Hg.
  2: { destruct (is_gaierror e) eqn:He.
       - eapply path_unresolved; eauto. eapply scan_ports_unresolved; eassumption.
       - eapply path_resolution_escapes; eauto.
         eapply scan_ports_resolution_escapes; eassumption. }
  destruct (Z.le_gt_cases total_ports sys_maxsize) as [Hsize | Hsize].
  2: { eapply path_too_long; eauto.
       apply (scan_ports_too_long env sig sched host start_port end_port timeout
                max_workers target_ip Hg Hsize). }
  pose proof (scan_ports_resolved env sig sched host start_port end_port timeout
                max_workers target_ip Hg Hsize) as Hres.
  destruct (Z.leb_spec max_workers 0) as [Hbad | Hmw].
  { eapply path_bad_pool; eauto.
    rewrite Hres, scan_body_bad_pool by exact Hbad. reflexivity. }
  assert (Hlen : length completed = length ports_to_scan)
    by (apply Permutation_length, as_completed_perm, Hmw).
  assert (Hdisp : quiet (during_dispatch sig) (length ports_to_scan)
                  \/ exists k, sig = SigintDispatch k /\ (k < length ports_to_scan)%nat).
  { destruct sig as [| k | k]; simpl; auto.
    destruct (Nat.le_gt_cases (length ports_to_scan) k); eauto. }
  destruct Hdisp as [Hd | [k [Hsig Hk]]].
  2: { eapply path_dispatch_interrupted; eauto.
       rewrite Hres, (scan_body_dispatch_interrupted env sig sched host start_port
                        end_port timeout max_workers k Hmw Hsig Hk).
       reflexivity. }
  rewrite (scan_body_dispatched env sig sched host start_port end_port timeout
             max_workers Hmw Hd) in Hres.
  destruct (collect_shape total_ports completed (during_collect sig) 0 [])
    as [[rs [Hrs Hq]] | [rs [e [Hl [Hrs [He Hcol]]]]]].
  - rewrite Hlen in Hq. eapply path_completed; eauto.
    rewrite Hres, (scan_collect_run env sig sched host start_port end_port timeout
                     max_workers rs Hmw Hq Hrs).
    reflexivity.
  - eapply path_collect_raised; eauto.
    rewrite Hres. unfold scan_collect.
    fold ports_to_scan; fold total_ports; fold completed.
    rewrite Hcol. reflexivity.
Qed.

End ScanPortsRuns.

(** ** Every run of [quick_scan] *)

Section QuickScanRuns.

Variable env : Env.
Variable host : string.

Lemma scan_port_events p timeout :
  events (scan_port env host p timeout) = [CallConnectEx host p timeout]
  \/ (connect_ex env host p timeout = Return 0
      /\ events (scan_port env host p timeout)
         = [CallConnectEx host p timeout; CallGetservbyport p]).
Proof.
  destruct (scan_port_cases env host p timeout)
    as [s Hc Hs | e Hc Hs He | e Hc Hs He | code Hc Hne | e Hc He | e Hc He].
  - right. rewrite (scan_port_open env host p timeout s Hc Hs). auto.
  - right. rewrite (scan_port_open_unknown env host p timeout e Hc Hs He). auto.
  - right. rewrite (scan_port_lookup_escapes env host p timeout e Hc Hs He). auto.
  - left. rewrite (scan_port_closed env host p timeout code Hc Hne). reflexivity.
  - left. rewrite (scan_port_error env host p timeout e Hc He). reflexivity.
  - left. rewrite (scan_port_escapes env host p timeout e Hc He). reflexivity.
Qed.

Lemma quick_loop_round p rest acc r :
  probed env host (1 # 2) p r ->
  quick_loop env host (p :: rest) acc =
    (events (scan_port env host p (1 # 2))
       ++ (if is_open r then [Stdout (OpenPort (port r) (service r))] else [])
       ++ events (quick_loop env host rest (if is_open r then acc ++ [r] else acc)),
     final (quick_loop env host rest (if is_open r then acc ++ [r] else acc))).
Proof.
  unfold probed. intros Hp. simpl.
  rewrite (bind_Return _ _ r Hp). unfold is_open.
  destruct (String.eqb (status r) "abierto"); cbn;
    destruct (quick_loop env host rest _) as [t o]; reflexivity.
Qed.

Lemma quick_loop_raises p rest acc e :
  final (scan_port env host p (1 # 2)) = Raise e ->
  quick_loop env host (p :: rest) acc = (events (scan_port env host p (1 # 2)), Raise e).
Proof.
  intros Hp. simpl. apply bind_Raise, Hp.
Qed.

Lemma quick_loop_returned ports :
  forall acc l,
  final (quick_loop env host ports acc) = Return l ->
  exists rs, Forall2 (probed env host (1 # 2)) ports rs /\ l = acc ++ filter is_open rs.
Proof.
  induction ports as [| p rest IH]; intros acc l Hret.
  - exists []. split; [constructor |]. simpl in *. rewrite app_nil_r. congruence.
  - destruct (final (scan_port env host p (1 # 2))) as [r | e] eqn:Hp.
    + rewrite (quick_loop_round p rest acc r Hp) in Hret. simpl in Hret.
      apply IH in Hret as [rs [Hrs ->]].
      exists (r :: rs). split; [constructor; assumption |].
      simpl. destruct (is_open r); [rewrite <- (app_assoc acc [r]) |]; reflexivity.
    + rewrite (quick_loop_raises p rest acc e Hp) in Hret. discriminate.
Qed.

(** The loop connects to the ports one after the other, in list order, and
    stops at the first probe that raises. *)
Lemma quick_loop_connections ports :
  forall acc,
  exists k,
    connections (events (quick_loop env host ports acc))
      = map (fun p => (host, p, 1 # 2)) (firstn k ports)
    /\ (forall l, final (quick_loop env host ports acc) = Return l -> firstn k ports = ports).
Proof.
  induction ports as [| p rest IH]; intros acc.
  - exists O. split; reflexivity.
  - assert (Hconn : connections (events (scan_port env host p (1 # 2))) = [(host, p, 1 # 2)]).
    { destruct (scan_port_events p (1 # 2)) as [-> | [_ ->]]; reflexivity. }
    destruct (final (scan_port env host p (1 # 2))) as [r | e] eqn:Hp.
    + rewrite (quick_loop_round p rest acc r Hp).
      destruct (IH (if is_open r then acc ++ [r] else acc)) as [k [Hk Hall]].
      exists (S k). split.
      * simpl events. unfold connections in *. rewrite !flat_map_app, Hconn, Hk.
        destruct (is_open r); reflexivity.
      * intros l Hl. simpl in *. f_equal. eapply Hall, Hl.
    + rewrite (quick_loop_raises p rest acc e Hp).
      exists 1%nat. split; [exact Hconn | discriminate].
Qed.

Lemma quick_loop_no_pool ports :
  forall acc,
  submissions (events (quick_loop env host ports acc)) = []
  /\ lookups (events (quick_loop env host ports acc)) = [].
Proof.
  induction ports as [| p rest IH]; intros acc; [split; reflexivity |].
  assert (Hsp : submissions (events (scan_port env host p (1 # 2))) = []
                /\ lookups (events (scan_port env host p (1 # 2))) = []).
  { destruct (scan_port_events p (1 # 2)) as [-> | [_ ->]]; split; reflexivity. }
  destruct Hsp as [Hs Hl].
  destruct (final (scan_port env host p (1 # 2))) as [r | e] eqn:Hp.
  - rewrite (quick_loop_round p rest acc r Hp).
    destruct (IH (if is_open r then acc ++ [r] else acc)) as [IHs IHl].
    simpl events. unfold submissions, lookups in *.
    rewrite !flat_map_app, Hs, Hl, IHs, IHl.
    destruct (is_open r); split; reflexivity.
  - rewrite (quick_loop_raises p rest acc e Hp). simpl events. auto.
Qed.

Lemma quick_scan_unfold :
  quick_scan env host =
    (Stdout (QuickHeader host (length common_ports))
       :: events (open_ports <- quick_loop env host common_ports [] ;;
                  print (QuickTotal (length open_ports)) ;; ret open_ports),
     final (open_ports <- quick_loop env host common_ports [] ;;
            print (QuickTotal (length open_ports)) ;; ret open_ports)).
Proof.
  unfold quick_scan.
  set (k := open_ports <- quick_loop env host common_ports [] ;;
            print (QuickTotal (length open_ports)) ;; ret open_ports).
  destruct k as [t o]. reflexivity.
Qed.

Lemma quick_scan_events :
  exists tail,
    events (quick_scan env host) =
      Stdout (QuickHeader host (length common_ports))
      :: events (quick_loop env host common_ports []) ++ tail
    /\ (tail = [] \/ exists n, tail = [Stdout (QuickTotal n)]).
Proof.
  rewrite quick_scan_unfold. simpl events.
  destruct (final (quick_loop env host common_ports [])) as [l | e] eqn:Hq.
  - rewrite (bind_Return _ _ l Hq). simpl. eauto.
  - rewrite (bind_Raise _ _ e Hq). simpl. exists []. rewrite app_nil_r. auto.
Qed.

Lemma quick_scan_returned l :
  final (quick_scan env host) = Return l ->
  final (quick_loop env host common_ports []) = Return l.
Proof.
  rewrite quick_scan_unfold. simpl final. intros Hret.
  apply bind_Return_inv in Hret as [l' [Hq [Hret _]]].
  cbn in Hret. congruence.
Qed.

End QuickScanRuns.

(** * The statements of the specification *)

(** ** C1 *)

(** C1, as stated, fails: when the name does not resolve, no exception
    reaches the caller; [scan_ports] returns normally. *)
Lemma C1_counterexample :
  ~ (forall env sig sched host start_port end_port timeout max_workers msg,
       gethostbyname env host = Raise (gaierror msg) ->
       exists e,
         final (scan_ports env sig sched host start_port end_port timeout max_workers)
         = Raise e).
Proof.
  intros H.
  destruct (H example_env NoSigint first_come "does-not-exist.invalid" 1 1024 1%Q 100
              "[Errno -2] Name or service not known" eq_refl) as [e He].
  vm_compute in He. discriminate.
Qed.

(** C1, amended: if the host name does not resolve ([socket.gaierror]),
    [scan_ports] prints its header and the line naming the host, submits no
    probe, takes no result, and returns the empty list to its caller; no
    exception is raised. *)
Theorem C1_unresolved_host_returns_empty :
  forall env sig sched host start_port end_port timeout max_workers msg,
    gethostbyname env host = Raise (gaierror msg) ->
    let run := scan_ports env sig sched host start_port end_port timeout max_workers in
    run = ([Stdout (ScanHeader host start_port end_port);
            CallGethostbyname host;
            Stdout (ResolveFailed host)],
           Return [])
    /\ submissions (events run) = []
    /\ collected (events run) = [].
Proof.
  intros env sig sched host start_port end_port timeout max_workers msg Hg run.
  assert (Hrun : run = ([Stdout (ScanHeader host start_port end_port);
                         CallGethostbyname host;
                         Stdout (ResolveFailed host)], Return [])).
  { subst run. eapply scan_ports_unresolved; [exact Hg | reflexivity]. }
  rewrite Hrun. repeat split; reflexivity.
Qed.

Lemma C1_unresolved_host_returns_empty_witness :
  gethostbyname example_env "does-not-exist.invalid"
    = Raise (gaierror "[Errno -2] Name or service not known")
  /\ submissions
       (events (scan_ports example_env NoSigint first_come "does-not-exist.invalid" 1 1024 1%Q 100))
     = [].
Proof.
  split; [reflexivity |].
  apply (C1_unresolved_host_returns_empty example_env NoSigint first_come
           "does-not-exist.invalid" 1 1024 1%Q 100
           "[Errno -2] Name or service not known").
  reflexivity.
Defined.

(** ** C2 *)

Lemma submissions_submits host timeout ports :
  submissions (map (fun p => Submit host p timeout) ports)
  = map (fun p => (host, p, timeout)) ports.
Proof.
  induction ports as [| p rest IH]; [reflexivity |].
  simpl. unfold submissions in *. simpl. rewrite IH. reflexivity.
Qed.

Lemma lookups_submits host timeout ports :
  lookups (map (fun p => Submit host p timeout) ports) = [].
Proof. induction ports as [| p rest IH]; [reflexivity | exact IH]. Qed.

Lemma lookups_loop_events total_ports scanned rs :
  lookups (loop_events total_ports scanned rs) = [].
Proof.
  revert scanned. induction rs as [| r rest IH]; intros scanned; [reflexivity |].
  simpl. unfold lookups in *. rewrite flat_map_app, IH.
  destruct (is_open r); destruct ((scanned + 1) mod 100 =? 0); reflexivity.
Qed.

Lemma lookups_app a b : lookups (a ++ b) = lookups a ++ lookups b.
Proof. apply flat_map_app. Qed.

Lemma submissions_app a b : submissions (a ++ b) = submissions a ++ submissions b.
Proof. apply flat_map_app. Qed.

Lemma collected_app a b : collected (a ++ b) = collected a ++ collected b.
Proof. apply flat_map_app. Qed.

Lemma collected_submits host timeout ports :
  collected (map (fun p => Submit host p timeout) ports) = [].
Proof. induction ports as [| p rest IH]; [reflexivity | exact IH]. Qed.

Lemma scan_ports_lookups env sig sched host start_port end_port timeout max_workers :
  lookups (events (scan_ports env sig sched host start_port end_port timeout max_workers))
  = [host].
Proof.
  destruct (scan_ports_paths env host timeout sig sched start_port end_port max_workers)
    as [e Hg He Hrun | e Hg He Hrun | ip Hg Hmw Hrun | ip k Hg Hmw Hsig Hk Hrun
        | ip rs e Hg Hmw Hlen Hrs He' Hrun | ip rs Hg Hmw Hd Hc Hrs Hrun
        | ip Hg Hsize Hrun];
    rewrite Hrun; cbn [events fst];
    rewrite ?lookups_app, ?lookups_submits, ?lookups_loop_events; reflexivity.
Qed.

Lemma scan_ports_submissions env sig sched host start_port end_port timeout max_workers :
  exists k,
    submissions
      (events (scan_ports env sig sched host start_port end_port timeout max_workers))
    = map (fun p => (host, p, timeout)) (firstn k (range start_port (end_port + 1))).
Proof.
  destruct (scan_ports_paths env host timeout sig sched start_port end_port max_workers)
    as [e Hg He Hrun | e Hg He Hrun | ip Hg Hmw Hrun | ip k Hg Hmw Hsig Hk Hrun
        | ip rs e Hg Hmw Hlen Hrs He' Hrun | ip rs Hg Hmw Hd Hc Hrs Hrun
        | ip Hg Hsize Hrun];
    rewrite Hrun; cbn [events fst].
  - exists O. reflexivity.
  - exists O. reflexivity.
  - exists O. reflexivity.
  - exists k. rewrite submissions_app, submissions_submits. reflexivity.
  - exists (length (range start_port (end_port + 1))).
    rewrite firstn_all, !submissions_app, submissions_submits, submissions_loop_events.
    simpl. rewrite app_nil_r. reflexivity.
  - exists (length (range start_port (end_port + 1))).
    rewrite firstn_all, !submissions_app, submissions_submits, submissions_loop_events.
    simpl. rewrite app_nil_r. reflexivity.
  - exists O. reflexivity.
Qed.

(** Unless the range is too long to be measured, the pool is refused or the
    dispatch interrupted, every port of the range is submitted. *)
Lemma scan_ports_submits_all env sig sched host start_port end_port timeout max_workers
    target_ip :
  gethostbyname env host = Return target_ip ->
  end_port - start_port < sys_maxsize ->
  0 < max_workers ->
  during_dispatch sig = None ->
  submissions
    (events (scan_ports env sig sched host start_port end_port timeout max_workers))
  = map (fun p => (host, p, timeout)) (range start_port (end_port + 1)).
Proof.
  intros Hg Hfits Hmw Hnone. apply range_fits in Hfits.
  destruct (scan_ports_paths env host timeout sig sched start_port end_port max_workers)
    as [e Hg' He Hrun | e Hg' He Hrun | ip Hg' Hmw' Hrun | ip k Hg' Hmw' Hsig Hk Hrun
        | ip rs e Hg' Hmw' Hlen Hrs He' Hrun | ip rs Hg' Hmw' Hd Hc Hrs Hrun
        | ip Hg' Hsize Hrun];
    try congruence; try lia.
  - rewrite Hsig in Hnone. discriminate.
  - rewrite Hrun. cbn [events fst].
    rewrite !submissions_app, submissions_submits, submissions_loop_events.
    simpl. apply app_nil_r.
  - rewrite Hrun. cbn [events fst].
    rewrite !submissions_app, submissions_submits, submissions_loop_events.
    simpl. apply app_nil_r.
Qed.

(** C2, as stated, fails: the probes are not given the resolved address. *)
Lemma C2_counterexample :
  ~ (forall env sig sched host start_port end_port timeout max_workers target_ip h p tm,
       gethostbyname env host = Return target_ip ->
       In (h, p, tm)
          (submissions
             (events (scan_ports env sig sched host start_port end_port timeout max_workers))) ->
       h = target_ip).
Proof.
  intros H.
  specialize (H example_env NoSigint first_come "localhost" 1 3 1%Q 100 "127.0.0.1"
                "localhost" 1 1%Q eq_refl).
  assert (Hneq : "localhost" <> "127.0.0.1") by discriminate.
  apply Hneq, H. vm_compute. left. reflexivity.
Qed.

(** C2, amended: [scan_ports] looks the host name up once, and uses the
    address only to report it; every probe it submits is given the host
    string the caller passed, with the caller's timeout, for the ports of
    the range in order.  [quick_scan] does no lookup at all and connects
    with the host string and a timeout of 0.5 s.  A probe connects to the
    host string it was given. *)
Theorem C2_probes_are_given_the_host_string :
  forall env sig sched host start_port end_port timeout max_workers,
    let run := scan_ports env sig sched host start_port end_port timeout max_workers in
    lookups (events run) = [host]
    /\ (exists k, submissions (events run)
                  = map (fun p => (host, p, timeout))
                        (firstn k (range start_port (end_port + 1))))
    /\ lookups (events (quick_scan env host)) = []
    /\ (exists k, connections (events (quick_scan env host))
                  = map (fun p => (host, p, 1 # 2)) (firstn k common_ports))
    /\ (forall p, hd_error (events (scan_port env host p timeout))
                  = Some (CallConnectEx host p timeout)).
Proof.
  intros env sig sched host start_port end_port timeout max_workers run.
  split; [| split; [| split; [| split]]].
  - apply scan_ports_lookups.
  - apply scan_ports_submissions.
  - destruct (quick_scan_events env host) as [tail [-> Htail]].
    destruct (quick_loop_no_pool env host common_ports []) as [_ Hl].
    change (Stdout (QuickHeader host (length common_ports))
              :: events (quick_loop env host common_ports []) ++ tail)
      with ([Stdout (QuickHeader host (length common_ports))]
              ++ events (quick_loop env host common_ports []) ++ tail).
    rewrite !lookups_app, Hl.
    destruct Htail as [-> | [n ->]]; reflexivity.
  - destruct (quick_scan_events env host) as [tail [-> Htail]].
    destruct (quick_loop_connections env host common_ports []) as [k [Hk _]].
    exists k. rewrite <- Hk.
    change (Stdout (QuickHeader host (length common_ports))
              :: events (quick_loop env host common_ports []) ++ tail)
      with ([Stdout (QuickHeader host (length common_ports))]
              ++ events (quick_loop env host common_ports []) ++ tail).
    unfold connections. rewrite !flat_map_app.
    destruct Htail as [-> | [n ->]]; simpl; rewrite app_nil_r; reflexivity.
  - intros p. destruct (scan_port_events env host p timeout) as [-> | [_ ->]]; reflexivity.
Qed.

(** ** C3 *)

Lemma filter_perm {A} (f : A -> bool) l l' :
  Permutation l l' -> Permutation (filter f l) (filter f l').
Proof.
  induction 1 as [| x l l' HP IH | x y l | l l' l'' HP1 IH1 HP2 IH2]; simpl.
  - constructor.
  - destruct (f x); [apply perm_skip |]; exact IH.
  - destruct (f x), (f y); try reflexivity. apply perm_swap.
  - etransitivity; eassumption.
Qed.

Lemma StronglySorted_filter {A} (R : A -> A -> Prop) (f : A -> bool) l :
  StronglySorted R l -> StronglySorted R (filter f l).
Proof.
  induction 1 as [| x l Hl IH Hx]; simpl; [constructor |].
  destruct (f x); [| exact IH].
  constructor; [exact IH |].
  rewrite Forall_forall in *. intros y Hy. apply filter_In in Hy as [Hy _]. auto.
Qed.

Lemma by_port_increasing rs :
  StronglySorted Z.lt (map port rs) -> StronglySorted port_lt rs.
Proof.
  induction rs as [| r rs IH]; simpl; intros H; [constructor |].
  inversion H as [| ? ? Hs Hall]; subst.
  constructor; [apply IH, Hs |].
  rewrite Forall_forall in *. intros y Hy. apply Hall, in_map, Hy.
Qed.

Lemma NoDup_map_filter {A B} (g : A -> B) (f : A -> bool) l :
  NoDup (map g l) -> NoDup (map g (filter f l)).
Proof.
  induction l as [| x l IH]; simpl; intros H; [constructor |].
  apply NoDup_cons_iff in H as [Hnin Hnd].
  destruct (f x); simpl; [| apply IH, Hnd].
  constructor; [| apply IH, Hnd].
  intros Hin. apply Hnin. apply in_map_iff in Hin as [y [Hy Hin]].
  apply filter_In in Hin as [Hin _]. rewrite <- Hy. apply in_map, Hin.
Qed.

(** The list [scan_ports] returns after taking the results [rs] of futures
    with pairwise distinct ports is strictly ascending. *)
Lemma sorted_open_strict rs :
  NoDup (map port rs) -> StronglySorted port_lt (sorted (filter is_open rs)).
Proof.
  intros Hnd. apply ascending_strict; [| apply sorted_ascending].
  eapply Permutation_NoDup.
  - apply Permutation_map. symmetry. apply sorted_perm.
  - apply NoDup_map_filter, Hnd.
Qed.

Lemma completed_results_NoDup env host timeout max_workers sched ports rs :
  0 < max_workers -> NoDup ports ->
  Forall2 (probed env host timeout) (as_completed max_workers sched ports) rs ->
  NoDup (map port rs).
Proof.
  intros Hmw Hnd Hrs. rewrite (probed_ports env host timeout _ _ Hrs).
  eapply Permutation_NoDup; [symmetry; apply as_completed_perm, Hmw | exact Hnd].
Qed.

Lemma common_ports_increasing : StronglySorted Z.lt common_ports.
Proof.
  unfold common_ports.
  repeat (constructor; [| repeat (constructor; [lia |]); constructor]).
  constructor.
Qed.

Lemma collected_completed_run host start_port end_port timeout max_workers target_ip
    ports total rs n :
  collected (scan_opening host start_port end_port max_workers target_ip
               ++ map (fun p => Submit host p timeout) ports
               ++ loop_events total 0 rs
               ++ [Stdout (ScanFooter n)]) = rs.
Proof.
  rewrite !collected_app, collected_submits, collected_loop_events.
  simpl. apply app_nil_r.
Qed.

(** C3: the list returned by a scan holds exactly the results with status
    "abierto" among the results taken from the probes, in strictly ascending
    port order, and it is the same list whatever the order in which the
    probes completed; a quick scan returns the open results of the common
    ports, which are strictly ascending as well. *)
Theorem C3_returned_open_ports_sorted :
  (forall env sig sched host start_port end_port timeout max_workers l,
     final (scan_ports env sig sched host start_port end_port timeout max_workers)
       = Return l ->
     Permutation l
       (filter is_open
          (collected
             (events (scan_ports env sig sched host start_port end_port timeout
                        max_workers))))
     /\ StronglySorted port_lt l
     /\ forall sched',
          final (scan_ports env sig sched' host start_port end_port timeout max_workers)
          = Return l)
  /\ (forall env host l,
        final (quick_scan env host) = Return l ->
        (exists rs, Forall2 (probed env host (1 # 2)) common_ports rs
                    /\ l = filter is_open rs)
        /\ StronglySorted port_lt l).
Proof.
  split.
  - intros env sig sched host start_port end_port timeout max_workers l Hret.
    destruct (scan_ports_paths env host timeout sig sched start_port end_port max_workers)
      as [e Hg He Hrun | e Hg He Hrun | ip Hg Hmw Hrun | ip k Hg Hmw Hsig Hk Hrun
          | ip rs e Hg Hmw Hlen Hrs He' Hrun | ip rs Hg Hmw Hd Hc Hrs Hrun Hsize
          | ip Hg Hsize Hrun];
      rewrite Hrun in Hret |- *; cbn [final events fst snd] in Hret |- *;
      try discriminate.
    + injection Hret as <-. repeat split; [constructor | constructor |].
      intros sched'.
      rewrite (scan_ports_unresolved env sig sched' host start_port end_port timeout
                 max_workers e Hg He).
      reflexivity.
    + injection Hret as <-.
      pose proof (completed_results_NoDup env host timeout max_workers sched _ rs Hmw
                    (range_NoDup _ _) Hrs) as Hnd.
      rewrite collected_completed_run.
      split; [apply sorted_perm |]. split; [apply sorted_open_strict, Hnd |].
      intros sched'.
      assert (HP : Permutation
                     (as_completed max_workers sched (range start_port (end_port + 1)))
                     (as_completed max_workers sched' (range start_port (end_port + 1)))).
      { etransitivity; [apply as_completed_perm, Hmw |].
        symmetry. apply as_completed_perm, Hmw. }
      destruct (probed_perm env host timeout _ _ rs HP Hrs) as [rs' [Hrs' HPrs]].
      rewrite (scan_ports_resolved env sig sched' host start_port end_port timeout
                 max_workers ip Hg Hsize).
      rewrite (scan_body_run env sig sched' host start_port end_port timeout
                 max_workers rs' Hmw Hd Hc Hrs').
      cbn [final snd]. f_equal.
      apply strictly_ascending_unique.
      * apply sorted_open_strict.
        eapply completed_results_NoDup; [exact Hmw | apply range_NoDup | exact Hrs'].
      * apply sorted_open_strict, Hnd.
      * rewrite !sorted_perm. apply filter_perm. symmetry. exact HPrs.
  - intros env host l Hret.
    apply quick_scan_returned, quick_loop_returned in Hret as [rs [Hrs ->]].
    simpl. split; [eauto |].
    apply StronglySorted_filter, by_port_increasing.
    rewrite (probed_ports env host (1 # 2) _ _ Hrs).
    apply common_ports_increasing.
Qed.

Lemma C3_returned_open_ports_sorted_witness :
  (final (scan_ports example_env NoSigint busy "localhost" 20 24 1%Q 2)
     = Return [mkPortResult 22 "abierto" (Some "ssh") None]
   /\ StronglySorted port_lt [mkPortResult 22 "abierto" (Some "ssh") None])
  /\ (final (quick_scan example_env "localhost")
        = Return [mkPortResult 22 "abierto" (Some "ssh") None;
                  mkPortResult 8080 "abierto" (Some "desconocido") None]
      /\ StronglySorted port_lt
           [mkPortResult 22 "abierto" (Some "ssh") None;
            mkPortResult 8080 "abierto" (Some "desconocido") None]).
Proof.
  split.
  - split; [reflexivity |].
    apply (proj1 C3_returned_open_ports_sorted example_env NoSigint
             busy "localhost" 20 24 1%Q 2).
    reflexivity.
  - split; [reflexivity |].
    apply (proj2 C3_returned_open_ports_sorted example_env "localhost").
    reflexivity.
Defined.

(** ** C4 *)

Lemma footers_app a b : footers (a ++ b) = footers a ++ footers b.
Proof. apply flat_map_app. Qed.

Lemma footers_In n t : In (Stdout (ScanFooter n)) t -> In n (footers t).
Proof.
  intros H. unfold footers. apply in_flat_map.
  exists (Stdout (ScanFooter n)). split; [exact H | left; reflexivity].
Qed.

Lemma footers_submits host timeout ports :
  footers (map (fun p => Submit host p timeout) ports) = [].
Proof. induction ports as [| p rest IH]; [reflexivity | exact IH]. Qed.

Lemma footers_loop_events total_ports scanned rs :
  footers (loop_events total_ports scanned rs) = [].
Proof.
  revert scanned. induction rs as [| r rest IH]; intros scanned; [reflexivity |].
  simpl. unfold footers in *. rewrite flat_map_app, IH.
  destruct (is_open r); destruct ((scanned + 1) mod 100 =? 0); reflexivity.
Qed.

(** A scan that has printed its closing lines went down the last path. *)
Lemma scan_completed_path env sig sched host start_port end_port timeout max_workers :
  scan_completed (scan_ports env sig sched host start_port end_port timeout max_workers) ->
  exists target_ip rs,
    gethostbyname env host = Return target_ip
    /\ 0 < max_workers
    /\ Forall2 (probed env host timeout)
         (as_completed max_workers sched (range start_port (end_port + 1))) rs
    /\ collected
         (events (scan_ports env sig sched host start_port end_port timeout max_workers))
       = rs
    /\ final (scan_ports env sig sched host start_port end_port timeout max_workers)
       = Return (sorted (filter is_open rs))
    /\ end_port - start_port < sys_maxsize
    /\ submissions
         (events (scan_ports env sig sched host start_port end_port timeout max_workers))
       = map (fun p => (host, p, timeout)) (range start_port (end_port + 1)).
Proof.
  intros [n Hn]. apply footers_In in Hn.
  destruct (scan_ports_paths env host timeout sig sched start_port end_port max_workers)
    as [e Hg He Hrun | e Hg He Hrun | ip Hg Hmw Hrun | ip k Hg Hmw Hsig Hk Hrun
        | ip rs e Hg Hmw Hlen Hrs He' Hrun | ip rs Hg Hmw Hd Hc Hrs Hrun Hsize
        | ip Hg Hsize Hrun];
    rewrite Hrun in Hn |- *; cbn [events final fst snd] in Hn |- *.
  - destruct Hn.
  - destruct Hn.
  - destruct Hn.
  - rewrite footers_app, footers_submits in Hn. destruct Hn.
  - rewrite !footers_app, footers_submits, footers_loop_events in Hn. destruct Hn.
  - exists ip, rs. repeat split; try assumption.
    + apply collected_completed_run.
    + apply range_fits, Hsize.
    + rewrite !submissions_app, submissions_submits, submissions_loop_events.
      simpl. apply app_nil_r.
  - destruct Hn.
Qed.

Lemma count_occ_range a b p :
  count_occ Z.eq_dec (range a b) p = if (a <=? p) && (p <? b) then 1%nat else 0%nat.
Proof.
  pose proof (range_NoDup a b) as Hnd.
  rewrite (NoDup_count_occ Z.eq_dec) in Hnd. specialize (Hnd p).
  destruct (Z.leb_spec a p); destruct (Z.ltb_spec p b); simpl.
  - assert (In p (range a b)) as Hin by (apply range_In; lia).
    apply (count_occ_In Z.eq_dec) in Hin. lia.
  - apply count_occ_not_In. rewrite range_In. lia.
  - apply count_occ_not_In. rewrite range_In. lia.
  - apply count_occ_not_In. rewrite range_In. lia.
Qed.

Lemma NoDup_map_injective {A B} (f : A -> B) l :
  (forall x y, f x = f y -> x = y) -> NoDup l -> NoDup (map f l).
Proof.
  intros Hinj. induction 1 as [| x l Hnin Hnd IH]; simpl; constructor; [| exact IH].
  intros Hin. apply in_map_iff in Hin as [y [Hy Hin]].
  apply Hinj in Hy. subst y. contradiction.
Qed.

(** C4: a scan that completes has submitted exactly one probe for each port
    of the requested range, in range order, and has taken exactly one
    result for each of those ports and none for any other port: the results
    are those of the submitted probes, each the result of its port's probe,
    in the order in which [as_completed] yields the futures submitted. *)
Theorem C4_one_result_per_port :
  forall env sig sched host start_port end_port timeout max_workers,
    let run := scan_ports env sig sched host start_port end_port timeout max_workers in
    let ports_to_scan := range start_port (end_port + 1) in
    scan_completed run ->
    submissions (events run) = map (fun p => (host, p, timeout)) ports_to_scan
    /\ NoDup (submissions (events run))
    /\ map port (collected (events run))
       = as_completed max_workers sched
           (map (fun job => snd (fst job)) (submissions (events run)))
    /\ (forall p,
          count_occ Z.eq_dec (map port (collected (events run))) p
          = if (start_port <=? p) && (p <=? end_port) then 1%nat else 0%nat)
    /\ (forall r, In r (collected (events run)) ->
                  In (host, port r, timeout) (submissions (events run))
                  /\ final (scan_port env host (port r) timeout) = Return r).
Proof.
  intros env sig sched host start_port end_port timeout max_workers run ports_to_scan Hdone.
  destruct (scan_completed_path env sig sched host start_port end_port timeout
              max_workers Hdone) as [ip [rs [Hg [Hmw [Hrs [Hcol [_ [_ Hsub]]]]]]]].
  subst run ports_to_scan. rewrite Hcol, Hsub.
  assert (Hjobs : map (fun job : string * Z * Q => snd (fst job))
                    (map (fun p => (host, p, timeout)) (range start_port (end_port + 1)))
                  = range start_port (end_port + 1)).
  { rewrite map_map. simpl. apply map_id. }
  pose proof (as_completed_perm max_workers sched (range start_port (end_port + 1)) Hmw)
    as HP.
  split; [reflexivity |]. split; [| split; [| split]].
  - apply NoDup_map_injective; [| apply range_NoDup].
    intros p q Hpq. congruence.
  - rewrite Hjobs. apply (probed_ports env host timeout _ _ Hrs).
  - intros p. rewrite (probed_ports env host timeout _ _ Hrs).
    rewrite (Permutation_count_occ Z.eq_dec) in HP. rewrite HP, count_occ_range.
    replace (p <? end_port + 1) with (p <=? end_port); [reflexivity |].
    destruct (Z.leb_spec p end_port); destruct (Z.ltb_spec p (end_port + 1)); lia || reflexivity.
  - intros r Hr. split.
    + apply (in_map (fun p => (host, p, timeout))). apply (Permutation_in _ HP).
      rewrite <- (probed_ports env host timeout _ _ Hrs). apply in_map, Hr.
    + clear Hcol HP. induction Hrs as [| p r' ps rs' Hp Hrest IH]; [destruct Hr |].
      destruct Hr as [<- | Hr]; [| apply IH, Hr].
      rewrite (probed_port env host timeout p r' Hp). exact Hp.
Qed.

Lemma C4_one_result_per_port_witness :
  scan_completed (scan_ports example_env NoSigint busy "localhost" 20 24 1%Q 2)
  /\ submissions (events (scan_ports example_env NoSigint busy "localhost" 20 24 1%Q 2))
     = map (fun p => ("localhost", p, 1%Q)) (range 20 (24 + 1))
  /\ count_occ Z.eq_dec
       (map port
          (collected
             (events (scan_ports example_env NoSigint busy
                        "localhost" 20 24 1%Q 2))))
       23
     = 1%nat.
Proof.
  assert (Hdone : scan_completed
                    (scan_ports example_env NoSigint busy
                       "localhost" 20 24 1%Q 2)).
  { exists 1%nat. vm_compute. repeat (first [left; reflexivity | right]). }
  split; [exact Hdone |].
  pose proof (C4_one_result_per_port example_env NoSigint busy
                "localhost" 20 24 1%Q 2 Hdone) as [Hsub [_ [_ [Hcount _]]]].
  split; [exact Hsub | exact (Hcount 23)].
Defined.

(** ** C5 *)

(** C5: [connect_ex] reports a refused connection and an elapsed timeout
    through its return value, which is then not zero; for every such return
    value the probe returns a result with status "cerrado", no service name
    and no error entry. *)
Theorem C5_refused_or_timed_out_is_closed :
  forall env host p timeout code,
    connect_ex env host p timeout = Return code ->
    code <> 0 ->
    final (scan_port env host p timeout) = Return (mkPortResult p "cerrado" None None).
Proof.
  intros env host p timeout code Hc Hne.
  rewrite (scan_port_closed env host p timeout code Hc Hne). reflexivity.
Qed.

Lemma C5_refused_or_timed_out_is_closed_witness :
  (connect_ex example_env "localhost" 80 1%Q = Return ECONNREFUSED
   /\ final (scan_port example_env "localhost" 80 1%Q)
      = Return (mkPortResult 80 "cerrado" None None))
  /\ (connect_ex example_env "localhost" 81 1%Q = Return EWOULDBLOCK
      /\ final (scan_port example_env "localhost" 81 1%Q)
         = Return (mkPortResult 81 "cerrado" None None)).
Proof.
  split; (split; [reflexivity |]).
  - apply (C5_refused_or_timed_out_is_closed example_env "localhost" 80 1%Q ECONNREFUSED).
    + reflexivity.
    + discriminate.
  - apply (C5_refused_or_timed_out_is_closed example_env "localhost" 81 1%Q EWOULDBLOCK).
    + reflexivity.
    + discriminate.
Defined.

(** ** C6 *)

(** C6, as stated, fails: a result with status "error" is taken from its
    future and then dropped; it is neither part of what the scan returns
    nor reported on in what the scan prints. *)
Lemma C6_counterexample :
  ~ (forall env sig sched host start_port end_port timeout max_workers l r,
       final (scan_ports env sig sched host start_port end_port timeout max_workers)
         = Return l ->
       In r (collected
               (events (scan_ports env sig sched host start_port end_port timeout
                          max_workers))) ->
       status r = "error" ->
       In r l
       \/ exists ln,
            In ln (printed
                     (events (scan_ports env sig sched host start_port end_port timeout
                                max_workers)))
            /\ reports_on ln r).
Proof.
  intros H.
  specialize (H example_env NoSigint first_come "localhost" 1 4 1%Q 100 []
                (mkPortResult 3 "error" None (Some "[Errno 24] Too many open files"))
                eq_refl).
  destruct H as [[] | [ln [Hln Hrep]]].
  - vm_compute. repeat (first [left; reflexivity | right]).
  - reflexivity.
  - vm_compute in Hln.
    destruct Hln as [<- | [<- | [<- | []]]]; exact Hrep.
Qed.

Lemma printed_app a b : printed (a ++ b) = printed a ++ printed b.
Proof. apply flat_map_app. Qed.

Lemma printed_submits host timeout ports :
  printed (map (fun p => Submit host p timeout) ports) = [].
Proof. induction ports as [| p rest IH]; [reflexivity | exact IH]. Qed.

(** The loop prints a port only for a result with status "abierto". *)
Lemma printed_loop_events total_ports scanned rs p s :
  In (OpenPort p s) (printed (loop_events total_ports scanned rs)) ->
  exists r, In r rs /\ is_open r = true /\ port r = p.
Proof.
  revert scanned. induction rs as [| r rest IH]; intros scanned Hin; [destruct Hin |].
  simpl in Hin.
  change (Collect r
            :: (if is_open r then [Stdout (OpenPort (port r) (service r))] else [])
            ++ (if (scanned + 1) mod 100 =? 0
                then [Stdout (Progress (scanned + 1) total_ports)] else [])
            ++ loop_events total_ports (scanned + 1) rest)
    with ([Collect r]
            ++ (if is_open r then [Stdout (OpenPort (port r) (service r))] else [])
            ++ (if (scanned + 1) mod 100 =? 0
                then [Stdout (Progress (scanned + 1) total_ports)] else [])
            ++ loop_events total_ports (scanned + 1) rest) in Hin.
  rewrite !printed_app in Hin. simpl in Hin.
  apply in_app_or in Hin as [Hin | Hin]; [apply in_app_or in Hin as [Hin | Hin] |].
  - destruct (is_open r) eqn:Ho; [| destruct Hin].
    destruct Hin as [Heq | []]. injection Heq as Hp _.
    exists r. auto with datatypes.
  - destruct ((scanned + 1) mod 100 =? 0); [| destruct Hin].
    destruct Hin as [Heq | []]. discriminate Heq.
  - destruct (IH _ Hin) as [r' [Hr' Ho]]. exists r'. auto with datatypes.
Qed.

(** C6, amended: a probe whose socket calls raise [socket.error] returns a
    result with status "error" that carries the message.  Such a failure
    never aborts the scan: once the host has resolved, an exception that
    ends [scan_ports] is never a socket error, and for a range of at most
    [sys.maxsize] ports, unless the pool is refused or the operator
    interrupts the dispatch, every port of the range is submitted.  The
    result is taken from its future and then dropped: what the scan returns
    holds only results with status "abierto", and a port is printed only
    for such a result. *)
Theorem C6_probe_errors_are_swallowed :
  (forall env host p timeout e,
     connect_ex env host p timeout = Raise e ->
     is_OSError e = true ->
     scan_port env host p timeout
     = ([CallConnectEx host p timeout],
        Return (mkPortResult p "error" None (Some (str e)))))
  /\ (forall env sig sched host start_port end_port timeout max_workers target_ip,
        gethostbyname env host = Return target_ip ->
        let run := scan_ports env sig sched host start_port end_port timeout max_workers in
        (forall e, final run = Raise e -> is_OSError e = false)
        /\ (end_port - start_port < sys_maxsize ->
            0 < max_workers ->
            during_dispatch sig = None ->
            submissions (events run)
            = map (fun p => (host, p, timeout)) (range start_port (end_port + 1)))
        /\ (forall l, final run = Return l ->
              (forall r, In r l -> status r = "abierto")
              /\ (forall p s, In (OpenPort p s) (printed (events run)) ->
                    exists r, In r l /\ port r = p))).
Proof.
  split.
  - intros env host p timeout e Hc He. apply scan_port_error; assumption.
  - intros env sig sched host start_port end_port timeout max_workers target_ip Hg run.
    subst run. split; [| split].
    + intros e Hfin.
      destruct (scan_ports_paths env host timeout sig sched start_port end_port max_workers)
        as [e' Hg' He Hrun | e' Hg' He Hrun | ip Hg' Hmw Hrun | ip k Hg' Hmw Hsig Hk Hrun
            | ip rs e' Hg' Hmw Hlen Hrs He' Hrun | ip rs Hg' Hmw Hd Hc Hrs Hrun
        | ip Hg' Hsize Hrun];
        try congruence; rewrite Hrun in Hfin; cbn [final snd] in Hfin;
        try discriminate Hfin; injection Hfin as <-;
        [reflexivity | reflexivity | exact He' | reflexivity].
    + intros Hfits Hmw Hnone. eapply scan_ports_submits_all; eassumption.
    + intros l Hfin.
      destruct (scan_ports_paths env host timeout sig sched start_port end_port max_workers)
        as [e' Hg' He Hrun | e' Hg' He Hrun | ip Hg' Hmw Hrun | ip k Hg' Hmw Hsig Hk Hrun
            | ip rs e' Hg' Hmw Hlen Hrs He' Hrun | ip rs Hg' Hmw Hd Hc Hrs Hrun
        | ip Hg' Hsize Hrun];
        try congruence; rewrite Hrun in Hfin |- *; cbn [events final fst snd] in Hfin |- *;
        try discriminate Hfin.
      injection Hfin as <-. split.
      * intros r Hr.
        apply (Permutation_in _ (sorted_perm _)) in Hr.
        apply filter_In in Hr as [_ Ho]. unfold is_open in Ho.
        apply String.eqb_eq, Ho.
      * intros p s Hin.
        rewrite !printed_app, printed_submits in Hin. simpl in Hin.
        destruct Hin as [Heq | [Heq | Hin]]; [discriminate Heq | discriminate Heq |].
        apply in_app_or in Hin as [Hin | [Heq | []]]; [| discriminate Heq].
        destruct (printed_loop_events _ _ _ _ _ Hin) as [r [Hr [Ho Hp]]].
        exists r. split; [| exact Hp].
        apply (Permutation_in _ (Permutation_sym (sorted_perm _))).
        apply filter_In. auto.
Qed.

Lemma C6_probe_errors_are_swallowed_witness :
  connect_ex example_env "localhost" 3 1%Q = Raise (OSError "[Errno 24] Too many open files")
  /\ scan_port example_env "localhost" 3 1%Q
     = ([CallConnectEx "localhost" 3 1%Q],
        Return (mkPortResult 3 "error" None (Some "[Errno 24] Too many open files")))
  /\ submissions (events (scan_ports example_env NoSigint first_come "localhost" 1 4 1%Q 100))
     = map (fun p => ("localhost", p, 1%Q)) (range 1 (4 + 1)).
Proof.
  split; [reflexivity |]. split.
  - apply (proj1 C6_probe_errors_are_swallowed example_env "localhost" 3 1%Q
             (OSError "[Errno 24] Too many open files")); reflexivity.
  - apply (proj2 C6_probe_errors_are_swallowed example_env NoSigint first_come "localhost"
             1 4 1%Q 100 "127.0.0.1" eq_refl); [reflexivity | lia | reflexivity].
Defined.

(** ** C7 *)

(** C7, as stated, fails: after a failed lookup the service entry is not
    missing; it holds the placeholder string. *)
Lemma C7_counterexample :
  ~ (forall env host p timeout e r,
       connect_ex env host p timeout = Return 0 ->
       getservbyport env p = Raise e ->
       final (scan_port env host p timeout) = Return r ->
       service r = None).
Proof.
  intros H.
  specialize (H example_env "localhost" 8080 1%Q (OSError "port/proto not found")
                (mkPortResult 8080 "abierto" (Some "desconocido") None)
                eq_refl eq_refl eq_refl).
  discriminate H.
Qed.

(** C7, amended: the service name is looked up only for the probed port and
    only after [connect_ex] returned 0, which are exactly the probes that
    return status "abierto"; if the lookup fails with an [OSError], the
    result still has status "abierto" and no error entry, and its service
    entry is the string "desconocido". *)
Theorem C7_service_lookup_only_when_open :
  forall env host p timeout,
    let run := scan_port env host p timeout in
    (forall q, In (CallGetservbyport q) (events run) ->
               q = p /\ connect_ex env host p timeout = Return 0)
    /\ (forall r, final run = Return r ->
                  (In (CallGetservbyport p) (events run) <-> status r = "abierto"))
    /\ (forall e,
          connect_ex env host p timeout = Return 0 ->
          getservbyport env p = Raise e ->
          is_OSError e = true ->
          final run = Return (mkPortResult p "abierto" (Some "desconocido") None)).
Proof.
  intros env host p timeout run. subst run.
  split; [| split].
  - intros q Hin.
    destruct (scan_port_events env host p timeout) as [Hev | [Hc Hev]];
      rewrite Hev in Hin; simpl in Hin.
    + destruct Hin as [Heq | []]. discriminate Heq.
    + destruct Hin as [Heq | [Heq | []]]; [discriminate Heq |].
      injection Heq as <-. auto.
  - intros r.
    destruct (scan_port_cases env host p timeout)
      as [s Hc Hs | e Hc Hs He | e Hc Hs He | code Hc Hne | e Hc He | e Hc He].
    + rewrite (scan_port_open env host p timeout s Hc Hs). cbn.
      intros [= <-]. split; [reflexivity | auto].
    + rewrite (scan_port_open_unknown env host p timeout e Hc Hs He). cbn.
      intros [= <-]. split; [reflexivity | auto].
    + rewrite (scan_port_lookup_escapes env host p timeout e Hc Hs He). discriminate.
    + rewrite (scan_port_closed env host p timeout code Hc Hne). cbn.
      intros [= <-]. split; [intros [Heq | []]; discriminate Heq | discriminate].
    + rewrite (scan_port_error env host p timeout e Hc He). cbn.
      intros [= <-]. split; [intros [Heq | []]; discriminate Heq | discriminate].
    + rewrite (scan_port_escapes env host p timeout e Hc He). discriminate.
  - intros e Hc Hs He.
    rewrite (scan_port_open_unknown env host p timeout e Hc Hs He). reflexivity.
Qed.

Lemma C7_service_lookup_only_when_open_witness :
  (connect_ex example_env "localhost" 8080 1%Q = Return 0
   /\ getservbyport example_env 8080 = Raise (OSError "port/proto not found"))
  /\ final (scan_port example_env "localhost" 8080 1%Q)
     = Return (mkPortResult 8080 "abierto" (Some "desconocido") None).
Proof.
  split; [split; reflexivity |].
  apply (proj2 (proj2 (C7_service_lookup_only_when_open example_env "localhost" 8080 1%Q))
           (OSError "port/proto not found")); reflexivity.
Defined.

(** ** C8 *)

Lemma executors_app a b : executors (a ++ b) = executors a ++ executors b.
Proof. apply flat_map_app. Qed.

Lemma executors_submits host timeout ports :
  executors (map (fun p => Submit host p timeout) ports) = [].
Proof. induction ports as [| p rest IH]; [reflexivity | exact IH]. Qed.

Lemma executors_loop_events total_ports scanned rs :
  executors (loop_events total_ports scanned rs) = [].
Proof.
  revert scanned. induction rs as [| r rest IH]; intros scanned; [reflexivity |].
  simpl. unfold executors in *. rewrite flat_map_app, IH.
  destruct (is_open r); destruct ((scanned + 1) mod 100 =? 0); reflexivity.
Qed.

(** Once the host has resolved and the range has been measured, the
    executor is built, once, with the bound the caller gave. *)
Lemma scan_ports_executors env sig sched host start_port end_port timeout max_workers
    target_ip :
  gethostbyname env host = Return target_ip ->
  end_port - start_port < sys_maxsize ->
  executors (events (scan_ports env sig sched host start_port end_port timeout max_workers))
  = [max_workers].
Proof.
  intros Hg Hfits. apply range_fits in Hfits.
  destruct (scan_ports_paths env host timeout sig sched start_port end_port max_workers)
    as [e Hg' He Hrun | e Hg' He Hrun | ip Hg' Hmw Hrun | ip k Hg' Hmw Hsig Hk Hrun
        | ip rs e Hg' Hmw Hlen Hrs He' Hrun | ip rs Hg' Hmw Hd Hc Hrs Hrun
        | ip Hg' Hsize Hrun];
    try congruence; try lia; rewrite Hrun; cbn [events fst];
    rewrite ?executors_app, ?executors_submits, ?executors_loop_events; reflexivity.
Qed.

(** The results taken are those of the first futures [as_completed]
    yields. *)
Lemma scan_ports_collected env sig sched host start_port end_port timeout max_workers :
  0 < max_workers ->
  exists k,
    map port
      (collected
         (events (scan_ports env sig sched host start_port end_port timeout max_workers)))
    = firstn k (as_completed max_workers sched (range start_port (end_port + 1))).
Proof.
  intros Hpos.
  destruct (scan_ports_paths env host timeout sig sched start_port end_port max_workers)
    as [e Hg He Hrun | e Hg He Hrun | ip Hg Hmw Hrun | ip k Hg Hmw Hsig Hk Hrun
        | ip rs e Hg Hmw Hlen Hrs He' Hrun | ip rs Hg Hmw Hd Hc Hrs Hrun
        | ip Hg Hsize Hrun];
    rewrite Hrun; cbn [events fst].
  - exists O. reflexivity.
  - exists O. reflexivity.
  - exists O. reflexivity.
  - exists O. rewrite collected_app, collected_submits. reflexivity.
  - exists (length rs).
    rewrite !collected_app, collected_submits, collected_loop_events. simpl.
    apply (probed_ports env host timeout _ _ Hrs).
  - exists (length (as_completed max_workers sched (range start_port (end_port + 1)))).
    rewrite collected_completed_run, firstn_all.
    apply (probed_ports env host timeout _ _ Hrs).
  - exists O. reflexivity.
Qed.

Lemma pool_running_bound max_workers choices jobs n :
  0 < max_workers ->
  Z.of_nat (length (running (run max_workers choices n (submitted jobs))))
  <= Z.min max_workers (Z.of_nat (length jobs)).
Proof.
  intros Hmw.
  destruct (run_inv max_workers jobs n choices (submitted jobs)
              (submitted_inv max_workers jobs ltac:(lia))) as [HP Hb].
  apply Permutation_length in HP. rewrite !length_app in HP. lia.
Qed.

(** When every move on offer is a start, the first [n] queued jobs are
    running after [n] moves, as long as the bound allows. *)
Lemma run_first_come max_workers n : forall q r f,
  (n <= length q)%nat ->
  Z.of_nat (length r + n) <= max_workers ->
  run max_workers [] n (mkPool q r f) = mkPool (skipn n q) (r ++ firstn n q) f.
Proof.
  induction n as [| n IH]; intros q r f Hn Hb.
  - simpl. rewrite app_nil_r. reflexivity.
  - destruct q as [| p q]; simpl in Hn; [lia |].
    cbn [run hd tl]. unfold step, can_start. cbn [queue running].
    destruct (Z.ltb_spec (Z.of_nat (length r)) max_workers) as [_ | Hge]; [| lia].
    rewrite Nat.mod_small by lia. unfold start. cbn [queue running finished].
    rewrite IH by (rewrite ?length_app; simpl; lia).
    cbn [skipn firstn]. rewrite <- app_assoc. reflexivity.
Qed.

(** The bound is reached: some schedule has [min(max_workers, total)] jobs
    running at once. *)
Lemma pool_bound_attained max_workers jobs :
  0 < max_workers ->
  exists n,
    Z.of_nat (length (running (run max_workers [] n (submitted jobs))))
    = Z.min max_workers (Z.of_nat (length jobs)).
Proof.
  intros Hmw. exists (Z.to_nat (Z.min max_workers (Z.of_nat (length jobs)))).
  unfold submitted. rewrite run_first_come by (simpl; lia).
  cbn [running app]. rewrite length_firstn. lia.
Qed.

(** The quick loop is sequential: it connects to the ports in list order,
    to each only after the probes of the ports before it have returned, and
    stops at the first probe that raises. *)
Lemma quick_loop_sequential env host ports :
  forall acc,
  exists k,
    (k <= length ports)%nat
    /\ (ports <> [] -> (0 < k)%nat)
    /\ connections (events (quick_loop env host ports acc))
       = map (fun p => (host, p, 1 # 2)) (firstn k ports)
    /\ (forall i p, (S i < k)%nat -> nth_error ports i = Some p ->
                    exists r, final (scan_port env host p (1 # 2)) = Return r)
    /\ (forall l, final (quick_loop env host ports acc) = Return l -> k = length ports)
    /\ (forall e, final (quick_loop env host ports acc) = Raise e ->
                  exists p, nth_error ports (k - 1) = Some p
                            /\ final (scan_port env host p (1 # 2)) = Raise e).
Proof.
  induction ports as [| p rest IH]; intros acc.
  - exists O. split; [simpl; lia |].
    split; [intros H; exfalso; apply H; reflexivity |].
    split; [reflexivity |]. split; [intros i q Hi; lia |].
    split; [intros l _; reflexivity | simpl; discriminate].
  - assert (Hconn : connections (events (scan_port env host p (1 # 2))) = [(host, p, 1 # 2)]).
    { destruct (scan_port_events env host p (1 # 2)) as [-> | [_ ->]]; reflexivity. }
    destruct (final (scan_port env host p (1 # 2))) as [r | e] eqn:Hp.
    + rewrite (quick_loop_round env host p rest acc r Hp).
      destruct (IH (if is_open r then acc ++ [r] else acc))
        as [k [Hk [Hpos [Hc [Hearlier [Hret Hraise]]]]]].
      exists (S k). split; [simpl; lia |]. split; [lia |]. split; [| split; [| split]].
      * cbn [events fst]. unfold connections in *. rewrite !flat_map_app, Hconn, Hc.
        destruct (is_open r); reflexivity.
      * intros i q Hi Hnth. destruct i as [| i].
        -- simpl in Hnth. injection Hnth as <-. eauto.
        -- simpl in Hnth. apply (Hearlier i q); [lia | exact Hnth].
      * cbn [final snd]. intros l Hl. simpl. f_equal. eapply Hret, Hl.
      * cbn [final snd]. intros e He. destruct (Hraise e He) as [q [Hnth Hq]].
        assert (Hk0 : (0 < k)%nat).
        { apply Hpos. intros ->. simpl in He. discriminate He. }
        exists q. split; [| exact Hq].
        replace (S k - 1)%nat with (S (k - 1)) by lia. exact Hnth.
    + rewrite (quick_loop_raises env host p rest acc e Hp).
      exists 1%nat. split; [simpl; lia |]. split; [lia |]. split; [exact Hconn |].
      split; [intros i q Hi; lia |]. split; [discriminate |].
      cbn [final snd]. intros e' [= <-]. exists p. split; [reflexivity | exact Hp].
Qed.

(** C8, as stated, fails: the executor is built with [max_workers] itself,
    not with the smaller of [max_workers] and the number of ports. *)
Lemma C8_counterexample :
  ~ (forall env sig sched host start_port end_port timeout max_workers target_ip,
       gethostbyname env host = Return target_ip ->
       0 < max_workers ->
       end_port - start_port < sys_maxsize ->
       executors
         (events (scan_ports env sig sched host start_port end_port timeout max_workers))
       = [spec_pool_size max_workers
            (Z.of_nat (length (range start_port (end_port + 1))))]).
Proof.
  intros H.
  specialize (H example_env NoSigint first_come "localhost" 20 24 1%Q 100 "127.0.0.1"
                eq_refl eq_refl eq_refl).
  vm_compute in H. discriminate H.
Qed.

(** C8, amended: once the host has resolved and the range has been
    measured, [scan_ports] builds one executor, with the bound
    [max_workers] it was given, whatever the number of ports.  With a
    positive bound it submits every port of the range to that executor
    (unless the operator interrupts the dispatch) and takes the results in
    the order in which [as_completed] yields the futures, which are the
    jobs that executor finished; while the executor works through them, the number of probes running at the same
    time never exceeds [min(max_workers, total_ports)], and under the
    schedule that starts a probe whenever a worker is free it reaches that
    number.  The default bound is 100.  A quick scan builds no executor and
    submits nothing: it connects to the common ports itself, in list order,
    to each only after the probes before it have returned, to all 22 when it
    returns, and up to the port whose probe raised when it does not. *)
Theorem C8_bounded_pool_and_sequential_quick_scan :
  (forall env sig sched host start_port end_port timeout max_workers target_ip,
     gethostbyname env host = Return target_ip ->
     end_port - start_port < sys_maxsize ->
     let scan := scan_ports env sig sched host start_port end_port timeout max_workers in
     let ports_to_scan := range start_port (end_port + 1) in
     let total_ports := Z.of_nat (length ports_to_scan) in
     executors (events scan) = [max_workers]
     /\ (0 < max_workers ->
         (during_dispatch sig = None ->
          submissions (events scan) = map (fun p => (host, p, timeout)) ports_to_scan)
         /\ (exists k, map port (collected (events scan))
                       = firstn k (as_completed max_workers sched ports_to_scan))
         /\ (scan_completed scan ->
             map port (collected (events scan))
             = as_completed max_workers sched ports_to_scan
             /\ Permutation (map port (collected (events scan)))
                  (finished (run max_workers (pool_choices sched)
                               (2 * length ports_to_scan) (submitted ports_to_scan))))
         /\ (forall n,
               Z.of_nat (length (running (run max_workers (pool_choices sched) n
                                            (submitted ports_to_scan))))
               <= Z.min max_workers total_ports)
         /\ (exists n,
               Z.of_nat (length (running (run max_workers (pool_choices first_come) n
                                            (submitted ports_to_scan))))
               = Z.min max_workers total_ports)))
  /\ (forall env sig sched host target_ip,
        gethostbyname env host = Return target_ip ->
        executors (events (scan_ports_defaults env sig sched host)) = [100])
  /\ (forall env host,
        submissions (events (quick_scan env host)) = []
        /\ executors (events (quick_scan env host)) = []
        /\ exists k,
             (0 < k <= 22)%nat
             /\ connections (events (quick_scan env host))
                = map (fun p => (host, p, 1 # 2)) (firstn k common_ports)
             /\ (forall i p, (S i < k)%nat -> nth_error common_ports i = Some p ->
                             exists r, final (scan_port env host p (1 # 2)) = Return r)
             /\ (forall l, final (quick_scan env host) = Return l -> k = 22%nat)
             /\ (forall e, final (quick_scan env host) = Raise e ->
                           exists p, nth_error common_ports (k - 1) = Some p
                                     /\ final (scan_port env host p (1 # 2)) = Raise e)).
Proof.
  split; [| split].
  - intros env sig sched host start_port end_port timeout max_workers target_ip Hg Hfits
           scan ports_to_scan total_ports.
    subst scan ports_to_scan total_ports.
    split; [apply (scan_ports_executors _ _ _ _ _ _ _ _ target_ip Hg Hfits) |].
    intros Hmw. split; [| split; [| split; [| split]]].
    + intros Hnone. eapply scan_ports_submits_all; eassumption.
    + apply scan_ports_collected, Hmw.
    + intros Hdone.
      destruct (scan_completed_path env sig sched host start_port end_port timeout
                  max_workers Hdone) as [ip [rs [_ [_ [Hrs [Hcol _]]]]]].
      rewrite Hcol, (probed_ports env host timeout _ _ Hrs).
      split; [reflexivity |].
      unfold as_completed, execute. rewrite shuffle_perm, firstn_skipn. reflexivity.
    + intros n. apply pool_running_bound, Hmw.
    + apply pool_bound_attained, Hmw.
  - intros env sig sched host target_ip Hg.
    apply (scan_ports_executors env sig sched host 1 1024 1%Q 100 target_ip Hg).
    reflexivity.
  - intros env host.
    destruct (quick_scan_events env host) as [tail [Hev Htail]].
    destruct (quick_loop_no_pool env host common_ports []) as [Hs _].
    destruct (quick_loop_sequential env host common_ports [])
      as [k [Hk [Hpos [Hc [Hearlier [Hret Hraise]]]]]].
    assert (Hexec : executors (events (quick_loop env host common_ports [])) = []).
    { clear. generalize (@nil PortResult).
      induction common_ports as [| p rest IH]; intros acc; [reflexivity |].
      assert (Hsp : executors (events (scan_port env host p (1 # 2))) = [])
        by (destruct (scan_port_events env host p (1 # 2)) as [-> | [_ ->]]; reflexivity).
      destruct (final (scan_port env host p (1 # 2))) as [r | e] eqn:Hp.
      - rewrite (quick_loop_round env host p rest acc r Hp). cbn [events fst].
        rewrite !executors_app, Hsp, IH. destruct (is_open r); reflexivity.
      - rewrite (quick_loop_raises env host p rest acc e Hp). exact Hsp. }
    rewrite Hev.
    change (Stdout (QuickHeader host (length common_ports))
              :: events (quick_loop env host common_ports []) ++ tail)
      with ([Stdout (QuickHeader host (length common_ports))]
              ++ events (quick_loop env host common_ports []) ++ tail).
    split; [| split].
    + rewrite !submissions_app, Hs. destruct Htail as [-> | [n ->]]; reflexivity.
    + rewrite !executors_app, Hexec. destruct Htail as [-> | [n ->]]; reflexivity.
    + exists k. split; [split; [apply Hpos; discriminate | exact Hk] |].
      split; [| split; [exact Hearlier | split]].
      * rewrite <- Hc. unfold connections. rewrite !flat_map_app.
        destruct Htail as [-> | [n ->]]; simpl; rewrite app_nil_r; reflexivity.
      * intros l Hl. apply quick_scan_returned in Hl. apply (Hret l Hl).
      * intros e He. apply Hraise.
        rewrite quick_scan_unfold in He. cbn [final snd] in He.
        destruct (final (quick_loop env host common_ports [])) as [l | e'] eqn:Hq.
        -- rewrite (bind_Return _ _ l Hq) in He. discriminate He.
        -- rewrite (bind_Raise _ _ e' Hq) in He. exact He.
Qed.

Lemma C8_bounded_pool_and_sequential_quick_scan_witness :
  (gethostbyname example_env "localhost" = Return "127.0.0.1"
   /\ 24 - 20 < sys_maxsize
   /\ 0 < 2
   /\ during_dispatch NoSigint = None)
  /\ executors (events (scan_ports example_env NoSigint busy "localhost" 20 24 1%Q 2))
     = [2]
  /\ submissions (events (scan_ports example_env NoSigint busy "localhost" 20 24 1%Q 2))
     = map (fun p => ("localhost", p, 1%Q)) (range 20 (24 + 1)).
Proof.
  split; [split; [reflexivity | split; [reflexivity | split; [lia | reflexivity]]] |].
  pose proof (proj1 C8_bounded_pool_and_sequential_quick_scan example_env NoSigint busy
                "localhost" 20 24 1%Q 2 "127.0.0.1" eq_refl eq_refl) as [Hexec Hpool].
  split; [exact Hexec |].
  exact (proj1 (Hpool ltac:(lia)) eq_refl).
Defined.

(** ** C9 *)

Lemma submissions_pool max_workers t :
  submissions (CallThreadPoolExecutor max_workers :: t) = submissions t.
Proof. reflexivity. Qed.

Lemma collected_pool max_workers t :
  collected (CallThreadPoolExecutor max_workers :: t) = collected t.
Proof. reflexivity. Qed.

(** An interrupt after [k] rounds, when every probe returns: the loop has
    taken the first [k] results and ends in [KeyboardInterrupt]. *)
Lemma collect_interrupt_run env host timeout total_ports completed rs :
  Forall2 (probed env host timeout) completed rs ->
  forall k scanned acc,
  (k < length completed)%nat ->
  collect env host timeout total_ports (Some k) completed scanned acc
  = (loop_events total_ports scanned (firstn k rs), Raise KeyboardInterrupt).
Proof.
  induction 1 as [| p r completed rs Hp Hrest IH]; intros k scanned acc Hk;
    simpl in Hk; [lia |].
  destruct k as [| k]; [reflexivity |].
  rewrite (collect_round env host timeout total_ports (Some (S k)) p completed
             scanned acc r Hp) by discriminate.
  simpl option_map. rewrite IH by lia. reflexivity.
Qed.

(** C9, as stated, fails: an interrupted scan returns no report at all. *)
Lemma C9_counterexample :
  ~ (forall env sched host start_port end_port timeout max_workers target_ip k,
       gethostbyname env host = Return target_ip ->
       (k < length (range start_port (end_port + 1)))%nat ->
       exists l,
         final (scan_ports env (SigintCollect k) sched host start_port end_port timeout
                  max_workers)
         = Return l).
Proof.
  intros H.
  destruct (H example_env busy "localhost" 20 24 1%Q 2 "127.0.0.1" 3%nat
              eq_refl ltac:(vm_compute; lia)) as [l Hl].
  vm_compute in Hl. discriminate Hl.
Qed.

(** C9, amended: [scan_ports] has no cancellation of its own.  When the
    operator interrupts a scan whose host has resolved and whose range has
    been measured (a range of at most [sys.maxsize] ports), the scan ends in
    an exception and returns no report, partial or not.  An interrupt during
    dispatch, after [k] submissions, leaves the remaining ports unsubmitted
    and ends in [KeyboardInterrupt]; an interrupt during collection finds
    every port already submitted, and if the probes return, the results
    taken in the first [k] rounds are lost with the [KeyboardInterrupt]. *)
Theorem C9_interrupt_discards_the_scan :
  forall env sched host start_port end_port timeout max_workers target_ip k,
    gethostbyname env host = Return target_ip ->
    end_port - start_port < sys_maxsize ->
    0 < max_workers ->
    (k < length (range start_port (end_port + 1)))%nat ->
    let ports_to_scan := range start_port (end_port + 1) in
    let interrupted sig :=
      scan_ports env sig sched host start_port end_port timeout max_workers in
    (final (interrupted (SigintDispatch k)) = Raise KeyboardInterrupt
     /\ submissions (events (interrupted (SigintDispatch k)))
        = map (fun p => (host, p, timeout)) (firstn k ports_to_scan))
    /\ ((exists e, final (interrupted (SigintCollect k)) = Raise e)
        /\ submissions (events (interrupted (SigintCollect k)))
           = map (fun p => (host, p, timeout)) ports_to_scan)
    /\ (forall rs,
          Forall2 (probed env host timeout)
            (as_completed max_workers sched ports_to_scan) rs ->
          final (interrupted (SigintCollect k)) = Raise KeyboardInterrupt
          /\ collected (events (interrupted (SigintCollect k))) = firstn k rs).
Proof.
  intros env sched host start_port end_port timeout max_workers target_ip k Hg Hfits Hmw Hk
         ports_to_scan interrupted.
  apply range_fits in Hfits.
  subst interrupted ports_to_scan. cbv beta.
  set (ports_to_scan := range start_port (end_port + 1)) in *.
  assert (Hlen : length (as_completed max_workers sched ports_to_scan)
                 = length ports_to_scan)
    by (apply Permutation_length, as_completed_perm, Hmw).
  split; [| split].
  - rewrite (scan_ports_resolved env (SigintDispatch k) sched host start_port end_port
               timeout max_workers target_ip Hg Hfits).
    rewrite (scan_body_dispatch_interrupted env (SigintDispatch k) sched host start_port
               end_port timeout max_workers k Hmw eq_refl Hk).
    cbn [final events fst snd]. split; [reflexivity |].
    rewrite submissions_app, submissions_pool, submissions_submits. reflexivity.
  - rewrite (scan_ports_resolved env (SigintCollect k) sched host start_port end_port
               timeout max_workers target_ip Hg Hfits).
    destruct (scan_body_collect_interrupted env (SigintCollect k) sched host start_port
                end_port timeout max_workers k Hmw eq_refl Hk) as [t [e Hbody]].
    pose proof (scan_body_dispatched env (SigintCollect k) sched host start_port end_port
                  timeout max_workers Hmw I) as Hdisp.
    rewrite Hdisp. cbn [final events fst snd]. split.
    + rewrite Hdisp in Hbody. injection Hbody as _ He. eauto.
    + destruct (collect_shape env host timeout
                  (Z.of_nat (length ports_to_scan))
                  (as_completed max_workers sched ports_to_scan) (Some k) 0 [])
        as [[rs [_ Hq]] | [rs [e' [_ [_ [_ Hcol]]]]]].
      { simpl in Hq. rewrite Hlen in Hq. lia. }
      unfold scan_collect. simpl during_collect. fold ports_to_scan.
      rewrite Hcol. cbn [bind events fst].
      rewrite submissions_app, submissions_pool, submissions_app, submissions_submits,
        submissions_loop_events.
      simpl. apply app_nil_r.
  - intros rs Hrs.
    rewrite (scan_ports_resolved env (SigintCollect k) sched host start_port end_port
               timeout max_workers target_ip Hg Hfits).
    rewrite (scan_body_dispatched env (SigintCollect k) sched host start_port end_port
               timeout max_workers Hmw I).
    unfold scan_collect. simpl during_collect. fold ports_to_scan.
    rewrite (collect_interrupt_run env host timeout _ _ rs Hrs k 0 []) by lia.
    cbn [bind final events fst snd]. split; [reflexivity |].
    rewrite collected_app, collected_pool, collected_app, collected_submits,
      collected_loop_events.
    reflexivity.
Qed.

Lemma C9_interrupt_discards_the_scan_witness :
  (gethostbyname example_env "localhost" = Return "127.0.0.1"
   /\ 24 - 20 < sys_maxsize
   /\ 0 < 2
   /\ (3 < length (range 20 (24 + 1)))%nat)
  /\ final (scan_ports example_env (SigintDispatch 3) busy
              "localhost" 20 24 1%Q 2)
     = Raise KeyboardInterrupt.
Proof.
  split; [split; [reflexivity | split; [reflexivity | split; [lia | vm_compute; lia]]] |].
  apply (C9_interrupt_discards_the_scan example_env busy "localhost"
           20 24 1%Q 2 "127.0.0.1" 3%nat eq_refl eq_refl);
    [lia | vm_compute; lia].
Defined.

(** ** C10 *)

(** C10, as stated, fails: a call with an empty range and a bound of zero
    workers ends in the executor's [ValueError]. *)
Lemma C10_counterexample :
  ~ (forall env sig sched host start_port end_port timeout max_workers target_ip,
       gethostbyname env host = Return target_ip ->
       end_port < start_port ->
       final (scan_ports env sig sched host start_port end_port timeout max_workers)
       = Return []).
Proof.
  intros H.
  specialize (H example_env NoSigint first_come "localhost" 10 5 1%Q 0 "127.0.0.1" eq_refl
                ltac:(lia)).
  vm_compute in H. discriminate H.
Qed.

(** C10, amended: for a host that resolves, a range with
    [start_port > end_port] and a positive [max_workers], [scan_ports]
    submits no probe and returns the empty list without raising, whatever
    the two bounds are.  The bounds are not checked against 1..65535: for
    any bounds that span at most [sys.maxsize] ports, inside 1..65535 or
    not, every port from [start_port] to [end_port] is submitted unless the
    operator interrupts the dispatch.  The one range that is refused is a
    range of more than [sys.maxsize] ports: measuring it raises
    [OverflowError] before the executor is built and before any probe is
    submitted. *)
Theorem C10_empty_range_scans_nothing :
  forall env sig sched host start_port end_port timeout max_workers target_ip,
    gethostbyname env host = Return target_ip ->
    0 < max_workers ->
    let run := scan_ports env sig sched host start_port end_port timeout max_workers in
    (end_port < start_port ->
     run = ([Stdout (ScanHeader host start_port end_port);
             CallGethostbyname host;
             Stdout (ResolvedIP target_ip);
             CallThreadPoolExecutor max_workers;
             Stdout (ScanFooter 0)],
            Return [])
     /\ submissions (events run) = [])
    /\ (end_port - start_port < sys_maxsize ->
        during_dispatch sig = None ->
        submissions (events run)
        = map (fun p => (host, p, timeout)) (range start_port (end_port + 1)))
    /\ (sys_maxsize <= end_port - start_port ->
        run = ([Stdout (ScanHeader host start_port end_port);
                CallGethostbyname host;
                Stdout (ResolvedIP target_ip)],
               Raise (OverflowError "Python int too large to convert to C ssize_t"))
        /\ executors (events run) = []
        /\ submissions (events run) = []).
Proof.
  intros env sig sched host start_port end_port timeout max_workers target_ip Hg Hmw run.
  subst run. split; [| split].
  - intros Hempty.
    assert (Hrun : scan_ports env sig sched host start_port end_port timeout max_workers
                   = ([Stdout (ScanHeader host start_port end_port);
                       CallGethostbyname host;
                       Stdout (ResolvedIP target_ip);
                       CallThreadPoolExecutor max_workers;
                       Stdout (ScanFooter 0)],
                      Return [])).
    { assert (Hnil : range start_port (end_port + 1) = []) by (apply range_empty; lia).
      rewrite (scan_ports_resolved env sig sched host start_port end_port timeout
                 max_workers target_ip Hg)
        by (rewrite Hnil; simpl; pose proof sys_maxsize_pos; lia).
      rewrite (scan_body_run env sig sched host start_port end_port timeout
                 max_workers [] Hmw).
      - rewrite Hnil. reflexivity.
      - rewrite Hnil. destruct sig; simpl; lia || exact I.
      - rewrite Hnil. destruct sig; simpl; lia || exact I.
      - rewrite Hnil, as_completed_nil. constructor. }
    rewrite Hrun. split; reflexivity.
  - intros Hfits Hnone. eapply scan_ports_submits_all; eassumption.
  - intros Hlong.
    rewrite (scan_ports_too_long env sig sched host start_port end_port timeout
               max_workers target_ip Hg)
      by (rewrite range_length; pose proof sys_maxsize_pos; lia).
    repeat split; reflexivity.
Qed.

Lemma C10_empty_range_scans_nothing_witness :
  (gethostbyname example_env "localhost" = Return "127.0.0.1"
   /\ 0 < 100 /\ -5 < 70000 /\ sys_maxsize <= 9223372036854775808 - 1)
  /\ final (scan_ports example_env NoSigint first_come "localhost" 70000 (-5) 1%Q 100)
     = Return []
  /\ final (scan_ports example_env NoSigint first_come "localhost" 1 9223372036854775808
              1%Q 100)
     = Raise (OverflowError "Python int too large to convert to C ssize_t").
Proof.
  assert (Hlong : sys_maxsize <= 9223372036854775808 - 1)
    by (apply Z.leb_le; reflexivity).
  split; [split; [reflexivity | split; [lia | split; [lia | exact Hlong]]] |].
  split.
  - pose proof (C10_empty_range_scans_nothing example_env NoSigint first_come "localhost"
                  70000 (-5) 1%Q 100 "127.0.0.1" eq_refl ltac:(lia)) as [Hempty _].
    destruct (Hempty ltac:(lia)) as [Hrun _].
    cbv zeta in Hrun. rewrite Hrun. reflexivity.
  - pose proof (C10_empty_range_scans_nothing example_env NoSigint first_come "localhost"
                  1 9223372036854775808 1%Q 100 "127.0.0.1" eq_refl ltac:(lia))
      as [_ [_ Htoo_long]].
    destruct (Htoo_long Hlong) as [Hrun _].
    cbv zeta in Hrun. rewrite Hrun. reflexivity.
Defined.

(** * Further properties of the scanner *)

(** ** The probe *)

(** X1: a result returned by [scan_port] is for the port that was probed,
    has one of the three statuses, carries a service name exactly when its
    status is "abierto" and an error entry exactly when its status is
    "error". *)
Theorem X1_scan_port_result_shape :
  forall env host p timeout r,
    final (scan_port env host p timeout) = Return r ->
    port r = p
    /\ (status r = "abierto" \/ status r = "cerrado" \/ status r = "error")
    /\ (service r <> None <-> status r = "abierto")
    /\ (error r <> None <-> status r = "error").
Proof.
  intros env host p timeout r.
  destruct (scan_port_cases env host p timeout)
    as [s Hc Hs | e Hc Hs He | e Hc Hs He | code Hc Hne | e Hc He | e Hc He].
  - rewrite (scan_port_open env host p timeout s Hc Hs). cbn. intros [= <-]. cbn.
    repeat split; auto; try discriminate; intros H; try reflexivity; contradiction.
  - rewrite (scan_port_open_unknown env host p timeout e Hc Hs He). cbn. intros [= <-].
    cbn. repeat split; auto; try discriminate; intros H; try reflexivity; contradiction.
  - rewrite (scan_port_lookup_escapes env host p timeout e Hc Hs He). discriminate.
  - rewrite (scan_port_closed env host p timeout code Hc Hne). cbn. intros [= <-]. cbn.
    repeat split; auto; try discriminate; intros H; try reflexivity; contradiction.
  - rewrite (scan_port_error env host p timeout e Hc He). cbn. intros [= <-]. cbn.
    repeat split; auto; try discriminate; intros H; try reflexivity; contradiction.
  - rewrite (scan_port_escapes env host p timeout e Hc He). discriminate.
Qed.

Lemma X1_scan_port_result_shape_witness :
  final (scan_port example_env "localhost" 3 1%Q)
    = Return (mkPortResult 3 "error" None (Some "[Errno 24] Too many open files"))
  /\ (error (mkPortResult 3 "error" None (Some "[Errno 24] Too many open files")) <> None
      <-> status (mkPortResult 3 "error" None (Some "[Errno 24] Too many open files"))
          = "error").
Proof.
  split; [reflexivity |].
  apply (X1_scan_port_result_shape example_env "localhost" 3 1%Q). reflexivity.
Defined.

(** ** Failures before the first probe *)

(** X2: [scan_ports] handles [socket.gaierror] only.  Any other exception
    raised by the name resolution, a socket error such as [socket.herror]
    included, reaches the caller unchanged; by then the header is the only
    line printed and no probe has been submitted. *)
Theorem X2_other_resolution_failures_propagate :
  forall env sig sched host start_port end_port timeout max_workers e,
    gethostbyname env host = Raise e ->
    is_gaierror e = false ->
    let run := scan_ports env sig sched host start_port end_port timeout max_workers in
    final run = Raise e
    /\ printed (events run) = [ScanHeader host start_port end_port]
    /\ submissions (events run) = [].
Proof.
  intros env sig sched host start_port end_port timeout max_workers e Hg He run.
  subst run.
  rewrite (scan_ports_resolution_escapes env sig sched host start_port end_port timeout
             max_workers e Hg He).
  repeat split; reflexivity.
Qed.

Lemma X2_other_resolution_failures_propagate_witness :
  (gethostbyname idna_env "a..b"
   = Raise (ValueError "encoding with 'idna' codec failed (UnicodeError: label empty or too long)")
   /\ is_gaierror
        (ValueError "encoding with 'idna' codec failed (UnicodeError: label empty or too long)")
      = false)
  /\ final (scan_ports idna_env NoSigint first_come "a..b" 1 1024 1%Q 100)
     = Raise (ValueError "encoding with 'idna' codec failed (UnicodeError: label empty or too long)").
Proof.
  split; [split; reflexivity |].
  apply (X2_other_resolution_failures_propagate idna_env NoSigint first_come
           "a..b" 1 1024 1%Q 100
           (ValueError "encoding with 'idna' codec failed (UnicodeError: label empty or too long)"));
    reflexivity.
Defined.

(** X3: [max_workers] is looked at only after the name resolution and the
    measuring of the range.  For a host that resolves and a range of at
    most [sys.maxsize] ports, a bound that is not positive ends the call in
    the executor's [ValueError] after the address has been printed and
    before any probe; for a longer range the call ends in the
    [OverflowError] of [len] before the executor is built; for a host that
    does not resolve, the same call returns the empty list. *)
Theorem X3_pool_bound_checked_after_resolution :
  forall env sig sched host start_port end_port timeout max_workers,
    max_workers <= 0 ->
    let run := scan_ports env sig sched host start_port end_port timeout max_workers in
    (forall target_ip,
       gethostbyname env host = Return target_ip ->
       (end_port - start_port < sys_maxsize ->
        run = ([Stdout (ScanHeader host start_port end_port);
                CallGethostbyname host;
                Stdout (ResolvedIP target_ip);
                CallThreadPoolExecutor max_workers],
               Raise (ValueError "max_workers must be greater than 0")))
       /\ (sys_maxsize <= end_port - start_port ->
           run = ([Stdout (ScanHeader host start_port end_port);
                   CallGethostbyname host;
                   Stdout (ResolvedIP target_ip)],
                  Raise (OverflowError "Python int too large to convert to C ssize_t"))))
    /\ (forall msg,
          gethostbyname env host = Raise (gaierror msg) ->
          final run = Return []).
Proof.
  intros env sig sched host start_port end_port timeout max_workers Hmw run.
  subst run. split.
  - intros target_ip Hg. split.
    + intros Hfits. apply range_fits in Hfits.
      rewrite (scan_ports_resolved env sig sched host start_port end_port timeout
                 max_workers target_ip Hg Hfits).
      rewrite (scan_body_bad_pool env sig sched host start_port end_port timeout
                 max_workers Hmw).
      reflexivity.
    + intros Hlong.
      apply (scan_ports_too_long env sig sched host start_port end_port timeout
               max_workers target_ip Hg).
      rewrite range_length. pose proof sys_maxsize_pos. lia.
  - intros msg Hg.
    rewrite (scan_ports_unresolved env sig sched host start_port end_port timeout
               max_workers (gaierror msg) Hg eq_refl).
    reflexivity.
Qed.

Lemma X3_pool_bound_checked_after_resolution_witness :
  (-4 <= 0 /\ gethostbyname example_env "localhost" = Return "127.0.0.1"
   /\ 1024 - 1 < sys_maxsize)
  /\ final (scan_ports example_env NoSigint first_come "localhost" 1 1024 1%Q (-4))
     = Raise (ValueError "max_workers must be greater than 0").
Proof.
  split; [split; [lia | split; reflexivity] |].
  rewrite (proj1 (proj1 (X3_pool_bound_checked_after_resolution example_env NoSigint
                           first_come "localhost" 1 1024 1%Q (-4) ltac:(lia))
                    "127.0.0.1" eq_refl) eq_refl).
  reflexivity.
Defined.

(** ** Scans that run to their end *)

Lemma probe_returns env host timeout ports :
  only_socket_errors env host timeout ports ->
  forall p, In p ports -> exists r, probed env host timeout p r.
Proof.
  intros Hsock p Hp. destruct (Hsock p Hp) as [Hconn Hserv]. unfold probed.
  destruct (scan_port_cases env host p timeout)
    as [s Hc Hs | e Hc Hs He | e Hc Hs He | code Hc Hne | e Hc He | e Hc He].
  - rewrite (scan_port_open env host p timeout s Hc Hs). eexists; reflexivity.
  - rewrite (scan_port_open_unknown env host p timeout e Hc Hs He). eexists; reflexivity.
  - rewrite (Hserv e Hs) in He. discriminate.
  - rewrite (scan_port_closed env host p timeout code Hc Hne). eexists; reflexivity.
  - rewrite (scan_port_error env host p timeout e Hc He). eexists; reflexivity.
  - rewrite (Hconn e Hc) in He. discriminate.
Qed.

Lemma probed_all env host timeout ps :
  (forall p, In p ps -> exists r, probed env host timeout p r) ->
  exists rs, Forall2 (probed env host timeout) ps rs.
Proof.
  induction ps as [| p ps IH]; intros Hall.
  - exists []. constructor.
  - destruct (Hall p (or_introl eq_refl)) as [r Hr].
    destruct IH as [rs Hrs]; [intros q Hq; apply Hall; right; exact Hq |].
    exists (r :: rs). constructor; assumption.
Qed.

Lemma range_results_increasing env host timeout a b rs :
  Forall2 (probed env host timeout) (range a b) rs ->
  StronglySorted port_lt (filter is_open rs).
Proof.
  intros Hrs. apply StronglySorted_filter, by_port_increasing.
  rewrite (probed_ports env host timeout _ _ Hrs). apply range_increasing.
Qed.

(** What a scan returns, written without the schedule: the open results of
    the ports of the range, in range order. *)
Lemma scan_ports_in_range_order env sig sched host start_port end_port timeout
    max_workers target_ip rs :
  gethostbyname env host = Return target_ip ->
  end_port - start_port < sys_maxsize ->
  0 < max_workers ->
  quiet (during_dispatch sig) (length (range start_port (end_port + 1))) ->
  quiet (during_collect sig) (length (range start_port (end_port + 1))) ->
  Forall2 (probed env host timeout) (range start_port (end_port + 1)) rs ->
  final (scan_ports env sig sched host start_port end_port timeout max_workers)
  = Return (filter is_open rs).
Proof.
  intros Hg Hfits Hmw Hd Hc Hrs. apply range_fits in Hfits.
  assert (HP : Permutation (range start_port (end_port + 1))
                 (as_completed max_workers sched (range start_port (end_port + 1))))
    by (symmetry; apply as_completed_perm, Hmw).
  destruct (probed_perm env host timeout _ _ rs HP Hrs) as [rs' [Hrs' HPrs]].
  rewrite (scan_ports_resolved env sig sched host start_port end_port timeout
             max_workers target_ip Hg Hfits).
  rewrite (scan_body_run env sig sched host start_port end_port timeout max_workers
             rs' Hmw Hd Hc Hrs').
  cbn [final snd]. f_equal.
  apply strictly_ascending_unique.
  - apply sorted_open_strict.
    eapply completed_results_NoDup; [exact Hmw | apply range_NoDup | exact Hrs'].
  - eapply range_results_increasing, Hrs.
  - rewrite sorted_perm. apply filter_perm. symmetry. exact HPrs.
Qed.

(** A scan that returns for a host that resolves has had a result from the
    probe of every port of the range. *)
Lemma scan_ports_returned_results env sig sched host start_port end_port timeout
    max_workers target_ip l :
  gethostbyname env host = Return target_ip ->
  final (scan_ports env sig sched host start_port end_port timeout max_workers)
    = Return l ->
  0 < max_workers
  /\ end_port - start_port < sys_maxsize
  /\ exists rs,
       Forall2 (probed env host timeout) (range start_port (end_port + 1)) rs
       /\ l = filter is_open rs.
Proof.
  intros Hg Hret.
  destruct (scan_ports_paths env host timeout sig sched start_port end_port max_workers)
    as [e Hg' He Hrun | e Hg' He Hrun | ip Hg' Hmw Hrun | ip k Hg' Hmw Hsig Hk Hrun
        | ip rs e Hg' Hmw Hlen Hrs He' Hrun | ip rs Hg' Hmw Hd Hc Hrs Hrun Hsize
        | ip Hg' Hsize Hrun];
    try congruence; rewrite Hrun in Hret; cbn [final snd] in Hret; try discriminate Hret.
  apply range_fits in Hsize.
  split; [exact Hmw |]. split; [exact Hsize |].
  assert (HP : Permutation
                 (as_completed max_workers sched (range start_port (end_port + 1)))
                 (range start_port (end_port + 1)))
    by (apply as_completed_perm, Hmw).
  destruct (probed_perm env host timeout _ _ rs HP Hrs) as [rs0 [Hrs0 _]].
  exists rs0. split; [exact Hrs0 |].
  pose proof (scan_ports_in_range_order env sig sched host start_port end_port timeout
                max_workers ip rs0 Hg' Hsize Hmw Hd Hc Hrs0) as Hcanon.
  rewrite Hrun in Hcanon. cbn [final snd] in Hcanon. congruence.
Qed.

(** A scan that has printed its closing lines, event by event. *)
Lemma scan_completed_events env sig sched host start_port end_port timeout max_workers :
  scan_completed (scan_ports env sig sched host start_port end_port timeout max_workers) ->
  exists target_ip rs,
    Forall2 (probed env host timeout)
      (as_completed max_workers sched (range start_port (end_port + 1))) rs
    /\ 0 < max_workers
    /\ scan_ports env sig sched host start_port end_port timeout max_workers
       = (scan_opening host start_port end_port max_workers target_ip
            ++ map (fun p => Submit host p timeout) (range start_port (end_port + 1))
            ++ loop_events (Z.of_nat (length (range start_port (end_port + 1)))) 0 rs
            ++ [Stdout (ScanFooter (length (filter is_open rs)))],
          Return (sorted (filter is_open rs))).
Proof.
  intros [n Hn]. apply footers_In in Hn.
  destruct (scan_ports_paths env host timeout sig sched start_port end_port max_workers)
    as [e Hg He Hrun | e Hg He Hrun | ip Hg Hmw Hrun | ip k Hg Hmw Hsig Hk Hrun
        | ip rs e Hg Hmw Hlen Hrs He' Hrun | ip rs Hg Hmw Hd Hc Hrs Hrun
        | ip Hg Hsize Hrun];
    rewrite Hrun in Hn; cbn [events fst] in Hn.
  - destruct Hn.
  - destruct Hn.
  - destruct Hn.
  - rewrite footers_app, footers_submits in Hn. destruct Hn.
  - rewrite !footers_app, footers_submits, footers_loop_events in Hn. destruct Hn.
  - exists ip, rs. auto.
  - destruct Hn.
Qed.

(** X4: if the socket library raises nothing but socket errors on the
    ports of the range with the timeout given, a scan of a host that
    resolves, over at most [sys.maxsize] ports, with a positive bound and
    no interrupt, always runs to its end: it prints its closing lines and
    returns the open results of the ports of the range, in range order. *)
Theorem X4_scan_completes_despite_socket_errors :
  forall env sched host start_port end_port timeout max_workers target_ip,
    only_socket_errors env host timeout (range start_port (end_port + 1)) ->
    gethostbyname env host = Return target_ip ->
    end_port - start_port < sys_maxsize ->
    0 < max_workers ->
    let run := scan_ports env NoSigint sched host start_port end_port timeout max_workers in
    scan_completed run
    /\ exists rs,
         Forall2 (probed env host timeout) (range start_port (end_port + 1)) rs
         /\ final run = Return (filter is_open rs).
Proof.
  intros env sched host start_port end_port timeout max_workers target_ip Hsock Hg Hfits
         Hmw run.
  subst run.
  pose proof (probe_returns env host timeout _ Hsock) as Hall.
  destruct (probed_all env host timeout (range start_port (end_port + 1)) Hall)
    as [rs Hrs].
  assert (HP : Permutation (range start_port (end_port + 1))
                 (as_completed max_workers sched (range start_port (end_port + 1))))
    by (symmetry; apply as_completed_perm, Hmw).
  destruct (probed_perm env host timeout _ _ rs HP Hrs) as [rs' [Hrs' _]].
  split.
  - exists (length (filter is_open rs')).
    rewrite (scan_ports_resolved env NoSigint sched host start_port end_port timeout
               max_workers target_ip Hg (proj1 (range_fits _ _) Hfits)).
    rewrite (scan_body_run env NoSigint sched host start_port end_port timeout
               max_workers rs' Hmw I I Hrs').
    cbn [events fst]. apply in_or_app. right. apply in_cons.
    apply in_or_app. right. apply in_or_app. right. left. reflexivity.
  - exists rs. split; [exact Hrs |].
    apply (scan_ports_in_range_order env NoSigint sched host start_port end_port
             timeout max_workers target_ip rs Hg Hfits Hmw I I Hrs).
Qed.

(** The example host raises nothing but socket errors on valid ports with a
    timeout that is not negative. *)
Lemma example_env_only_socket_errors host timeout ports :
  Qle_bool 0 timeout = true ->
  (forall p, In p ports -> 0 <= p <= 65535) ->
  only_socket_errors example_env host timeout ports.
Proof.
  intros Ht Hports p Hp. specialize (Hports p Hp).
  assert (Hvalid : valid_port p = true).
  { unfold valid_port. apply andb_true_intro. split; apply Z.leb_le; lia. }
  split; intros e; simpl; rewrite ?Ht, Hvalid; simpl.
  - destruct ((p =? 22) || (p =? 8080)); [discriminate |].
    destruct (p =? 3); [intros [= <-]; reflexivity |].
    destruct (p =? 81); discriminate.
  - destruct (p =? 22); [discriminate |].
    intros [= <-]. reflexivity.
Qed.

Lemma X4_scan_completes_despite_socket_errors_witness :
  (only_socket_errors example_env "localhost" 1%Q (range 1 (4 + 1))
   /\ gethostbyname example_env "localhost" = Return "127.0.0.1"
   /\ 4 - 1 < sys_maxsize
   /\ 0 < 2)
  /\ scan_completed (scan_ports example_env NoSigint busy "localhost" 1 4 1%Q 2).
Proof.
  assert (Hsock : only_socket_errors example_env "localhost" 1%Q (range 1 (4 + 1))).
  { apply example_env_only_socket_errors; [reflexivity |].
    intros p Hp. apply range_In in Hp. lia. }
  split; [split; [exact Hsock | split; [reflexivity | split; [reflexivity | lia]]] |].
  apply (X4_scan_completes_despite_socket_errors example_env busy "localhost" 1 4 1%Q 2
           "127.0.0.1" Hsock eq_refl eq_refl).
  lia.
Defined.

(** ** Scans of adjacent ranges *)

Lemma map_seq_from {A} y : forall (f : nat -> A) x,
  map f (seq x y) = map (fun i => f (x + i)%nat) (seq 0 y).
Proof.
  induction y as [| y IH]; intros f x; [reflexivity |].
  simpl. rewrite Nat.add_0_r. f_equal.
  rewrite (IH f (S x)), (IH (fun i => f (x + i)%nat) 1%nat).
  apply map_ext. intros i. f_equal. lia.
Qed.

Lemma range_app a m n :
  a <= m -> m <= n -> range a n = range a m ++ range m n.
Proof.
  intros Ham Hmn. unfold range.
  replace (Z.to_nat (n - a)) with (Z.to_nat (m - a) + Z.to_nat (n - m))%nat by lia.
  rewrite seq_app, map_app. f_equal. simpl.
  rewrite map_seq_from. apply map_ext. intros i. lia.
Qed.

Lemma Forall2_probed_app env host timeout ps1 ps2 rs1 rs2 :
  Forall2 (probed env host timeout) ps1 rs1 ->
  Forall2 (probed env host timeout) ps2 rs2 ->
  Forall2 (probed env host timeout) (ps1 ++ ps2) (rs1 ++ rs2).
Proof. apply Forall2_app. Qed.

Lemma range_count_up n a : range a (a + Z.of_nat n) = count_up n a.
Proof.
  revert a. induction n as [| n IH]; intros a.
  - unfold range. replace (a + Z.of_nat 0 - a) with 0 by lia. reflexivity.
  - rewrite (range_app a (a + 1) (a + Z.of_nat (S n))) by lia.
    replace (a + Z.of_nat (S n)) with (a + 1 + Z.of_nat n) by lia.
    rewrite IH. unfold range. replace (a + 1 - a) with 1 by lia.
    simpl. rewrite Z.add_0_r. reflexivity.
Qed.

Lemma open_results_probed env host timeout ps l :
  open_results env host timeout ps = Some l ->
  exists rs, Forall2 (probed env host timeout) ps rs /\ l = filter is_open rs.
Proof.
  revert l. induction ps as [| p ps IH]; simpl; intros l Hl.
  - injection Hl as <-. exists []. split; [constructor | reflexivity].
  - destruct (final (scan_port env host p timeout)) as [r | e] eqn:Hr; [| discriminate].
    destruct (open_results env host timeout ps) as [l' |]; [| discriminate].
    injection Hl as <-. destruct (IH l' eq_refl) as [rs [Hrs ->]].
    exists (r :: rs). split; [constructor; assumption |].
    simpl. destruct (is_open r); reflexivity.
Qed.

Lemma scan_ports_by_probing env sched host start_port end_port timeout max_workers
    target_ip l :
  gethostbyname env host = Return target_ip ->
  end_port - start_port < sys_maxsize ->
  0 < max_workers ->
  open_results env host timeout (count_up (Z.to_nat (end_port + 1 - start_port)) start_port)
  = Some l ->
  final (scan_ports env NoSigint sched host start_port end_port timeout max_workers)
  = Return l.
Proof.
  intros Hg Hfits Hmw Hl.
  destruct (open_results_probed _ _ _ _ _ Hl) as [rs [Hrs ->]].
  apply (scan_ports_in_range_order env NoSigint sched host start_port end_port timeout
           max_workers target_ip rs Hg Hfits Hmw I I).
  destruct (Z.le_gt_cases start_port (end_port + 1)) as [Hle | Hgt].
  - replace (end_port + 1)
      with (start_port + Z.of_nat (Z.to_nat (end_port + 1 - start_port))) by lia.
    rewrite range_count_up. exact Hrs.
  - unfold range. replace (Z.to_nat (end_port + 1 - start_port)) with 0%nat in * by lia.
    exact Hrs.
Qed.

(** X5: scans compose along adjacent ranges.  If the scans of [a..b] and of
    [b+1..c] return, each under a schedule of its own, and [a..c] has at
    most [sys.maxsize] ports, then the scan of [a..c] returns the first list
    followed by the second, under any schedule. *)
Theorem X5_adjacent_ranges_concatenate :
  forall env sched1 sched2 sched3 host a b c timeout max_workers l1 l2,
    a <= b + 1 ->
    b <= c ->
    c - a < sys_maxsize ->
    final (scan_ports env NoSigint sched1 host a b timeout max_workers) = Return l1 ->
    final (scan_ports env NoSigint sched2 host (b + 1) c timeout max_workers) = Return l2 ->
    final (scan_ports env NoSigint sched3 host a c timeout max_workers)
    = Return (l1 ++ l2).
Proof.
  intros env sched1 sched2 sched3 host a b c timeout max_workers l1 l2 Hab Hbc Hfits H1 H2.
  destruct (gethostbyname env host) as [target_ip | e] eqn:Hg.
  - destruct (scan_ports_returned_results env NoSigint sched1 host a b timeout
                max_workers target_ip l1 Hg H1) as [Hmw [_ [rs1 [Hrs1 ->]]]].
    destruct (scan_ports_returned_results env NoSigint sched2 host (b + 1) c timeout
                max_workers target_ip l2 Hg H2) as [_ [_ [rs2 [Hrs2 ->]]]].
    rewrite <- filter_app.
    apply (scan_ports_in_range_order env NoSigint sched3 host a c timeout max_workers
             target_ip (rs1 ++ rs2) Hg Hfits Hmw I I).
    rewrite (range_app a (b + 1) (c + 1)) by lia.
    apply Forall2_probed_app; assumption.
  - destruct (is_gaierror e) eqn:He.
    + rewrite (scan_ports_unresolved env NoSigint sched1 host a b timeout max_workers
                 e Hg He) in H1.
      rewrite (scan_ports_unresolved env NoSigint sched2 host (b + 1) c timeout
                 max_workers e Hg He) in H2.
      rewrite (scan_ports_unresolved env NoSigint sched3 host a c timeout max_workers
                 e Hg He).
      cbn [final snd] in *. injection H1 as <-. injection H2 as <-. reflexivity.
    + rewrite (scan_ports_resolution_escapes env NoSigint sched1 host a b timeout
                 max_workers e Hg He) in H1.
      discriminate H1.
Qed.

Lemma X5_adjacent_ranges_concatenate_witness :
  (20 <= 22 + 1 /\ 22 <= 8080 /\ 8080 - 20 < sys_maxsize
   /\ final (scan_ports example_env NoSigint busy "localhost" 20 22 1%Q 2)
      = Return [mkPortResult 22 "abierto" (Some "ssh") None]
   /\ final (scan_ports example_env NoSigint first_come "localhost" (22 + 1) 8080 1%Q 2)
      = Return [mkPortResult 8080 "abierto" (Some "desconocido") None])
  /\ final (scan_ports example_env NoSigint busy "localhost" 20 8080 1%Q 2)
     = Return ([mkPortResult 22 "abierto" (Some "ssh") None]
                 ++ [mkPortResult 8080 "abierto" (Some "desconocido") None]).
Proof.
  assert (H1 : final (scan_ports example_env NoSigint busy "localhost" 20 22 1%Q 2)
               = Return [mkPortResult 22 "abierto" (Some "ssh") None])
    by (vm_compute; reflexivity).
  assert (H2 : final (scan_ports example_env NoSigint first_come "localhost" (22 + 1)
                        8080 1%Q 2)
               = Return [mkPortResult 8080 "abierto" (Some "desconocido") None])
    by (apply (scan_ports_by_probing example_env first_come "localhost" (22 + 1) 8080
                 1%Q 2 "127.0.0.1" _ eq_refl eq_refl eq_refl);
        vm_compute; reflexivity).
  split; [split; [lia | split; [lia | split; [reflexivity | split; assumption]]] |].
  apply (X5_adjacent_ranges_concatenate example_env busy first_come busy "localhost"
           20 22 8080 1%Q 2 _ _ ltac:(lia) ltac:(lia) eq_refl H1 H2).
Defined.

(** ** What a completed scan prints *)

Lemma range_cons a b : a < b -> range a b = a :: range (a + 1) b.
Proof.
  intros Hab. rewrite (range_app a (a + 1) b) by lia.
  unfold range at 1. replace (a + 1 - a) with 1 by lia. simpl.
  rewrite Z.add_0_r. reflexivity.
Qed.

Lemma progress_of_app a b : progress_of (a ++ b) = progress_of a ++ progress_of b.
Proof. apply flat_map_app. Qed.

Lemma announced_app a b : announced (a ++ b) = announced a ++ announced b.
Proof. apply flat_map_app. Qed.

(** The lines one round of the collection loop prints. *)
Lemma printed_round total_ports scanned r rest :
  printed (round_events total_ports scanned r ++ rest)
  = (if is_open r then [OpenPort (port r) (service r)] else [])
      ++ (if (scanned + 1) mod 100 =? 0 then [Progress (scanned + 1) total_ports] else [])
      ++ printed rest.
Proof.
  unfold round_events.
  destruct (is_open r); destruct ((scanned + 1) mod 100 =? 0); reflexivity.
Qed.

Lemma progress_loop_events total_ports rs : forall scanned,
  progress_of (printed (loop_events total_ports scanned rs))
  = map (fun n => (n, total_ports))
        (filter (fun n => n mod 100 =? 0)
           (range (scanned + 1) (scanned + 1 + Z.of_nat (length rs)))).
Proof.
  induction rs as [| r rest IH]; intros scanned.
  - simpl. rewrite range_empty by lia. reflexivity.
  - cbn [loop_events length]. rewrite printed_round, !progress_of_app, IH.
    rewrite (range_cons (scanned + 1)) by lia.
    replace (scanned + 1 + Z.of_nat (S (length rest)))
      with (scanned + 1 + 1 + Z.of_nat (length rest)) by lia.
    cbn [filter].
    destruct (is_open r); destruct ((scanned + 1) mod 100 =? 0); reflexivity.
Qed.

Lemma announced_loop_events total_ports rs : forall scanned,
  announced (printed (loop_events total_ports scanned rs))
  = map (fun r => (port r, service r)) (filter is_open rs).
Proof.
  induction rs as [| r rest IH]; intros scanned; [reflexivity |].
  cbn [loop_events filter]. rewrite printed_round, !announced_app, IH.
  destruct (is_open r); destruct ((scanned + 1) mod 100 =? 0); reflexivity.
Qed.

Lemma filter_none {A} (f : A -> bool) l :
  (forall x, In x l -> f x = false) -> filter f l = [].
Proof.
  induction l as [| x l IH]; intros H; [reflexivity |].
  simpl. rewrite (H x (or_introl eq_refl)). apply IH.
  intros y Hy. apply H. right. exact Hy.
Qed.

(** The lines of a completed scan, block by block. *)
Lemma printed_completed_run host start_port end_port timeout max_workers target_ip
    ports total rs n :
  printed (scan_opening host start_port end_port max_workers target_ip
             ++ map (fun p => Submit host p timeout) ports
             ++ loop_events total 0 rs
             ++ [Stdout (ScanFooter n)])
  = [ScanHeader host start_port end_port; ResolvedIP target_ip]
      ++ printed (loop_events total 0 rs) ++ [ScanFooter n].
Proof.
  rewrite !printed_app, printed_submits. reflexivity.
Qed.

(** X6: a completed scan prints a progress line after every hundredth
    result and at no other time: its progress lines are, in order, the
    multiples of 100 up to the number of ports of the range, each with that
    number as the total.  A scan of fewer than 100 ports prints none. *)
Theorem X6_progress_every_hundred_results :
  forall env sig sched host start_port end_port timeout max_workers,
    let run := scan_ports env sig sched host start_port end_port timeout max_workers in
    let total_ports := Z.of_nat (length (range start_port (end_port + 1))) in
    scan_completed run ->
    progress_of (printed (events run))
    = map (fun n => (n, total_ports))
          (filter (fun n => n mod 100 =? 0) (range 1 (total_ports + 1)))
    /\ (total_ports < 100 -> progress_of (printed (events run)) = []).
Proof.
  intros env sig sched host start_port end_port timeout max_workers run total_ports Hdone.
  subst run.
  destruct (scan_completed_events env sig sched host start_port end_port timeout
              max_workers Hdone) as [ip [rs [Hrs [Hmw Hrun]]]].
  assert (Hlen : Z.of_nat (length rs) = total_ports).
  { subst total_ports. f_equal.
    rewrite <- (Forall2_length Hrs).
    apply Permutation_length, as_completed_perm, Hmw. }
  assert (Hprog : progress_of
                    (printed
                       (events (scan_ports env sig sched host start_port end_port
                                  timeout max_workers)))
                  = map (fun n => (n, total_ports))
                      (filter (fun n => n mod 100 =? 0) (range 1 (total_ports + 1)))).
  { rewrite Hrun. cbn [events fst].
    rewrite printed_completed_run, !progress_of_app.
    fold total_ports. rewrite progress_loop_events, Hlen.
    cbn [progress_of flat_map app]. rewrite app_nil_r.
    replace (0 + 1 + total_ports) with (total_ports + 1) by lia. reflexivity. }
  split; [exact Hprog |].
  intros Hsmall. rewrite Hprog.
  replace (filter (fun n => n mod 100 =? 0) (range 1 (total_ports + 1))) with (@nil Z);
    [reflexivity |].
  symmetry. apply filter_none. intros n Hn. apply range_In in Hn.
  rewrite Z.mod_small by lia. destruct (Z.eqb_spec n 0); [lia | reflexivity].
Qed.

Lemma X6_progress_every_hundred_results_witness :
  scan_completed (scan_ports example_env NoSigint busy "localhost" 1 250 1%Q 16)
  /\ progress_of
       (printed (events (scan_ports example_env NoSigint busy "localhost" 1 250 1%Q 16)))
     = [(100, 250); (200, 250)].
Proof.
  assert (Hdone : scan_completed
                    (scan_ports example_env NoSigint busy "localhost" 1 250 1%Q 16)).
  { exists 1%nat. refine (proj2 (in_rev _ _) _). vm_compute. left. reflexivity. }
  split; [exact Hdone |].
  rewrite (proj1 (X6_progress_every_hundred_results example_env NoSigint busy
                    "localhost" 1 250 1%Q 16 Hdone)).
  vm_compute. reflexivity.
Defined.

(** X7: in a completed scan the count in the closing lines is the length of
    the list returned, and the ports announced as open while the scan ran
    are, up to their order, the ports of that list with their service
    names: every returned port was announced once, and nothing else was. *)
Theorem X7_announcements_match_the_result :
  forall env sig sched host start_port end_port timeout max_workers,
    let run := scan_ports env sig sched host start_port end_port timeout max_workers in
    scan_completed run ->
    exists l,
      final run = Return l
      /\ footers (events run) = [length l]
      /\ Permutation (announced (printed (events run)))
           (map (fun r => (port r, service r)) l).
Proof.
  intros env sig sched host start_port end_port timeout max_workers run Hdone.
  subst run.
  destruct (scan_completed_events env sig sched host start_port end_port timeout
              max_workers Hdone) as [ip [rs [Hrs [Hmw Hrun]]]].
  exists (sorted (filter is_open rs)). rewrite Hrun. cbn [events final fst snd].
  split; [reflexivity |]. split.
  - rewrite !footers_app, footers_submits, footers_loop_events.
    cbn [footers flat_map app scan_opening].
    rewrite (Permutation_length (sorted_perm (filter is_open rs))). reflexivity.
  - rewrite printed_completed_run, !announced_app, announced_loop_events.
    cbn [announced flat_map app]. rewrite app_nil_r.
    apply Permutation_map. symmetry. apply sorted_perm.
Qed.

Lemma X7_announcements_match_the_result_witness :
  scan_completed (scan_ports example_env NoSigint busy "localhost" 20 24 1%Q 2)
  /\ exists l,
       final (scan_ports example_env NoSigint busy "localhost" 20 24 1%Q 2) = Return l
       /\ footers (events (scan_ports example_env NoSigint busy "localhost" 20 24 1%Q 2))
          = [length l].
Proof.
  assert (Hdone : scan_completed
                    (scan_ports example_env NoSigint busy "localhost" 20 24 1%Q 2)).
  { exists 1%nat. refine (proj2 (in_rev _ _) _). vm_compute. left. reflexivity. }
  split; [exact Hdone |].
  destruct (X7_announcements_match_the_result example_env NoSigint busy "localhost"
              20 24 1%Q 2 Hdone) as [l [Hl [Hf _]]].
  exists l. split; assumption.
Defined.

(** * Further properties of the quick scan *)

Lemma printed_scan_port env host p timeout :
  printed (events (scan_port env host p timeout)) = [].
Proof.
  destruct (scan_port_events env host p timeout) as [-> | [_ ->]]; reflexivity.
Qed.

(** A loop over ports whose probes all return. *)
Lemma quick_loop_run env host ports rs :
  Forall2 (probed env host (1 # 2)) ports rs ->
  forall acc,
  final (quick_loop env host ports acc) = Return (acc ++ filter is_open rs)
  /\ printed (events (quick_loop env host ports acc))
     = map (fun r => OpenPort (port r) (service r)) (filter is_open rs).
Proof.
  induction 1 as [| p r ports rs Hp Hrest IH]; intros acc.
  - simpl. rewrite app_nil_r. split; reflexivity.
  - rewrite (quick_loop_round env host p ports acc r Hp). cbn [final events fst snd].
    destruct (IH (if is_open r then acc ++ [r] else acc)) as [Hfin Hpr].
    rewrite Hfin, !printed_app, printed_scan_port, Hpr. cbn [filter].
    destruct (is_open r); [rewrite <- (app_assoc acc [r]) |]; split; reflexivity.
Qed.

Lemma quick_loop_raised env host ports :
  forall acc e,
  final (quick_loop env host ports acc) = Raise e -> is_OSError e = false.
Proof.
  induction ports as [| p rest IH]; intros acc e Hraise; [discriminate Hraise |].
  destruct (final (scan_port env host p (1 # 2))) as [r | e'] eqn:Hp.
  - rewrite (quick_loop_round env host p rest acc r Hp) in Hraise.
    eapply IH. exact Hraise.
  - rewrite (quick_loop_raises env host p rest acc e' Hp) in Hraise.
    cbn in Hraise. injection Hraise as <-.
    eapply scan_port_raises. exact Hp.
Qed.

(** A quick scan whose probes all return, event by event. *)
Lemma quick_scan_run env host rs :
  Forall2 (probed env host (1 # 2)) common_ports rs ->
  final (quick_scan env host) = Return (filter is_open rs)
  /\ printed (events (quick_scan env host))
     = QuickHeader host (length common_ports)
       :: map (fun r => OpenPort (port r) (service r)) (filter is_open rs)
       ++ [QuickTotal (length (filter is_open rs))].
Proof.
  intros Hrs. destruct (quick_loop_run env host common_ports rs Hrs []) as [Hfin Hpr].
  rewrite quick_scan_unfold. cbn [final events fst snd].
  rewrite (bind_Return _ _ _ Hfin). unfold print, emit, ret, bind.
  cbn [final events fst snd app].
  split; [reflexivity |].
  change (Stdout (QuickHeader host (length common_ports))
            :: events (quick_loop env host common_ports [])
               ++ [Stdout (QuickTotal (length (filter is_open rs)))])
    with ([Stdout (QuickHeader host (length common_ports))]
            ++ events (quick_loop env host common_ports [])
               ++ [Stdout (QuickTotal (length (filter is_open rs)))]).
  rewrite !printed_app, Hpr. reflexivity.
Qed.

(** X8: a quick scan that returns gives back at most 22 results, each of
    status "abierto" and for one of the common ports; it has printed its
    header, then one "ABIERTO" line for each returned result, in the order
    of the returned list, and last the count of the returned results. *)
Theorem X8_quick_scan_result_and_output :
  forall env host l,
    final (quick_scan env host) = Return l ->
    Forall (fun r => status r = "abierto" /\ In (port r) common_ports) l
    /\ (length l <= 22)%nat
    /\ printed (events (quick_scan env host))
       = QuickHeader host 22
         :: map (fun r => OpenPort (port r) (service r)) l ++ [QuickTotal (length l)].
Proof.
  intros env host l Hret.
  apply quick_scan_returned, quick_loop_returned in Hret as [rs [Hrs ->]].
  simpl app. destruct (quick_scan_run env host rs Hrs) as [_ Hpr].
  split; [| split; [| exact Hpr]].
  - apply Forall_forall. intros r Hr. apply filter_In in Hr as [Hin Ho].
    split; [apply String.eqb_eq, Ho |].
    rewrite <- (probed_ports env host (1 # 2) _ _ Hrs). apply in_map, Hin.
  - etransitivity; [apply filter_length_le |].
    rewrite <- (Forall2_length Hrs). reflexivity.
Qed.

Lemma X8_quick_scan_result_and_output_witness :
  final (quick_scan example_env "localhost")
    = Return [mkPortResult 22 "abierto" (Some "ssh") None;
              mkPortResult 8080 "abierto" (Some "desconocido") None]
  /\ printed (events (quick_scan example_env "localhost"))
     = [QuickHeader "localhost" 22; OpenPort 22 (Some "ssh");
        OpenPort 8080 (Some "desconocido"); QuickTotal 2].
Proof.
  split; [reflexivity |].
  apply (X8_quick_scan_result_and_output example_env "localhost"
           [mkPortResult 22 "abierto" (Some "ssh") None;
            mkPortResult 8080 "abierto" (Some "desconocido") None]).
  reflexivity.
Defined.

(** X9: a quick scan never ends in a socket error, whatever the socket
    library does; and if the library raises nothing but socket errors when
    the common ports are probed with the timeout of 0.5 s, the quick scan
    returns. *)
Theorem X9_quick_scan_survives_socket_errors :
  forall env host,
    (forall e, final (quick_scan env host) = Raise e -> is_OSError e = false)
    /\ (only_socket_errors env host (1 # 2) common_ports ->
        exists l, final (quick_scan env host) = Return l).
Proof.
  intros env host. split.
  - intros e. rewrite quick_scan_unfold. cbn [final snd]. intros Hraise.
    destruct (final (quick_loop env host common_ports [])) as [l | e'] eqn:Hq.
    + rewrite (bind_Return _ _ l Hq) in Hraise. discriminate Hraise.
    + rewrite (bind_Raise _ _ e' Hq) in Hraise. cbn in Hraise.
      injection Hraise as <-. eapply quick_loop_raised. exact Hq.
  - intros Hsock.
    destruct (probed_all env host (1 # 2) common_ports
                (probe_returns env host (1 # 2) common_ports Hsock)) as [rs Hrs].
    exists (filter is_open rs). apply (quick_scan_run env host rs Hrs).
Qed.

Lemma common_ports_valid p : In p common_ports -> 0 <= p <= 65535.
Proof.
  assert (Hall : Forall (fun y => 0 <= y <= 65535) common_ports)
    by (unfold common_ports; repeat (constructor; [lia |]); constructor).
  rewrite Forall_forall in Hall. apply Hall.
Qed.

Lemma X9_quick_scan_survives_socket_errors_witness :
  only_socket_errors example_env "localhost" (1 # 2) common_ports
  /\ exists l, final (quick_scan example_env "localhost") = Return l.
Proof.
  assert (Hsock : only_socket_errors example_env "localhost" (1 # 2) common_ports)
    by (apply example_env_only_socket_errors; [reflexivity | apply common_ports_valid]).
  split; [exact Hsock |].
  apply (proj2 (X9_quick_scan_survives_socket_errors example_env "localhost")).
  exact Hsock.
Defined.

(** ** The quick scan and the full scan *)

Lemma scan_port_timeout_free env host p t1 t2 :
  connect_ex env host p t1 = connect_ex env host p t2 ->
  final (scan_port env host p t1) = final (scan_port env host p t2).
Proof.
  intros Heq.
  destruct (scan_port_cases env host p t1)
    as [s Hc Hs | e Hc Hs He | e Hc Hs He | code Hc Hne | e Hc He | e Hc He];
    pose proof Hc as Hc'; rewrite Heq in Hc'.
  - rewrite (scan_port_open env host p t1 s Hc Hs),
            (scan_port_open env host p t2 s Hc' Hs). reflexivity.
  - rewrite (scan_port_open_unknown env host p t1 e Hc Hs He),
            (scan_port_open_unknown env host p t2 e Hc' Hs He). reflexivity.
  - rewrite (scan_port_lookup_escapes env host p t1 e Hc Hs He),
            (scan_port_lookup_escapes env host p t2 e Hc' Hs He). reflexivity.
  - rewrite (scan_port_closed env host p t1 code Hc Hne),
            (scan_port_closed env host p t2 code Hc' Hne). reflexivity.
  - rewrite (scan_port_error env host p t1 e Hc He),
            (scan_port_error env host p t2 e Hc' He). reflexivity.
  - rewrite (scan_port_escapes env host p t1 e Hc He),
            (scan_port_escapes env host p t2 e Hc' He). reflexivity.
Qed.

Lemma increasing_unique l1 l2 :
  StronglySorted Z.lt l1 -> StronglySorted Z.lt l2 ->
  (forall x, In x l1 <-> In x l2) -> l1 = l2.
Proof.
  intros H1. revert l2.
  induction H1 as [| x xs Hxs IH Hx]; intros l2 H2 Hsame.
  - destruct l2 as [| y ys]; [reflexivity |].
    destruct (proj2 (Hsame y) (or_introl eq_refl)).
  - destruct H2 as [| y ys Hys Hy].
    + destruct (proj1 (Hsame x) (or_introl eq_refl)).
    + rewrite Forall_forall in Hx, Hy.
      assert (x = y) as <-.
      { destruct (proj1 (Hsame x) (or_introl eq_refl)) as [-> | Hxin]; [reflexivity |].
        destruct (proj2 (Hsame y) (or_introl eq_refl)) as [-> | Hyin]; [reflexivity |].
        specialize (Hx _ Hyin). specialize (Hy _ Hxin). lia. }
      f_equal. apply IH; [exact Hys |].
      intros z. split; intros Hz.
      * destruct (proj1 (Hsame z) (or_intror Hz)) as [<- | Hin]; [| exact Hin].
        specialize (Hx _ Hz). lia.
      * destruct (proj2 (Hsame z) (or_intror Hz)) as [<- | Hin]; [| exact Hin].
        specialize (Hy _ Hz). lia.
Qed.

(** The common ports, picked out of a range that holds them all. *)
Lemma common_ports_of_range a b :
  a <= 21 -> 8443 < b ->
  filter (fun p => existsb (Z.eqb p) common_ports) (range a b) = common_ports.
Proof.
  intros Ha Hb. apply increasing_unique.
  - apply StronglySorted_filter, range_increasing.
  - apply common_ports_increasing.
  - intros x. rewrite filter_In, range_In, existsb_exists. split.
    + intros [_ [y [Hy Heq]]]. apply Z.eqb_eq in Heq. subst y. exact Hy.
    + intros Hx. split.
      * pose proof common_ports_increasing as Hs.
        assert (Hlo : Forall (fun y => 21 <= y <= 8443) common_ports)
          by (unfold common_ports; repeat (constructor; [lia |]); constructor).
        rewrite Forall_forall in Hlo. specialize (Hlo x Hx). lia.
      * exists x. split; [exact Hx | apply Z.eqb_refl].
Qed.

Lemma Forall2_probed_filter env host timeout (keep : Z -> bool) ps rs :
  Forall2 (probed env host timeout) ps rs ->
  Forall2 (probed env host timeout) (filter keep ps) (filter (fun r => keep (port r)) rs).
Proof.
  induction 1 as [| p r ps rs Hp Hrest IH]; [constructor |].
  simpl. rewrite (probed_port env host timeout p r Hp).
  destruct (keep p); [constructor; assumption | exact IH].
Qed.

Lemma filter_comm {A} (f g : A -> bool) l :
  filter f (filter g l) = filter g (filter f l).
Proof.
  induction l as [| x l IH]; [reflexivity |].
  simpl. destruct (f x) eqn:Hf; destruct (g x) eqn:Hg; simpl;
    rewrite ?Hf, ?Hg, IH; reflexivity.
Qed.

(** Results do not change with the timeout where the connection outcomes
    do not. *)
Lemma Forall2_probed_timeout env host t1 t2 ps rs :
  timeout_free env host t1 t2 ps ->
  Forall2 (probed env host t1) ps rs -> Forall2 (probed env host t2) ps rs.
Proof.
  intros Hfree Hrs. induction Hrs as [| p r ps rs Hp Hrest IH]; constructor.
  - unfold probed in *. rewrite <- Hp. symmetry.
    apply scan_port_timeout_free, Hfree. left. reflexivity.
  - apply IH. intros q Hq. apply Hfree. right. exact Hq.
Qed.

(** X10: the quick scan agrees with the full scan.  For a host whose
    connection outcomes on the common ports are the same with the timeout
    of the scan as with the 0.5 s of the quick scan, if a scan of a range
    that holds every common port returns, then the quick scan returns the
    results of that scan for the common ports, in the same order. *)
Theorem X10_quick_scan_agrees_with_full_scan :
  forall env sig sched host start_port end_port timeout max_workers target_ip l,
    timeout_free env host timeout (1 # 2) common_ports ->
    gethostbyname env host = Return target_ip ->
    start_port <= 21 ->
    8443 <= end_port ->
    final (scan_ports env sig sched host start_port end_port timeout max_workers)
      = Return l ->
    final (quick_scan env host) = Return (filter is_common l).
Proof.
  intros env sig sched host start_port end_port timeout max_workers target_ip l
         Hfree Hg Hlo Hhi Hret.
  destruct (scan_ports_returned_results env sig sched host start_port end_port timeout
              max_workers target_ip l Hg Hret) as [_ [_ [rs [Hrs ->]]]].
  pose proof (Forall2_probed_filter env host timeout
                (fun p => existsb (Z.eqb p) common_ports) _ _ Hrs) as Hcommon.
  rewrite common_ports_of_range in Hcommon by lia.
  assert (Hhalf : Forall2 (probed env host (1 # 2)) common_ports (filter is_common rs))
    by exact (Forall2_probed_timeout env host timeout (1 # 2) common_ports _ Hfree Hcommon).
  unfold is_common at 1. rewrite filter_comm.
  apply (quick_scan_run env host _ Hhalf).
Qed.

(** On the example host the timeout makes no difference, as long as it is
    not negative. *)
Lemma example_env_timeout_free host t1 t2 ports :
  Qle_bool 0 t1 = true -> Qle_bool 0 t2 = true ->
  timeout_free example_env host t1 t2 ports.
Proof. intros H1 H2 p _. simpl. rewrite H1, H2. reflexivity. Qed.

Lemma X10_quick_scan_agrees_with_full_scan_witness :
  (timeout_free example_env "localhost" 1%Q (1 # 2) common_ports
   /\ gethostbyname example_env "localhost" = Return "127.0.0.1"
   /\ 3 <= 21 /\ 8443 <= 8500
   /\ final (scan_ports example_env NoSigint busy "localhost" 3 8500 1%Q 50)
      = Return [mkPortResult 22 "abierto" (Some "ssh") None;
                mkPortResult 8080 "abierto" (Some "desconocido") None])
  /\ final (quick_scan example_env "localhost")
     = Return (filter is_common
                 [mkPortResult 22 "abierto" (Some "ssh") None;
                  mkPortResult 8080 "abierto" (Some "desconocido") None]).
Proof.
  assert (Hfull : final (scan_ports example_env NoSigint busy "localhost" 3 8500 1%Q 50)
                  = Return [mkPortResult 22 "abierto" (Some "ssh") None;
                            mkPortResult 8080 "abierto" (Some "desconocido") None])
    by (apply (scan_ports_by_probing example_env busy "localhost" 3 8500 1%Q 50
                 "127.0.0.1" _ eq_refl eq_refl eq_refl);
        vm_compute; reflexivity).
  assert (Hfree : timeout_free example_env "localhost" 1%Q (1 # 2) common_ports)
    by (apply example_env_timeout_free; reflexivity).
  split.
  - split; [exact Hfree |].
    split; [reflexivity |]. split; [lia |]. split; [lia | exact Hfull].
  - apply (X10_quick_scan_agrees_with_full_scan example_env NoSigint busy "localhost"
             3 8500 1%Q 50 "127.0.0.1" _ Hfree eq_refl ltac:(lia) ltac:(lia) Hfull).
Defined.

(** * The menus *)

Lemma menu_bind_Return {A B} (m : Menu A) (k : A -> Menu B) a :
  menu_final m = Return a ->
  menu_bind m k = (menu_events m ++ menu_events (k a), menu_final (k a)).
Proof.
  destruct m as [t o]; simpl; intros ->.
  unfold menu_bind. destruct (k a); reflexivity.
Qed.

Lemma menu_bind_Raise {A B} (m : Menu A) (k : A -> Menu B) e :
  menu_final m = Raise e ->
  menu_bind m k = (menu_events m, Raise e).
Proof.
  destruct m as [t o]; simpl; intros ->. reflexivity.
Qed.

Lemma run_port_scanner_unfold b env sig sched l1 l2 rest :
  run_port_scanner b env sig sched (l1 :: l2 :: rest)
  = ([Say ToolBanner; Ask AskTarget; Say ToolOptions; Ask AskOption]
       ++ menu_events (tool_choice b env sig sched (tool_target b l1) (strip b l2) rest),
     menu_final (tool_choice b env sig sched (tool_target b l1) (strip b l2) rest)).
Proof.
  unfold run_port_scanner, tool_choice, tool_target, input, say.
  cbn [menu_bind fst snd app].
  match goal with
  | |- _ = (_, menu_final ?K) => generalize K
  end.
  intros [t o]. reflexivity.
Qed.

Lemma port_scanner_main_unfold b env sig sched l1 l2 rest :
  port_scanner_main b env sig sched (l1 :: l2 :: rest)
  = ([Ask AskTarget; Say ScriptOptions; Ask AskOption]
       ++ menu_events
            (menu_bind (script_choice b env sig sched (strip b l1) (strip b l2) rest)
               script_summary),
     menu_final
       (menu_bind (script_choice b env sig sched (strip b l1) (strip b l2) rest)
          script_summary)).
Proof.
  unfold port_scanner_main, script_choice, script_summary, custom_scan, input.
  cbn [menu_bind fst snd app say].
  match goal with
  | |- _ = (_, menu_final ?K) => generalize K
  end.
  intros [t o]. reflexivity.
Qed.

Lemma tool_choice_other b env sig sched target opcion stdin :
  opcion <> "1" -> opcion <> "2" -> opcion <> "3" ->
  tool_choice b env sig sched target opcion stdin = ([Say InvalidOption], Return tt).
Proof.
  intros H1 H2 H3. unfold tool_choice.
  destruct (String.eqb_spec opcion "1"); [contradiction |].
  destruct (String.eqb_spec opcion "2"); [contradiction |].
  destruct (String.eqb_spec opcion "3"); [contradiction |].
  reflexivity.
Qed.

Lemma script_choice_other b env sig sched target opcion stdin :
  opcion <> "1" -> opcion <> "2" -> opcion <> "3" ->
  script_choice b env sig sched target opcion stdin = ([Say InvalidOption], Return []).
Proof.
  intros H1 H2 H3. unfold script_choice.
  destruct (String.eqb_spec opcion "1"); [contradiction |].
  destruct (String.eqb_spec opcion "2"); [contradiction |].
  destruct (String.eqb_spec opcion "3"); [contradiction |].
  reflexivity.
Qed.

(** X11: an option other than 1, 2 or 3 starts no scan.  Both menus answer
    it with the "Opción no válida" line and end normally, without a lookup,
    a connection or a further question; the script prints no summary. *)
Theorem X11_invalid_option_starts_no_scan :
  forall b env sig sched l1 l2 rest,
    strip b l2 <> "1" -> strip b l2 <> "2" -> strip b l2 <> "3" ->
    run_port_scanner b env sig sched (l1 :: l2 :: rest)
    = ([Say ToolBanner; Ask AskTarget; Say ToolOptions; Ask AskOption; Say InvalidOption],
       Return tt)
    /\ port_scanner_main b env sig sched (l1 :: l2 :: rest)
       = ([Ask AskTarget; Say ScriptOptions; Ask AskOption; Say InvalidOption],
          Return tt).
Proof.
  intros b env sig sched l1 l2 rest H1 H2 H3. split.
  - rewrite run_port_scanner_unfold, tool_choice_other by assumption. reflexivity.
  - rewrite port_scanner_main_unfold, script_choice_other by assumption. reflexivity.
Qed.

Lemma X11_invalid_option_starts_no_scan_witness :
  (strip example_builtins " 7 " <> "1" /\ strip example_builtins " 7 " <> "2"
   /\ strip example_builtins " 7 " <> "3")
  /\ scanner_events
       (menu_events
          (run_port_scanner example_builtins example_env NoSigint busy
             ["localhost"; " 7 "; "20"]))
     = [].
Proof.
  split; [repeat split; discriminate |].
  rewrite (proj1 (X11_invalid_option_starts_no_scan example_builtins example_env
                    NoSigint busy "localhost" " 7 " ["20"]
                    ltac:(discriminate) ltac:(discriminate) ltac:(discriminate))).
  reflexivity.
Defined.

Lemma said_app a b : said (a ++ b) = said a ++ said b.
Proof. apply flat_map_app. Qed.

Lemma said_scanner t : said (map Scanner t) = [].
Proof. induction t as [| ev t IH]; [reflexivity | exact IH]. Qed.

Lemma scanner_events_app a b :
  scanner_events (a ++ b) = scanner_events a ++ scanner_events b.
Proof. apply flat_map_app. Qed.

Lemma scanner_events_scanner t : scanner_events (map Scanner t) = t.
Proof.
  induction t as [| ev t IH]; [reflexivity |].
  cbn [map]. change (scanner_events (Scanner ev :: map Scanner t))
    with (ev :: scanner_events (map Scanner t)).
  rewrite IH. reflexivity.
Qed.

(** ** The custom range *)

Lemma tool_choice_custom b env sig sched target stdin :
  tool_choice b env sig sched target "3" stdin
  = menu_try
      (menu_bind (input AskStartPort stdin) (fun answer =>
       menu_bind (call_int b (fst answer)) (fun start =>
       menu_bind (input AskEndPort (snd answer)) (fun answer =>
       menu_bind (call_int b (fst answer)) (fun end_ =>
       menu_bind
         (call_scanner (scan_ports env sig sched target start end_ default_timeout
                          default_max_workers))
         (fun _ => menu_ret tt))))))
      is_ValueError
      (fun _ => say InvalidNumbers).
Proof. reflexivity. Qed.

Lemma script_choice_custom b env sig sched target stdin :
  script_choice b env sig sched target "3" stdin
  = menu_bind (input AskStartPort stdin) (fun answer =>
    menu_bind (call_int b (fst answer)) (fun start =>
    menu_bind (input AskEndPort (snd answer)) (fun answer =>
    menu_bind (call_int b (fst answer)) (fun end_ =>
    call_scanner (scan_ports env sig sched target start end_ default_timeout
                    default_max_workers))))).
Proof. reflexivity. Qed.

(** X12: a start or end port that [int] rejects with [ValueError] starts no
    scan in either menu, but the menus differ in what follows.
    [run_port_scanner] reports "Ingrese números válidos" and returns,
    without asking for the end port when the start port was the bad one;
    the script has no handler, and the [ValueError] ends it before any
    summary. *)
Theorem X12_rejected_port_numbers :
  forall b env sig sched l1 l2 l3 rest e,
    strip b l2 = "3" ->
    is_ValueError e = true ->
    (int b l3 = Raise e ->
     run_port_scanner b env sig sched (l1 :: l2 :: l3 :: rest)
     = ([Say ToolBanner; Ask AskTarget; Say ToolOptions; Ask AskOption;
         Ask AskStartPort; Say InvalidNumbers],
        Return tt)
     /\ port_scanner_main b env sig sched (l1 :: l2 :: l3 :: rest)
        = ([Ask AskTarget; Say ScriptOptions; Ask AskOption; Ask AskStartPort],
           Raise e))
    /\ (forall start l4 rest',
          rest = l4 :: rest' ->
          int b l3 = Return start ->
          int b l4 = Raise e ->
          run_port_scanner b env sig sched (l1 :: l2 :: l3 :: rest)
          = ([Say ToolBanner; Ask AskTarget; Say ToolOptions; Ask AskOption;
              Ask AskStartPort; Ask AskEndPort; Say InvalidNumbers],
             Return tt)
          /\ port_scanner_main b env sig sched (l1 :: l2 :: l3 :: rest)
             = ([Ask AskTarget; Say ScriptOptions; Ask AskOption; Ask AskStartPort;
                 Ask AskEndPort],
                Raise e)).
Proof.
  intros b env sig sched l1 l2 l3 rest e Hopt He. split.
  - intros Hint. split.
    + rewrite run_port_scanner_unfold, Hopt, tool_choice_custom.
      unfold input, call_int. cbn [menu_bind fst snd app]. rewrite Hint.
      cbn [menu_try menu_bind fst snd app]. rewrite He. reflexivity.
    + rewrite port_scanner_main_unfold, Hopt, script_choice_custom.
      unfold input, call_int. cbn [menu_bind fst snd app]. rewrite Hint.
      reflexivity.
  - intros start l4 rest' -> Hint3 Hint4. split.
    + rewrite run_port_scanner_unfold, Hopt, tool_choice_custom.
      unfold input, call_int. cbn [menu_bind fst snd app]. rewrite Hint3.
      cbn [menu_bind fst snd app]. rewrite Hint4.
      cbn [menu_try menu_bind fst snd app]. rewrite He. reflexivity.
    + rewrite port_scanner_main_unfold, Hopt, script_choice_custom.
      unfold input, call_int. cbn [menu_bind fst snd app]. rewrite Hint3.
      cbn [menu_bind fst snd app]. rewrite Hint4. reflexivity.
Qed.

Lemma X12_rejected_port_numbers_witness :
  (strip example_builtins " 3 " = "3"
   /\ int example_builtins "2x"
      = Raise (ValueError "invalid literal for int() with base 10: '2x'"))
  /\ run_port_scanner example_builtins example_env NoSigint busy
       ["localhost"; " 3 "; "2x"; "24"]
     = ([Say ToolBanner; Ask AskTarget; Say ToolOptions; Ask AskOption;
         Ask AskStartPort; Say InvalidNumbers],
        Return tt)
  /\ port_scanner_main example_builtins example_env NoSigint busy
       ["localhost"; " 3 "; "2x"; "24"]
     = ([Ask AskTarget; Say ScriptOptions; Ask AskOption; Ask AskStartPort],
        Raise (ValueError "invalid literal for int() with base 10: '2x'")).
Proof.
  split; [split; reflexivity |].
  apply (proj1 (X12_rejected_port_numbers example_builtins example_env NoSigint busy
                  "localhost" " 3 " "2x" ["24"]
                  (ValueError "invalid literal for int() with base 10: '2x'")
                  eq_refl eq_refl)).
  reflexivity.
Defined.

Lemma menu_try_raised {A} (m : Menu A) catches handler e :
  (forall e', exists t a, handler e' = (t, Return a)) ->
  menu_final (menu_try m catches handler) = Raise e ->
  catches e = false.
Proof.
  intros Hh. destruct m as [t [a | e']]; simpl; [discriminate |].
  destruct (catches e') eqn:Hc.
  - destruct (Hh e') as [t' [a ->]]. discriminate.
  - simpl. intros [= <-]. exact Hc.
Qed.

(** X13: with option 3, [run_port_scanner] never ends in a [ValueError]:
    its handler encloses the scan as well as the two conversions.  So a
    [ValueError] that the scan itself raises is answered with "Ingrese
    números válidos", after which the menu returns normally. *)
Theorem X13_custom_range_handler_covers_the_scan :
  forall b env sig sched l1 l2 rest,
    strip b l2 = "3" ->
    let run := run_port_scanner b env sig sched (l1 :: l2 :: rest) in
    (forall e, menu_final run = Raise e -> is_ValueError e = false)
    /\ (forall l3 l4 rest' start end_ msg,
          rest = l3 :: l4 :: rest' ->
          int b l3 = Return start ->
          int b l4 = Return end_ ->
          final (scan_ports env sig sched (tool_target b l1) start end_ default_timeout
                   default_max_workers)
            = Raise (ValueError msg) ->
          menu_final run = Return tt
          /\ said (menu_events run) = [ToolBanner; ToolOptions; InvalidNumbers]).
Proof.
  intros b env sig sched l1 l2 rest Hopt run. subst run.
  rewrite run_port_scanner_unfold, Hopt, tool_choice_custom. split.
  - intros e. cbn [menu_final snd]. apply menu_try_raised.
    intros e'. exists [Say InvalidNumbers], tt. reflexivity.
  - intros l3 l4 rest' start end_ msg -> Hint3 Hint4 Hscan.
    unfold input, call_int. cbn [menu_bind fst snd app]. rewrite Hint3.
    cbn [menu_bind fst snd app]. rewrite Hint4.
    cbn [menu_bind fst snd app].
    rewrite (menu_bind_Raise (call_scanner _) _ (ValueError msg) Hscan).
    cbn [menu_try menu_events menu_final is_ValueError say call_scanner fst snd app].
    split; [reflexivity |].
    change (said ([Say ToolBanner; Ask AskTarget; Say ToolOptions; Ask AskOption;
                   Ask AskStartPort; Ask AskEndPort]
                    ++ map Scanner
                         (events (scan_ports env sig sched (tool_target b l1) start end_
                                    default_timeout default_max_workers))
                    ++ [Say InvalidNumbers])
            = [ToolBanner; ToolOptions; InvalidNumbers]).
    rewrite !said_app, said_scanner. reflexivity.
Qed.

Lemma X13_custom_range_handler_covers_the_scan_witness :
  strip example_builtins "3" = "3"
  /\ menu_final
       (run_port_scanner example_builtins idna_env NoSigint first_come
          ["a..b"; "3"; "20"; "24"])
     = Return tt
  /\ said
       (menu_events
          (run_port_scanner example_builtins idna_env NoSigint first_come
             ["a..b"; "3"; "20"; "24"]))
     = [ToolBanner; ToolOptions; InvalidNumbers].
Proof.
  split; [reflexivity |].
  apply (proj2 (X13_custom_range_handler_covers_the_scan example_builtins idna_env
                  NoSigint first_come "a..b" "3" ["20"; "24"] eq_refl)
           "20" "24" [] 20 24
           "encoding with 'idna' codec failed (UnicodeError: label empty or too long)");
    reflexivity.
Defined.

(** ** The summary of the script *)

Lemma announced_In p s ls : In (p, s) (announced ls) -> In (OpenPort p s) ls.
Proof.
  unfold announced. rewrite in_flat_map. intros [l [Hl Hin]].
  destruct l; simpl in Hin; try contradiction.
  destruct Hin as [[= <- <-] | []]. exact Hl.
Qed.

(** What a scan returns is strictly ascending, and every port in it was
    announced while the scan ran. *)
Lemma scan_result_announced env sig sched host start_port end_port timeout max_workers l :
  final (scan_ports env sig sched host start_port end_port timeout max_workers)
    = Return l ->
  StronglySorted port_lt l
  /\ forall r, In r l ->
       In (OpenPort (port r) (service r))
          (printed
             (events (scan_ports env sig sched host start_port end_port timeout
                        max_workers))).
Proof.
  intros Hret.
  destruct (scan_ports_paths env host timeout sig sched start_port end_port max_workers)
    as [e Hg He Hrun | e Hg He Hrun | ip Hg Hmw Hrun | ip k Hg Hmw Hsig Hk Hrun
        | ip rs e Hg Hmw Hlen Hrs He' Hrun | ip rs Hg Hmw Hd Hc Hrs Hrun
        | ip Hg Hsize Hrun];
    rewrite Hrun in Hret |- *; cbn [final events fst snd] in Hret |- *;
    try discriminate Hret; injection Hret as <-.
  - split; [constructor | intros r []].
  - split.
    + apply sorted_open_strict.
      eapply completed_results_NoDup; [exact Hmw | apply range_NoDup | exact Hrs].
    + intros r Hr. rewrite printed_completed_run.
      apply in_or_app. right. apply in_or_app. left.
      apply announced_In. rewrite announced_loop_events.
      apply (in_map (fun r => (port r, service r))).
      eapply Permutation_in; [apply sorted_perm | exact Hr].
Qed.

Lemma quick_result_announced env host l :
  final (quick_scan env host) = Return l ->
  StronglySorted port_lt l
  /\ forall r, In r l ->
       In (OpenPort (port r) (service r)) (printed (events (quick_scan env host))).
Proof.
  intros Hret.
  apply quick_scan_returned, quick_loop_returned in Hret as [rs [Hrs ->]].
  simpl app. destruct (quick_scan_run env host rs Hrs) as [_ Hpr]. split.
  - apply StronglySorted_filter, by_port_increasing.
    rewrite (probed_ports env host (1 # 2) _ _ Hrs). apply common_ports_increasing.
  - intros r Hr. rewrite Hpr. right. apply in_or_app. left.
    apply (in_map (fun r => OpenPort (port r) (service r))), Hr.
Qed.

Lemma print_summary_run results :
  print_summary results
  = (map (fun r => Say (SummaryPort (port r) (service r))) results, Return tt).
Proof.
  induction results as [| r rest IH]; [reflexivity |].
  simpl. rewrite IH. reflexivity.
Qed.

Lemma custom_scan_returned b env sig sched target stdin results :
  menu_final (custom_scan b env sig sched target stdin) = Return results ->
  exists start end_,
    menu_events (custom_scan b env sig sched target stdin)
    = [Ask AskStartPort; Ask AskEndPort]
        ++ map Scanner
             (events (scan_ports env sig sched target start end_ default_timeout
                        default_max_workers))
    /\ final (scan_ports env sig sched target start end_ default_timeout
                default_max_workers)
       = Return results.
Proof.
  unfold custom_scan, input, call_int.
  destruct stdin as [| l3 stdin]; [discriminate |].
  cbn [menu_bind fst snd app].
  destruct (int b l3) as [start | e]; [| discriminate].
  destruct stdin as [| l4 stdin]; [discriminate |].
  cbn [menu_bind fst snd app].
  destruct (int b l4) as [end_ | e]; [| discriminate].
  cbn [menu_bind menu_events menu_final call_scanner fst snd app].
  intros Hret. exists start, end_. split; [reflexivity | exact Hret].
Qed.

(** The results the script gets for its option: ascending, announced, and
    with no summary line printed yet. *)
Lemma script_choice_returned b env sig sched target opcion stdin results :
  menu_final (script_choice b env sig sched target opcion stdin) = Return results ->
  StronglySorted port_lt results
  /\ (forall r, In r results ->
        In (OpenPort (port r) (service r))
           (printed
              (scanner_events
                 (menu_events (script_choice b env sig sched target opcion stdin)))))
  /\ (said (menu_events (script_choice b env sig sched target opcion stdin)) = []
      \/ said (menu_events (script_choice b env sig sched target opcion stdin))
         = [InvalidOption]).
Proof.
  unfold script_choice.
  destruct (String.eqb opcion "1").
  { cbn [call_scanner menu_events menu_final fst snd]. intros Hret.
    rewrite scanner_events_scanner, said_scanner.
    destruct (quick_result_announced env target results Hret). auto. }
  destruct (String.eqb opcion "2").
  { cbn [call_scanner menu_events menu_final fst snd]. intros Hret.
    rewrite scanner_events_scanner, said_scanner.
    destruct (scan_result_announced env sig sched target 1 1024 default_timeout
                default_max_workers results Hret). auto. }
  destruct (String.eqb opcion "3").
  { intros Hret.
    destruct (custom_scan_returned b env sig sched target stdin results Hret)
      as [start [end_ [Hev Hscan]]].
    rewrite Hev, scanner_events_app, said_app, scanner_events_scanner, said_scanner.
    destruct (scan_result_announced env sig sched target start end_ default_timeout
                default_max_workers results Hscan). auto. }
  cbn. intros [= <-]. split; [constructor |]. split; [intros r [] | auto].
Qed.

Lemma summary_of_app a b : summary_of (a ++ b) = summary_of a ++ summary_of b.
Proof. apply flat_map_app. Qed.

Lemma said_summary results :
  said (map (fun r => Say (SummaryPort (port r) (service r))) results)
  = map (fun r => SummaryPort (port r) (service r)) results.
Proof.
  induction results as [| r rest IH]; [reflexivity |].
  cbn [map]. rewrite <- IH. reflexivity.
Qed.

Lemma summary_of_summary results :
  summary_of (map (fun r => SummaryPort (port r) (service r)) results)
  = map (fun r => (port r, service r)) results.
Proof.
  induction results as [| r rest IH]; [reflexivity |].
  cbn [map]. rewrite <- IH. reflexivity.
Qed.

Lemma scanner_events_summary results :
  scanner_events (map (fun r => Say (SummaryPort (port r) (service r))) results) = [].
Proof. induction results as [| r rest IH]; [reflexivity | exact IH]. Qed.

(** All the script says, for the results its option gave. *)
Lemma script_said b env sig sched l1 l2 rest results :
  menu_final (script_choice b env sig sched (strip b l1) (strip b l2) rest)
    = Return results ->
  exists middle,
    (middle = [] \/ middle = [InvalidOption])
    /\ menu_final (port_scanner_main b env sig sched (l1 :: l2 :: rest)) = Return tt
    /\ said (menu_events (port_scanner_main b env sig sched (l1 :: l2 :: rest)))
       = [ScriptOptions] ++ middle
           ++ match results with
              | [] => []
              | _ :: _ =>
                  SummaryHeader
                  :: map (fun r => SummaryPort (port r) (service r)) results
              end
    /\ scanner_events (menu_events (port_scanner_main b env sig sched (l1 :: l2 :: rest)))
       = scanner_events
           (menu_events (script_choice b env sig sched (strip b l1) (strip b l2) rest)).
Proof.
  intros Hret.
  destruct (script_choice_returned b env sig sched _ _ _ results Hret) as [_ [_ Hsaid]].
  exists (said (menu_events (script_choice b env sig sched (strip b l1) (strip b l2) rest))).
  split; [exact Hsaid |].
  rewrite port_scanner_main_unfold, (menu_bind_Return _ _ results Hret).
  cbn [menu_events menu_final fst snd].
  rewrite !said_app, !scanner_events_app.
  unfold script_summary. destruct results as [| r results].
  - cbn. rewrite !app_nil_r. auto.
  - unfold say. cbn [menu_bind]. rewrite print_summary_run.
    cbn [menu_events menu_final fst snd app]. split; [reflexivity |]. split.
    + change (Say SummaryHeader
                :: map (fun r0 => Say (SummaryPort (port r0) (service r0))) (r :: results))
        with ([Say SummaryHeader]
                ++ map (fun r0 => Say (SummaryPort (port r0) (service r0))) (r :: results)).
      rewrite said_app, said_summary. reflexivity.
    + change (Say SummaryHeader
                :: map (fun r0 => Say (SummaryPort (port r0) (service r0))) (r :: results))
        with ([Say SummaryHeader]
                ++ map (fun r0 => Say (SummaryPort (port r0) (service r0))) (r :: results)).
      rewrite scanner_events_app, scanner_events_summary. simpl. apply app_nil_r.
Qed.

(** X14: when the script ends normally, its summary lists ports in strictly
    ascending order, each of them a port that the scan it ran announced as
    open, with the same service name; and the summary header is printed
    exactly when there is at least one port to list, so nothing at all is
    summarised for a host that does not resolve or has no open port. *)
Theorem X14_script_summary :
  forall b env sig sched stdin,
    menu_final (port_scanner_main b env sig sched stdin) = Return tt ->
    let t := menu_events (port_scanner_main b env sig sched stdin) in
    StronglySorted Z.lt (map fst (summary_of (said t)))
    /\ (forall p s, In (p, s) (summary_of (said t)) ->
                    In (OpenPort p s) (printed (scanner_events t)))
    /\ (In SummaryHeader (said t) <-> summary_of (said t) <> []).
Proof.
  intros b env sig sched stdin Hret t. subst t.
  destruct stdin as [| l1 [| l2 rest]]; [discriminate Hret | discriminate Hret |].
  destruct (menu_final (script_choice b env sig sched (strip b l1) (strip b l2) rest))
    as [results | e] eqn:Hchoice.
  2: { rewrite port_scanner_main_unfold, (menu_bind_Raise _ _ e Hchoice) in Hret.
       discriminate Hret. }
  destruct (script_choice_returned b env sig sched _ _ _ results Hchoice)
    as [Hsorted [Hann _]].
  destruct (script_said b env sig sched l1 l2 rest results Hchoice)
    as [middle [Hmiddle [_ [Hsaid Hscan]]]].
  rewrite Hsaid, Hscan, !summary_of_app.
  assert (Hmid : summary_of middle = [] /\ ~ In SummaryHeader middle).
  { destruct Hmiddle as [-> | ->]; split; try reflexivity; simpl; intuition discriminate. }
  destruct Hmid as [Hmid Hnohead]. rewrite Hmid.
  destruct results as [| r results].
  - cbn. split; [constructor |]. split; [intros p s [] |].
    split; [| congruence].
    rewrite app_nil_r. intros [Heq | Hin]; [discriminate Heq | contradiction].
  - change (summary_of
              (SummaryHeader
                 :: map (fun r0 => SummaryPort (port r0) (service r0)) (r :: results)))
      with (summary_of
              (map (fun r0 => SummaryPort (port r0) (service r0)) (r :: results))).
    rewrite summary_of_summary. cbn [summary_of flat_map app].
    rewrite map_map. cbn [fst]. split; [| split].
    + apply StronglySorted_map with (R := port_lt); [auto | exact Hsorted].
    + intros p s Hin. apply in_map_iff in Hin as [r0 [[= <- <-] Hr0]].
      apply Hann, Hr0.
    + split; [discriminate |]. intros _.
      right. apply in_or_app. right. left. reflexivity.
Qed.

Lemma X14_script_summary_witness :
  menu_final
    (port_scanner_main example_builtins example_env NoSigint busy ["localhost"; "1"])
    = Return tt
  /\ summary_of
       (said
          (menu_events
             (port_scanner_main example_builtins example_env NoSigint busy
                ["localhost"; "1"])))
     = [(22, Some "ssh"); (8080, Some "desconocido")]
  /\ StronglySorted Z.lt
       (map fst
          (summary_of
             (said
                (menu_events
                   (port_scanner_main example_builtins example_env NoSigint busy
                      ["localhost"; "1"]))))).
Proof.
  split; [reflexivity |]. split; [reflexivity |].
  apply (X14_script_summary example_builtins example_env NoSigint busy
           ["localhost"; "1"]).
  reflexivity.
Defined.

(** ** The full scan from the menus *)

(** X15: option 2 of either menu is exactly one call
    [scan_ports(target, 1, 1024)], with the default timeout of 1 s and the
    default bound of 100 workers, and nothing else but the menu's own lines:
    [run_port_scanner] scans the stripped target, and ["localhost"] when
    that is blank, and ends as the scan ends; the script passes the stripped
    target on as it is, blank or not, and after a scan that returned a list
    that is not empty prints the summary of that list. *)
Theorem X15_full_scan_option :
  forall b env sig sched l1 l2 rest,
    strip b l2 = "2" ->
    let tool_run := run_port_scanner b env sig sched (l1 :: l2 :: rest) in
    let script_run := port_scanner_main b env sig sched (l1 :: l2 :: rest) in
    let tool_scan := scan_ports env sig sched (tool_target b l1) 1 1024 1%Q 100 in
    let script_scan := scan_ports env sig sched (strip b l1) 1 1024 1%Q 100 in
    tool_run
    = ([Say ToolBanner; Ask AskTarget; Say ToolOptions; Ask AskOption]
         ++ map Scanner (events tool_scan),
       match final tool_scan with
       | Return _ => Return tt
       | Raise e => Raise e
       end)
    /\ script_run
       = ([Ask AskTarget; Say ScriptOptions; Ask AskOption]
            ++ map Scanner (events script_scan)
            ++ match final script_scan with
               | Return (r :: results) =>
                   Say SummaryHeader
                   :: map (fun r => Say (SummaryPort (port r) (service r))) (r :: results)
               | _ => []
               end,
          match final script_scan with
          | Return _ => Return tt
          | Raise e => Raise e
          end)
    /\ scanner_events (menu_events tool_run) = events tool_scan
    /\ scanner_events (menu_events script_run) = events script_scan
    /\ (strip b l1 = "" ->
        lookups (scanner_events (menu_events tool_run)) = ["localhost"]
        /\ lookups (scanner_events (menu_events script_run)) = [""]).
Proof.
  intros b env sig sched l1 l2 rest Hopt tool_run script_run tool_scan script_scan.
  assert (Htool : tool_run
                  = ([Say ToolBanner; Ask AskTarget; Say ToolOptions; Ask AskOption]
                       ++ map Scanner (events tool_scan),
                     match final tool_scan with
                     | Return _ => Return tt
                     | Raise e => Raise e
                     end)).
  { subst tool_run tool_scan. rewrite run_port_scanner_unfold, Hopt. unfold tool_choice.
    cbn [String.eqb Ascii.eqb Bool.eqb].
    unfold default_timeout, default_max_workers, call_scanner.
    destruct (scan_ports env sig sched (tool_target b l1) 1 1024 1 100) as [t [l | e]];
      cbn [menu_bind menu_ret menu_events menu_final events final fst snd];
      rewrite ?app_nil_r; reflexivity. }
  assert (Hscript : script_run
                    = ([Ask AskTarget; Say ScriptOptions; Ask AskOption]
                         ++ map Scanner (events script_scan)
                         ++ match final script_scan with
                            | Return (r :: results) =>
                                Say SummaryHeader
                                :: map (fun r => Say (SummaryPort (port r) (service r)))
                                     (r :: results)
                            | _ => []
                            end,
                       match final script_scan with
                       | Return _ => Return tt
                       | Raise e => Raise e
                       end)).
  { subst script_run script_scan. rewrite port_scanner_main_unfold, Hopt.
    unfold script_choice. cbn [String.eqb Ascii.eqb Bool.eqb].
    unfold default_timeout, default_max_workers, call_scanner.
    destruct (scan_ports env sig sched (strip b l1) 1 1024 1 100) as [t [l | e]];
      cbn [menu_bind events final fst snd].
    - unfold script_summary. destruct l as [| r results].
      + cbn [menu_ret menu_events menu_final fst snd]. reflexivity.
      + unfold say. cbn [menu_bind]. rewrite print_summary_run.
        cbn [menu_events menu_final fst snd app]. reflexivity.
    - cbn [menu_events menu_final fst snd]. rewrite app_nil_r. reflexivity. }
  assert (Htool_ev : scanner_events (menu_events tool_run) = events tool_scan).
  { rewrite Htool. cbn [menu_events fst].
    rewrite scanner_events_app, scanner_events_scanner. reflexivity. }
  assert (Hscript_ev : scanner_events (menu_events script_run) = events script_scan).
  { assert (Hsum : forall o : outcome (list PortResult),
               scanner_events
                 match o with
                 | Return (r :: results) =>
                     Say SummaryHeader
                     :: map (fun r => Say (SummaryPort (port r) (service r))) (r :: results)
                 | _ => []
                 end = []).
    { intros [[| r results] | e]; try reflexivity.
      exact (scanner_events_summary (r :: results)). }
    rewrite Hscript. cbn [menu_events fst].
    rewrite !scanner_events_app, scanner_events_scanner, Hsum.
    cbn [scanner_events flat_map app]. apply app_nil_r. }
  split; [exact Htool |]. split; [exact Hscript |].
  split; [exact Htool_ev |]. split; [exact Hscript_ev |].
  intros Hblank. rewrite Htool_ev, Hscript_ev. subst tool_scan script_scan.
  rewrite !scan_ports_lookups. unfold tool_target. rewrite Hblank. split; reflexivity.
Qed.

Lemma X15_full_scan_option_witness :
  strip example_builtins " 2" = "2"
  /\ scanner_events
       (menu_events
          (port_scanner_main example_builtins example_env NoSigint busy ["   "; " 2"]))
     = events (scan_ports example_env NoSigint busy (strip example_builtins "   ")
                 1 1024 1%Q 100).
Proof.
  split; [reflexivity |].
  apply (X15_full_scan_option example_builtins example_env NoSigint busy "   " " 2" []
           eq_refl).
Defined.

(** * [port_check] beside [scan_port] *)

(** X16: [port_check] and [scan_port] agree on a port.  When both return,
    the dictionary of [port_check] names the host and port probed, has
    [is_open] set exactly when the status is "abierto", then with the same
    service name, has the service [None] when the status is "cerrado", and
    has the same error message and no service entry when the status is
    "error". *)
Theorem X16_port_check_agrees_with_scan_port :
  forall env host p timeout r d,
    final (scan_port env host p timeout) = Return r ->
    final (port_check env host p timeout) = Return d ->
    pc_host d = host
    /\ pc_port d = port r
    /\ pc_is_open d = is_open r
    /\ pc_error d = error r
    /\ (status r = "abierto" -> pc_service d = Some (service r))
    /\ (status r = "cerrado" -> pc_service d = Some None)
    /\ (status r = "error" -> pc_service d = None).
Proof.
  intros env host p timeout r d.
  unfold scan_port, port_check, call_connect_ex, call_getservbyport,
    try_except, bind, ret, final.
  destruct (connect_ex env host p timeout) as [code | e]; cbn.
  - destruct (code =? 0) eqn:Hc; cbn;
      (destruct (getservbyport env p) as [s | e]; cbn;
       [| destruct (is_OSError e) eqn:He; cbn; rewrite ?He; cbn]);
      intros Hr Hd; try discriminate;
      injection Hr as <-; try injection Hd as <-;
      cbn; repeat split; auto; discriminate.
  - destruct (is_OSError e); cbn; intros Hr Hd; try discriminate.
    injection Hr as <-. injection Hd as <-.
    cbn. repeat split; auto; discriminate.
Qed.

Lemma X16_port_check_agrees_with_scan_port_witness :
  final (scan_port example_env "localhost" 22 1%Q)
  = Return (mkPortResult 22 "abierto" (Some "ssh") None)
  /\ final (port_check example_env "localhost" 22 port_check_default_timeout)
     = Return (mkPortCheck "localhost" 22 true (Some (Some "ssh")) None)
  /\ pc_service (mkPortCheck "localhost" 22 true (Some (Some "ssh")) None)
     = Some (service (mkPortResult 22 "abierto" (Some "ssh") None)).
Proof.
  split; [reflexivity |]. split; [reflexivity |].
  apply (X16_port_check_agrees_with_scan_port example_env "localhost" 22 2%Q
           (mkPortResult 22 "abierto" (Some "ssh") None)
           (mkPortCheck "localhost" 22 true (Some (Some "ssh")) None)
           eq_refl eq_refl).
  reflexivity.
Defined.

(** X17: [port_check] asks for the service name of every port whose
    connection attempt returned, open or not, where [scan_port] asks only
    for an open one.  For a closed port the name found is dropped (the
    service is [None]), and a lookup that fails with something other than
    [OSError] makes [port_check] raise, although [scan_port] reports the
    same port as "cerrado". *)
Theorem X17_port_check_always_looks_the_service_up :
  forall env host p timeout code,
    connect_ex env host p timeout = Return code ->
    events (port_check env host p timeout)
    = [CallConnectEx host p timeout; CallGetservbyport p]
    /\ (code <> 0 ->
        events (scan_port env host p timeout) = [CallConnectEx host p timeout]
        /\ final (scan_port env host p timeout) = Return (mkPortResult p "cerrado" None None)
        /\ (forall s, getservbyport env p = Return s ->
                      final (port_check env host p timeout)
                      = Return (mkPortCheck host p false (Some None) None))
        /\ (forall e, getservbyport env p = Raise e ->
                      final (port_check env host p timeout)
                      = if is_OSError e
                        then Return (mkPortCheck host p false (Some None) None)
                        else Raise e)).
Proof.
  intros env host p timeout code Hc.
  unfold scan_port, port_check, call_connect_ex, call_getservbyport,
    try_except, bind, ret, final, events.
  rewrite Hc. cbn. split.
  - destruct (getservbyport env p) as [s | e]; cbn; [reflexivity |].
    destruct (is_OSError e) eqn:He; cbn; rewrite ?He; reflexivity.
  - intros Hne. apply Z.eqb_neq in Hne. rewrite Hne. cbn.
    split; [reflexivity |]. split; [reflexivity |].
    split; [intros s -> | intros e ->]; cbn; [reflexivity |].
    destruct (is_OSError e) eqn:He; cbn; rewrite ?He; reflexivity.
Qed.

Lemma X17_port_check_always_looks_the_service_up_witness :
  connect_ex interrupted_lookup_env "localhost" 80 2%Q = Return ECONNREFUSED
  /\ events (port_check interrupted_lookup_env "localhost" 80 2%Q)
     = [CallConnectEx "localhost" 80 2%Q; CallGetservbyport 80].
Proof.
  split; [reflexivity |].
  apply (X17_port_check_always_looks_the_service_up interrupted_lookup_env
           "localhost" 80 2%Q ECONNREFUSED eq_refl).
Defined.
